(** * ATSpect: upload pipeline, retry utilities, health-check breaker

    A shallow embedding of the orchestration core of the ATSpect client:
    - [utils.js]: [retryWithBackoff], [createError], [isRetryableError],
      [createProgressTracker];
    - [lib/supabase.js]: [storageService], [resumeService], [healthCheck];
    - [services/perplexityService.js]: [analyzeResumeWithPerplexity];
    - [pages/Upload.js]: [cleanupFailedUpload], [handleCancel],
      [handleAnalyze].

    Asynchronous functions are state-and-exception passing functions: an
    [await] that rejects is an [Err] result, and the state reached before the
    rejection is kept.  Whatever the outside world decides (what the backend
    answers, which timer fires first, what [Math.random] and [Date.now]
    return, when the user clicks) is read from an explicit oracle. *)

From Stdlib Require Import ZArith Lia Bool Ascii String.
From Stdlib Require Import DecimalString.
From stdpp Require Import base option list gmap strings.

Local Open Scope Z_scope.
Local Open Scope string_scope.
Set Warnings "-register-all".

(* ===================================================================== *)
(** * Part I: definitions                                                 *)
(* ===================================================================== *)

(** ** JavaScript values and thrown errors *)

(** Values of the shapes the modelled code touches.  Finite numbers are the
    integer-valued ones (step counts, scores, milliseconds); [VNaN] and
    [VInfinity] are what a division by zero leaves. *)
Inductive jsval : Type :=
| VUndefined
| VNull
| VBool (b : bool)
| VNum (n : Z)
| VNaN
| VInfinity (negative : bool)
| VStr (s : string)
| VArr (items : list jsval)
| VObj (fields : list (string * jsval)).

(** [!!v] of JavaScript: every value is truthy except [undefined], [null],
    [false], [0], [NaN] and the empty string. *)
Definition truthy (v : jsval) : bool :=
  match v with
  | VUndefined | VNull | VNaN => false
  | VInfinity _ => true
  | VBool b => b
  | VNum n => negb (n =? 0)%Z
  | VStr s => negb (String.eqb s EmptyString)
  | VArr _ | VObj _ => true
  end.

Fixpoint assoc (k : string) (fields : list (string * jsval)) : option jsval :=
  match fields with
  | [] => None
  | (k', v) :: rest => if String.eqb k k' then Some v else assoc k rest
  end.

(** [o.k] for a value [o] that is neither [null] nor [undefined]: an own
    property of an object, [undefined] otherwise (none of the keys read by
    the modelled code is found on a prototype). *)
Definition prop (o : jsval) (k : string) : jsval :=
  match o with
  | VObj fields => default VUndefined (assoc k fields)
  | _ => VUndefined
  end.

(** [{...base, ...extra}]: a key of [extra] already present keeps its place
    and takes the new value, a new key is appended. *)
Fixpoint set_field (k : string) (v : jsval) (fields : list (string * jsval))
  : list (string * jsval) :=
  match fields with
  | [] => [(k, v)]
  | (k', v') :: rest =>
      if String.eqb k k' then (k', v) :: rest else (k', v') :: set_field k v rest
  end.

Definition spread (base extra : list (string * jsval)) : list (string * jsval) :=
  fold_left (fun acc kv => set_field kv.1 kv.2 acc) extra base.

(** A thrown value: an [Error] object with the fields the code inspects
    ([name], [message], and the [code] that [createError] attaches), or
    [undefined]. *)
Inductive exn : Type :=
| JsError (name message : string) (code : option string)
| JsUndefined.

Definition exn_message (e : exn) : string :=
  match e with JsError _ m _ => m | JsUndefined => EmptyString end.
Definition exn_name (e : exn) : string :=
  match e with JsError n _ _ => n | JsUndefined => EmptyString end.
Definition exn_code (e : exn) : option string :=
  match e with JsError _ _ c => c | JsUndefined => None end.

(** [new Error(message)] *)
Definition newError (message : string) : exn := JsError "Error" message None.

(** utils.js [createError(message, code)]; [details] and [timestamp] are
    never read back. *)
Definition createError (message code : string) : exn :=
  JsError "Error" message (Some code).

Inductive Result (A : Type) : Type :=
| Ok (a : A)
| Err (e : exn).
Arguments Ok {A} a.
Arguments Err {A} e.

(** ** The state-and-exception monad *)

Definition M (S A : Type) : Type := S -> Result A * S.

Definition ret {S A} (a : A) : M S A := fun s => (Ok a, s).
Definition throw {S A} (e : exn) : M S A := fun s => (Err e, s).
Definition bind {S A B} (m : M S A) (k : A -> M S B) : M S B :=
  fun s => match m s with
           | (Ok a, s') => k a s'
           | (Err e, s') => (Err e, s')
           end.
(** [try { m } catch (e) { h e }] *)
Definition try_catch {S A} (m : M S A) (h : exn -> M S A) : M S A :=
  fun s => match m s with
           | (Ok a, s') => (Ok a, s')
           | (Err e, s') => h e s'
           end.
Definition modify {S} (f : S -> S) : M S unit := fun s => (Ok tt, f s).
Definition gets {S A} (f : S -> A) : M S A := fun s => (Ok (f s), s).

Declare Scope js_scope.
Delimit Scope js_scope with js.
Notation "'let*' x ':=' m 'in' k" := (bind m (fun x => k))
  (at level 10, x name, m at level 100, k at level 200) : js_scope.
Local Open Scope js_scope.

(** ** utils.js: strings and error classification *)

Definition lower_ascii (c : ascii) : ascii :=
  let n := nat_of_ascii c in
  if ((65 <=? n) && (n <=? 90))%nat then ascii_of_nat (n + 32) else c.

(** [s.toLowerCase()] on the ASCII range. *)
Fixpoint toLowerCase (s : string) : string :=
  match s with
  | EmptyString => EmptyString
  | String c rest => String (lower_ascii c) (toLowerCase rest)
  end.

(** [hay.includes(needle)] *)
Fixpoint includes (hay needle : string) : bool :=
  if String.prefix needle hay then true
  else match hay with
       | EmptyString => false
       | String _ rest => includes rest needle
       end.

Definition retryableErrors : list string :=
  [ "timeout"; "network"; "fetch"; "connection";
    "service temporarily unavailable"; "internal server error";
    "bad gateway"; "service unavailable"; "gateway timeout" ].

(** utils.js [isRetryableError(error)] *)
Definition isRetryableError (e : exn) : bool :=
  let errorMessage := toLowerCase (exn_message e) in
  existsb (fun keyword => includes errorMessage keyword) retryableErrors.

(** Template literal [`${n}`] for a non-negative integer. *)
Definition show_nat (n : nat) : string := NilZero.string_of_uint (Nat.to_uint n).

(** ** utils.js: retryWithBackoff *)

Section Retry.
Context {S A : Type}.
(** [await sleep(ms)] as seen by the state, and the value of
    [Math.random() * 1000] drawn after the given attempt. *)
Variable sleep : Z -> S -> S.
Variable jitter : nat -> Z.

(** The [for] loop of [retryWithBackoff]: [remaining] counts the iterations
    [attempt, attempt+1, ..., maxRetries] still to run. *)
Fixpoint retry_loop (fn : nat -> M S A) (maxRetries : nat)
    (baseDelay maxDelay backoffFactor : Z)
    (remaining attempt : nat) (lastError : exn) : M S A :=
  match remaining with
  | O => throw lastError
  | Datatypes.S remaining' =>
      fun s =>
        match fn attempt s with
        | (Ok v, s') => (Ok v, s')
        | (Err error, s') =>
            if (attempt =? maxRetries)%nat then (Err error, s')
            else
              let delay :=
                Z.min (baseDelay * backoffFactor ^ (Z.of_nat attempt - 1)
                       + jitter attempt) maxDelay in
              retry_loop fn maxRetries baseDelay maxDelay backoffFactor
                remaining' (Datatypes.S attempt) error (sleep delay s')
        end
  end.

Definition retryWithBackoff (fn : nat -> M S A) (maxRetries : nat)
    (baseDelay maxDelay backoffFactor : Z) : M S A :=
  retry_loop fn maxRetries baseDelay maxDelay backoffFactor
    maxRetries 1%nat JsUndefined.
End Retry.

(** An operation instrumented with an invocation counter. *)
Definition counted {S A} (fn : nat -> M S A) : nat -> M (S * nat) A :=
  fun attempt '(s, calls) =>
    let '(r, s') := fn attempt s in (r, (s', Datatypes.S calls)).

Definition counted_sleep {S} (sleep : Z -> S -> S) : Z -> S * nat -> S * nat :=
  fun ms '(s, calls) => (sleep ms s, calls).

(** The operation rejects at every attempt, in every state. *)
Definition always_rejects {S A} (fn : nat -> M S A) : Prop :=
  forall attempt s, exists e, (fn attempt s).1 = Err e.

(** An error that [isRetryableError] classifies as terminal. *)
Definition permission_denied : exn := newError "Permission denied".

(** ** utils.js: createProgressTracker *)

Section ProgressTracker.
(** The state the [onProgress] callback acts on. *)
Context {U : Type}.
(** [Math.round((step / totalSteps) * 100)] as the doubles of the engine
    evaluate it. *)
Variable percent : Z -> Z -> jsval.
Variable totalSteps : Z.
Variable onProgress : option (jsval -> U -> U).

(** The state is the closure variable [currentStep] paired with the
    callback's state. *)
Definition update (step : Z) (message : string)
    (details : list (string * jsval)) : M (Z * U) jsval :=
  fun '(_, u) =>
    let currentStep := step in
    let progress := percent step totalSteps in
    let progressData :=
      VObj (spread [ ("step", VNum currentStep);
                     ("totalSteps", VNum totalSteps);
                     ("progress", progress);
                     ("message", VStr message) ] details) in
    let u' := match onProgress with
              | Some callback => callback progressData u
              | None => u
              end in
    (Ok progressData, (currentStep, u')).

Definition increment (message : string) (details : list (string * jsval))
  : M (Z * U) jsval :=
  fun '(currentStep, u) =>
    update (currentStep + 1) message details (currentStep, u).

(** [complete(message = 'Complete')] *)
Definition complete (message : option string) : M (Z * U) jsval :=
  update totalSteps (default "Complete" message) [("completed", VBool true)].

Definition getCurrentProgress : M (Z * U) jsval :=
  fun '(currentStep, u) =>
    (Ok (VObj [ ("step", VNum currentStep);
                ("totalSteps", VNum totalSteps);
                ("progress", percent currentStep totalSteps) ]),
     (currentStep, u)).

(** One call on the tracker object. *)
Inductive TrackerOp : Type :=
| OpUpdate (step : Z) (message : string) (details : list (string * jsval))
| OpIncrement (message : string) (details : list (string * jsval))
| OpComplete (message : option string)
| OpGetCurrentProgress.

Definition tracker_call (op : TrackerOp) : M (Z * U) jsval :=
  match op with
  | OpUpdate step message details => update step message details
  | OpIncrement message details => increment message details
  | OpComplete message => complete message
  | OpGetCurrentProgress => getCurrentProgress
  end.

(** The value of [currentStep] after each call of a sequence. *)
Fixpoint counter_trace (ops : list TrackerOp) (st : Z * U) : list Z :=
  match ops with
  | [] => []
  | op :: rest =>
      let st' := (tracker_call op st).2 in
      st'.1 :: counter_trace rest st'
  end.
End ProgressTracker.

Arguments TrackerOp : clear implicits.
Arguments OpUpdate step message details : clear implicits.
Arguments OpIncrement message details : clear implicits.
Arguments OpComplete message : clear implicits.
Arguments OpGetCurrentProgress : clear implicits.

(** [createProgressTracker]: [let currentStep = 0]. *)
Definition createProgressTracker {U} (u : U) : Z * U := (0, u).

(** [Math.round((step / totalSteps) * 100)] in exact arithmetic (round half
    up).  The doubles of the engine give the same integer unless
    [100 * step / totalSteps] lies within rounding error of a half-integer;
    they do on every quotient of the upload page, whose [totalSteps] is 7. *)
Definition percent_exact (step totalSteps : Z) : jsval :=
  if (totalSteps =? 0)%Z then
    if (step =? 0)%Z then VNaN else VInfinity (step <? 0)%Z
  else VNum ((200 * step + totalSteps) / (2 * totalSteps)).

(** Each element is at most the next one. *)
Fixpoint nondecreasing_from (prev : Z) (l : list Z) : bool :=
  match l with
  | [] => true
  | x :: rest => (prev <=? x)%Z && nondecreasing_from x rest
  end.

Definition is_increment (op : TrackerOp) : Prop :=
  match op with OpIncrement _ _ => True | _ => False end.

(** A callback that records what it is given. *)
Definition record_report (progressData : jsval) (log : list jsval) : list jsval :=
  log ++ [progressData].

(** ** lib/supabase.js: healthCheck and its circuit breaker *)

Module healthCheck.

(** [healthCheck._circuitBreaker]; [lastFailure] is [null] or a
    [Date.now()] value. *)
Record CircuitBreaker : Type := {
  failures : Z;
  lastFailure : option Z;
  isOpen : bool;
  threshold : Z;
  resetTime : Z
}.

(** The object literal of the module. *)
Definition initial_breaker : CircuitBreaker :=
  {| failures := 0; lastFailure := None; isOpen := false;
     threshold := 3; resetTime := 30000 |}.

Definition set_failures (n : Z) (cb : CircuitBreaker) : CircuitBreaker :=
  {| failures := n; lastFailure := lastFailure cb; isOpen := isOpen cb;
     threshold := threshold cb; resetTime := resetTime cb |}.
Definition set_lastFailure (t : option Z) (cb : CircuitBreaker) : CircuitBreaker :=
  {| failures := failures cb; lastFailure := t; isOpen := isOpen cb;
     threshold := threshold cb; resetTime := resetTime cb |}.
Definition set_isOpen (b : bool) (cb : CircuitBreaker) : CircuitBreaker :=
  {| failures := failures cb; lastFailure := lastFailure cb; isOpen := b;
     threshold := threshold cb; resetTime := resetTime cb |}.

(** [_checkCircuit()], run when [Date.now()] is [now]; [true] means the
    circuit is closed.  [Date.now() - null] is [Date.now()]. *)
Definition _checkCircuit (now : Z) (cb : CircuitBreaker) : bool * CircuitBreaker :=
  if (failures cb >=? threshold cb)%Z then
    let timeSinceLastFailure := now - default 0 (lastFailure cb) in
    if (timeSinceLastFailure >? resetTime cb)%Z then
      (true, set_isOpen false (set_failures 0 cb))
    else
      (false, set_isOpen true cb)
  else (true, cb).

Definition _recordFailure (now : Z) (cb : CircuitBreaker) : CircuitBreaker :=
  let cb1 := set_failures (failures cb + 1) cb in
  let cb2 := set_lastFailure (Some now) cb1 in
  if (failures cb2 >=? threshold cb2)%Z then set_isOpen true cb2 else cb2.

Definition _recordSuccess (cb : CircuitBreaker) : CircuitBreaker :=
  set_isOpen false (set_failures 0 cb).

Definition resetCircuitBreaker (cb : CircuitBreaker) : CircuitBreaker :=
  set_lastFailure None (set_isOpen false (set_failures 0 cb)).

Inductive Dependency : Type := Database | Storage.

(** What the awaited backend call of a probe does: it answers without an
    error, answers with an error, or rejects (the 5 s timer of
    [promiseWithTimeout] included). *)
Inductive ProbeOutcome : Type := ProbeOk | ProbeError | ProbeRejects.

(** The service object: its one breaker, and the backend calls issued so
    far. *)
Record Health : Type := {
  _circuitBreaker : CircuitBreaker;
  calls : list Dependency
}.

Definition initial_health : Health :=
  {| _circuitBreaker := initial_breaker; calls := [] |}.

(** What the world supplies to one probe: [Date.now()] when the circuit is
    checked, the fate of the backend call, and [Date.now()] when a failure
    is recorded. *)
Record Probe : Type := {
  at_check : Z;
  outcome : ProbeOutcome;
  at_record : Z
}.

(** A probe up to its [await]: the circuit check, then the backend call
    when the circuit is closed. *)
Definition probe_begin (d : Dependency) (now : Z) (h : Health) : bool * Health :=
  let '(closed, cb) := _checkCircuit now (_circuitBreaker h) in
  if closed then (true, {| _circuitBreaker := cb; calls := calls h ++ [d] |})
  else (false, {| _circuitBreaker := cb; calls := calls h |}).

(** A probe after its [await]: both the [if (error)] branch and the
    [catch] record a failure. *)
Definition probe_end (o : ProbeOutcome) (now : Z) (h : Health) : bool * Health :=
  match o with
  | ProbeOk =>
      (true, {| _circuitBreaker := _recordSuccess (_circuitBreaker h);
                calls := calls h |})
  | ProbeError | ProbeRejects =>
      (false, {| _circuitBreaker := _recordFailure now (_circuitBreaker h);
                 calls := calls h |})
  end.

Definition testConnection (p : Probe) (h : Health) : bool * Health :=
  let '(closed, h1) := probe_begin Database (at_check p) h in
  if closed then probe_end (outcome p) (at_record p) h1 else (false, h1).

Definition testStorageConnection (p : Probe) (h : Health) : bool * Health :=
  let '(closed, h1) := probe_begin Storage (at_check p) h in
  if closed then probe_end (outcome p) (at_record p) h1 else (false, h1).

Definition probe (d : Dependency) : Probe -> Health -> bool * Health :=
  match d with
  | Database => testConnection
  | Storage => testStorageConnection
  end.

(** [testAllConnections()]: both probes are started before either is
    awaited, so both circuit checks come first; [storage_first] tells which
    backend call settles first. *)
Definition testAllConnections (pd ps : Probe) (storage_first : bool) (h : Health)
  : (bool * bool * bool) * Health :=
  let '(db_closed, h1) := probe_begin Database (at_check pd) h in
  let '(st_closed, h2) := probe_begin Storage (at_check ps) h1 in
  let finish closed (p : Probe) (h : Health) :=
    if closed : bool then probe_end (outcome p) (at_record p) h else (false, h) in
  let '(dbHealthy, storageHealthy, h4) :=
    if storage_first then
      let '(s, h3) := finish st_closed ps h2 in
      let '(d, h4) := finish db_closed pd h3 in (d, s, h4)
    else
      let '(d, h3) := finish db_closed pd h2 in
      let '(s, h4) := finish st_closed ps h3 in (d, s, h4) in
  ((dbHealthy, storageHealthy, dbHealthy && storageHealthy), h4).

(** A sequence of probes, one after the other. *)
Fixpoint run_probes (ps : list (Dependency * Probe)) (h : Health)
  : list bool * Health :=
  match ps with
  | [] => ([], h)
  | (d, p) :: rest =>
      let '(r, h1) := probe d p h in
      let '(rs, h2) := run_probes rest h1 in
      (r :: rs, h2)
  end.





Definition fails (p : Probe) : Prop := outcome p <> ProbeOk.

(** The breaker once the third failure in a row has been recorded at
    time [t]. *)
Definition tripped (t : Z) : CircuitBreaker :=
  {| failures := 3; lastFailure := Some t; isOpen := true;
     threshold := 3; resetTime := 30000 |}.

End healthCheck.

(** ** services/perplexityService.js: analyzeResumeWithPerplexity *)

Module perplexity.

Definition MAX_RETRIES : nat := 2.

(** What one [fetch] and the reading of its body come to. *)
Inductive FetchOutcome : Type :=
| FetchAborted                      (* the 60 s timer aborted the request *)
| FetchRejects (message : string)   (* transport failure *)
| HttpNotOk (status : nat) (errorText : string)
| BodyNotJson                       (* [response.json()] rejects *)
| JsonBody (data : jsval).

Inductive Event : Type :=
| Fetch (attempt : nat)
| Sleep (ms : Z).

Definition abortError : exn :=
  JsError "AbortError" "The user aborted a request." None.
Definition typeError (message : string) : exn := JsError "TypeError" message None.
Definition syntaxError (message : string) : exn := JsError "SyntaxError" message None.
Definition noContent : exn := newError "No content received from Perplexity API".
Definition invalidStructure : exn :=
  newError "Invalid response structure from Perplexity API".

(** A text is the sequence of the bytes of its UTF-8 encoding.  The
    characters that [trim()] removes, which are those that [\s] matches,
    take one, two or three bytes: TAB to CR and the space; U+00A0; U+1680,
    U+2000 to U+200A, U+2028, U+2029, U+202F, U+205F, U+3000 and
    U+FEFF. *)
Definition is_space (c : ascii) : bool :=
  let n := nat_of_ascii c in ((9 <=? n) && (n <=? 13) || (n =? 32))%nat.

Definition is_space2 (c d : ascii) : bool :=
  ((nat_of_ascii c =? 194) && (nat_of_ascii d =? 160))%nat.

Definition is_space3 (c d e : ascii) : bool :=
  let a := nat_of_ascii c in
  let b := nat_of_ascii d in
  let n := nat_of_ascii e in
  ((a =? 225) && (b =? 154) && (n =? 128)
   || (a =? 226) && (b =? 128)
      && ((128 <=? n) && (n <=? 138) || (n =? 168) || (n =? 169) || (n =? 175))
   || (a =? 226) && (b =? 129) && (n =? 159)
   || (a =? 227) && (b =? 128) && (n =? 128)
   || (a =? 239) && (b =? 187) && (n =? 191))%nat.

(** What follows the white-space character that [s] starts with, if it
    starts with one. *)
Definition skip_space (s : string) : option string :=
  match s with
  | String c rest =>
      if is_space c then Some rest
      else match rest with
           | String d rest2 =>
               if is_space2 c d then Some rest2
               else match rest2 with
                    | String e rest3 =>
                        if is_space3 c d e then Some rest3 else None
                    | EmptyString => None
                    end
           | EmptyString => None
           end
  | EmptyString => None
  end.

(** The text is white space from end to end. *)
Fixpoint all_space (s : string) : bool :=
  match s with
  | EmptyString => true
  | String c rest =>
      if is_space c then all_space rest
      else match rest with
           | String d rest2 =>
               if is_space2 c d then all_space rest2
               else match rest2 with
                    | String e rest3 => is_space3 c d e && all_space rest3
                    | EmptyString => false
                    end
           | EmptyString => false
           end
  end.

Fixpoint trimStart (s : string) : string :=
  match s with
  | EmptyString => EmptyString
  | String c rest =>
      if is_space c then trimStart rest
      else match rest with
           | String d rest2 =>
               if is_space2 c d then trimStart rest2
               else match rest2 with
                    | String e rest3 =>
                        if is_space3 c d e then trimStart rest3 else s
                    | EmptyString => s
                    end
           | EmptyString => s
           end
  end.

Fixpoint trimEnd (s : string) : string :=
  match s with
  | EmptyString => EmptyString
  | String c rest => if all_space s then EmptyString else String c (trimEnd rest)
  end.

Definition trim (s : string) : string := trimEnd (trimStart s).

Fixpoint drop (n : nat) (s : string) : string :=
  match n, s with
  | O, _ => s
  | Datatypes.S n', String _ rest => drop n' rest
  | Datatypes.S _, EmptyString => EmptyString
  end.

Definition fence : string := "```".
Definition fence_json : string := "```json".

(** The second alternative of the pattern: the leftmost position from
    which the text is a fence followed by white space only is where the
    match, and the result, end. *)
Fixpoint strip_closing_fence (s : string) : string :=
  if String.prefix fence s && all_space (drop 3 s) then EmptyString
  else match s with
       | EmptyString => EmptyString
       | String c rest => String c (strip_closing_fence rest)
       end.

(** [s.replace(/^```json\s*|```\s*$/g, '')]: the first alternative can
    match at the start only, and the search for the second goes on behind
    it. *)
Definition strip_fences (s : string) : string :=
  if String.prefix fence_json s
  then strip_closing_fence (trimStart (drop 7 s))
  else strip_closing_fence s.

Definition cleanContent (content : string) : string := strip_fences (trim content).

(** [o.k], which throws on [null] and [undefined]. *)
Definition member (o : jsval) (k : string) : Result jsval :=
  match o with
  | VUndefined | VNull => Err (typeError "Cannot read properties of null or undefined")
  | _ => Ok (prop o k)
  end.

(** [o?.k] *)
Definition opt_member (o : jsval) (k : string) : jsval :=
  match o with
  | VUndefined | VNull => VUndefined
  | _ => prop o k
  end.

(** [o?.[0]] *)
Definition opt_first (o : jsval) : jsval :=
  match o with
  | VArr (x :: _) => x
  | VStr (String c _) => VStr (String c EmptyString)
  | VObj _ => prop o "0"
  | _ => VUndefined
  end.

(** [data.choices?.[0]?.message?.content] *)
Definition extract_content (data : jsval) : Result jsval :=
  match member data "choices" with
  | Err e => Err e
  | Ok choices =>
      Ok (opt_member (opt_member (opt_first choices) "message") "content")
  end.

Section Analyze.
(** [JSON.parse]: the parsed value, or [None] where it throws. *)
Variable JSON_parse : string -> option jsval.

(** The shape check on the parsed value. *)
Definition validate (analysisResult : jsval) : Result jsval :=
  match member analysisResult "overall_score" with
  | Err e => Err e
  | Ok overall_score =>
      if negb (truthy overall_score)
         || negb (truthy (prop analysisResult "categories"))
      then Err invalidStructure
      else Ok analysisResult
  end.

(** The body of the [try] for one attempt, from the fate of its
    [fetch]. *)
Definition attempt_body (o : FetchOutcome) : Result jsval :=
  match o with
  | FetchAborted => Err abortError
  | FetchRejects message => Err (typeError message)
  | HttpNotOk status errorText =>
      Err (newError ("Perplexity API error: " +:+ show_nat status
                     +:+ " - " +:+ errorText))
  | BodyNotJson => Err (syntaxError "Unexpected token")
  | JsonBody data =>
      match extract_content data with
      | Err e => Err e
      | Ok content =>
          if negb (truthy content) then Err noContent
          else
            match content with
            | VStr text =>
                match JSON_parse (cleanContent text) with
                | None => Err (syntaxError "Unexpected token")
                | Some analysisResult => validate analysisResult
                end
            | _ => Err (typeError "content.trim is not a function")
            end
      end
  end.

(** The [for] loop; [net attempt] is the fate of the [fetch] of that
    attempt. *)
Fixpoint analyze_loop (net : nat -> FetchOutcome) (remaining attempt : nat)
  : M (list Event) jsval :=
  match remaining with
  | O => ret VUndefined
  | Datatypes.S remaining' =>
      fun log =>
        let log := (log ++ [Fetch attempt])%list in
        match attempt_body (net attempt) with
        | Ok analysisResult => (Ok analysisResult, log)
        | Err error =>
            if (attempt =? MAX_RETRIES)%nat
               || String.eqb (exn_name error) "AbortError"
            then (Err error, log)
            else analyze_loop net remaining' (Datatypes.S attempt)
                   (log ++ [Sleep (1000 * Z.of_nat attempt)])%list
        end
  end.

(** The prompt is built from the arguments and sent as it is; nothing
    below depends on it. *)
Definition analyzeResumeWithPerplexity (net : nat -> FetchOutcome)
  : Result jsval * list Event :=
  analyze_loop net MAX_RETRIES 1%nat [].
End Analyze.

(** A completion whose message content is [text]. *)
Definition completion (text : string) : jsval :=
  VObj [("choices", VArr [VObj [("message", VObj [("content", VStr text)])]])].

(** The double-quote character. *)
Definition dq : string := String (ascii_of_nat 34) EmptyString.

(** A response that passes the shape check, and its JSON text. *)
Definition scored_feedback : jsval :=
  VObj [("overall_score", VNum 72); ("categories", VObj [])].
Definition scored_text : string :=
  "{" +:+ dq +:+ "overall_score" +:+ dq +:+ ":72," +:+
  dq +:+ "categories" +:+ dq +:+ ":{}}".

(** A well-formed response whose overall score is 0, and its JSON text. *)
Definition zero_feedback : jsval :=
  VObj [("overall_score", VNum 0); ("categories", VObj [])].
Definition zero_text : string :=
  "{" +:+ dq +:+ "overall_score" +:+ dq +:+ ":0," +:+
  dq +:+ "categories" +:+ dq +:+ ":{}}".

(** A [JSON.parse] that knows the texts of a table. *)
Definition parse_table (table : list (string * jsval)) (text : string)
  : option jsval := assoc text table.

Definition sample_parse : string -> option jsval :=
  parse_table [ ("{}", VObj []); (scored_text, scored_feedback);
                (zero_text, zero_feedback) ].

End perplexity.

(** ** The hosted backend, as the client sees it *)

(** A row of the [resumes] table. *)
Record ResumeRow : Type := {
  row_id : string;
  user_id : string;
  company_name : string;
  job_title : string;
  job_description : string;
  resume_path : string;
  image_path : option string;
  feedback : jsval;
  overall_score : jsval;
  ats_score : jsval
}.

(** The table, keyed by id, and the stored blobs as (bucket, path) pairs. *)
Record Remote : Type := {
  rows : gmap string ResumeRow;
  blobs : gset (string * string)
}.

Definition set_rows (f : gmap string ResumeRow -> gmap string ResumeRow)
    (r : Remote) : Remote :=
  {| rows := f (rows r); blobs := blobs r |}.
Definition set_blobs (f : gset (string * string) -> gset (string * string))
    (r : Remote) : Remote :=
  {| rows := rows r; blobs := f (blobs r) |}.

(** The fate of one request wrapped in [promiseWithTimeout].  A request that
    is answered with an error of the transport's making, rejected, or
    overtaken by its timer is taken not to have been carried out. *)
Inductive NetOutcome : Type :=
| Delivered
| BackendError (message : string) (code : option string)
| Rejected (message : string)
| TimedOut.

(** What the network does to each request, by operation and attempt. *)
Record Net : Type := {
  net_upload : string * string -> nat -> NetOutcome;
  net_remove : string * string -> nat -> NetOutcome;
  net_insert : nat -> NetOutcome;
  net_select : NetOutcome;
  net_update : nat -> NetOutcome;
  net_delete_row : NetOutcome;
  net_probe_storage : healthCheck.Probe;
  net_jitter : nat -> Z
}.


(** What the services leave behind them, in order. *)
Inductive Event : Type :=
| EvUpload (bucket path : string) (attempt : nat)
| EvRemove (bucket path : string) (attempt : nat)
| EvInsert (id : string) (attempt : nat)
| EvSelect (id : string)
| EvUpdate (id : string) (feedback : jsval) (attempt : nat)
| EvDeleteRow (id : string)
| EvSleep (ms : Z)
| EvWarn (message : string)
| EvAnalysis (e : perplexity.Event)
| EvCleanup
| EvStorageSet (key id : string)
| EvNavigate (url : string).

(** ** The upload page's own state *)

(** [transactionState] and the local [currentState] of [handleAnalyze]. *)
Record TransactionState : Type := {
  resumeId : option string;
  pdfPath : option string;
  imagePath : option string;
  dbRecordCreated : bool;
  filesUploaded : list (string * string)   (* (path, bucket) *)
}.

Definition empty_transaction : TransactionState :=
  {| resumeId := None; pdfPath := None; imagePath := None;
     dbRecordCreated := false; filesUploaded := [] |}.

Definition set_pdfPath (p : option string) (st : TransactionState) : TransactionState :=
  {| resumeId := resumeId st; pdfPath := p; imagePath := imagePath st;
     dbRecordCreated := dbRecordCreated st; filesUploaded := filesUploaded st |}.
Definition set_imagePath (p : option string) (st : TransactionState) : TransactionState :=
  {| resumeId := resumeId st; pdfPath := pdfPath st; imagePath := p;
     dbRecordCreated := dbRecordCreated st; filesUploaded := filesUploaded st |}.
Definition set_dbRecordCreated (b : bool) (st : TransactionState) : TransactionState :=
  {| resumeId := resumeId st; pdfPath := pdfPath st; imagePath := imagePath st;
     dbRecordCreated := b; filesUploaded := filesUploaded st |}.
(** [state.filesUploaded.push({ path, bucket })] *)
Definition push_file (path bucket : string) (st : TransactionState) : TransactionState :=
  {| resumeId := resumeId st; pdfPath := pdfPath st; imagePath := imagePath st;
     dbRecordCreated := dbRecordCreated st;
     filesUploaded := filesUploaded st ++ [(path, bucket)] |}.

(** The [useState] cells the pipeline writes. *)
Record UI : Type := {
  isProcessing : bool;
  statusText : jsval;
  error : string;
  progress : jsval;
  currentStep : jsval;
  transactionState : TransactionState
}.

Definition initial_ui : UI :=
  {| isProcessing := false; statusText := VStr EmptyString; error := EmptyString;
     progress := VNum 0; currentStep := VNum 0;
     transactionState := empty_transaction |}.

(** Everything a run of the page can read or change. *)
Record World : Type := {
  remote : Remote;
  health : healthCheck.Health;
  ui : UI;
  mounted : bool;                       (* [mountedRef.current] *)
  controller : option bool;             (* [uploadControllerRef.current]: its [signal.aborted] *)
  tracker_step : Z;                     (* [currentStep] of the progress tracker *)
  currentState : TransactionState;      (* the local of the running [handleAnalyze] *)
  local_imagePath : option string;      (* its local [imagePath] *)
  trace : list Event
}.

Definition with_remote (f : Remote -> Remote) (w : World) : World :=
  {| remote := f (remote w); health := health w; ui := ui w; mounted := mounted w;
     controller := controller w; tracker_step := tracker_step w;
     currentState := currentState w; local_imagePath := local_imagePath w;
     trace := trace w |}.
Definition with_health (f : healthCheck.Health -> healthCheck.Health) (w : World) : World :=
  {| remote := remote w; health := f (health w); ui := ui w; mounted := mounted w;
     controller := controller w; tracker_step := tracker_step w;
     currentState := currentState w; local_imagePath := local_imagePath w;
     trace := trace w |}.
Definition with_ui (f : UI -> UI) (w : World) : World :=
  {| remote := remote w; health := health w; ui := f (ui w); mounted := mounted w;
     controller := controller w; tracker_step := tracker_step w;
     currentState := currentState w; local_imagePath := local_imagePath w;
     trace := trace w |}.
Definition with_controller (c : option bool) (w : World) : World :=
  {| remote := remote w; health := health w; ui := ui w; mounted := mounted w;
     controller := c; tracker_step := tracker_step w;
     currentState := currentState w; local_imagePath := local_imagePath w;
     trace := trace w |}.
Definition with_tracker_step (c : Z) (w : World) : World :=
  {| remote := remote w; health := health w; ui := ui w; mounted := mounted w;
     controller := controller w; tracker_step := c;
     currentState := currentState w; local_imagePath := local_imagePath w;
     trace := trace w |}.
Definition with_currentState (f : TransactionState -> TransactionState) (w : World) : World :=
  {| remote := remote w; health := health w; ui := ui w; mounted := mounted w;
     controller := controller w; tracker_step := tracker_step w;
     currentState := f (currentState w); local_imagePath := local_imagePath w;
     trace := trace w |}.
Definition with_local_imagePath (p : option string) (w : World) : World :=
  {| remote := remote w; health := health w; ui := ui w; mounted := mounted w;
     controller := controller w; tracker_step := tracker_step w;
     currentState := currentState w; local_imagePath := p;
     trace := trace w |}.
Definition emit (e : Event) (w : World) : World :=
  {| remote := remote w; health := health w; ui := ui w; mounted := mounted w;
     controller := controller w; tracker_step := tracker_step w;
     currentState := currentState w; local_imagePath := local_imagePath w;
     trace := trace w ++ [e] |}.

Definition set_isProcessing (b : bool) (u : UI) : UI :=
  {| isProcessing := b; statusText := statusText u; error := error u;
     progress := progress u; currentStep := currentStep u;
     transactionState := transactionState u |}.
Definition set_statusText (v : jsval) (u : UI) : UI :=
  {| isProcessing := isProcessing u; statusText := v; error := error u;
     progress := progress u; currentStep := currentStep u;
     transactionState := transactionState u |}.
Definition set_error (s : string) (u : UI) : UI :=
  {| isProcessing := isProcessing u; statusText := statusText u; error := s;
     progress := progress u; currentStep := currentStep u;
     transactionState := transactionState u |}.
Definition set_progress (v : jsval) (u : UI) : UI :=
  {| isProcessing := isProcessing u; statusText := statusText u; error := error u;
     progress := v; currentStep := currentStep u;
     transactionState := transactionState u |}.
Definition set_currentStep (v : jsval) (u : UI) : UI :=
  {| isProcessing := isProcessing u; statusText := statusText u; error := error u;
     progress := progress u; currentStep := v;
     transactionState := transactionState u |}.
Definition set_transactionState (t : TransactionState) (u : UI) : UI :=
  {| isProcessing := isProcessing u; statusText := statusText u; error := error u;
     progress := progress u; currentStep := currentStep u;
     transactionState := t |}.

(** ** lib/supabase.js: storageService and resumeService *)

(** A [File]: the three properties the code reads. *)
Record File : Type := {
  file_name : string;
  file_size : Z;
  file_type : string
}.

(** The [{ data, error }] a backend call resolves to. *)
Inductive Answer (A : Type) : Type :=
| Data (a : A)
| ErrorAnswer (message : string) (code : option string).
Arguments Data {A} a.
Arguments ErrorAnswer {A} message code.

Definition show_Z (z : Z) : string := NilZero.string_of_int (Z.to_int z).

(** What [storageService.uploadFile] reports to [onProgress] and [onRetry]. *)
Inductive UploadNotice : Type :=
| NoticeUploading (attempt : nat)
| NoticeComplete (attempt : nat)
| NoticeRetry (attempt maxRetries : nat) (error : string).

Record UploadOptions : Type := {
  bucket : string;
  timeout : Z;
  upsert : bool;
  maxRetries : nat;
  onProgress : option (UploadNotice -> World -> World);
  onRetry : option (UploadNotice -> World -> World);
  skipHealthCheck : bool
}.

Section Plumbing.
Definition sleep (ms : Z) (w : World) : World := emit (EvSleep ms) w.

(** [retryWithBackoff] as the services call it. *)
Definition retrying {A} (net : Net) (fn : nat -> M World A) (maxRetries : nat)
    (baseDelay maxDelay backoffFactor : Z) : M World A :=
  retryWithBackoff sleep (net_jitter net) fn maxRetries
    baseDelay maxDelay backoffFactor.

(** [await promiseWithTimeout(request, ms, message)] *)
Definition request {A} (o : NetOutcome) (timeoutMessage : string)
    (backend : World -> Answer A * World) : M World (Answer A) :=
  fun w =>
    match o with
    | Delivered => let '(a, w') := backend w in (Ok a, w')
    | BackendError message code => (Ok (ErrorAnswer message code), w)
    | Rejected message => (Err (JsError "TypeError" message None), w)
    | TimedOut => (Err (newError timeoutMessage), w)
    end.

Definition notify {N} (callback : option (N -> World -> World)) (n : N)
  : M World unit :=
  match callback with
  | Some f => modify (f n)
  | None => ret tt
  end.

(** *** The backend's side of each request *)

Definition backend_upload (bucket path : string) (upsert : bool) (w : World)
  : Answer string * World :=
  if bool_decide ((bucket, path) ∈ blobs (remote w)) && negb upsert
  then (ErrorAnswer "The resource already exists" (Some "409"), w)
  else (Data path, with_remote (set_blobs (fun b => {[ (bucket, path) ]} ∪ b)) w).

Definition backend_remove (bucket path : string) (w : World)
  : Answer unit * World :=
  (Data tt, with_remote (set_blobs (fun b => b ∖ {[ (bucket, path) ]})) w).

Definition not_found {A} : Answer A :=
  ErrorAnswer "JSON object requested, multiple (or no) rows returned"
    (Some "PGRST116").

Definition backend_insert (row : ResumeRow) (w : World)
  : Answer ResumeRow * World :=
  match rows (remote w) !! row_id row with
  | Some _ =>
      (ErrorAnswer "duplicate key value violates unique constraint"
         (Some "23505"), w)
  | None => (Data row, with_remote (set_rows (insert (row_id row) row)) w)
  end.

Definition backend_select (id : string) (w : World) : Answer ResumeRow * World :=
  match rows (remote w) !! id with
  | Some row => (Data row, w)
  | None => (not_found, w)
  end.

Definition with_feedback (fb : jsval) (row : ResumeRow) : ResumeRow :=
  {| row_id := row_id row; user_id := user_id row;
     company_name := company_name row; job_title := job_title row;
     job_description := job_description row; resume_path := resume_path row;
     image_path := image_path row; feedback := fb;
     overall_score := prop fb "overall_score"; ats_score := prop fb "ats_score" |}.

Definition backend_update (id : string) (fb : jsval) (w : World)
  : Answer ResumeRow * World :=
  match rows (remote w) !! id with
  | Some row =>
      (Data (with_feedback fb row),
       with_remote (set_rows (insert id (with_feedback fb row))) w)
  | None => (not_found, w)
  end.

Definition backend_delete_row (id : string) (w : World) : Answer unit * World :=
  (Data tt, with_remote (set_rows (base.delete id)) w).

(** [promise.catch(err => logger.warn(...))]: the rejection is logged and
    goes no further.  Where the source does not await the promise, the call
    is run to its end on the spot all the same. *)
Definition catch_and_log {A} (m : M World A) (warning : string) : M World unit :=
  fun w =>
    match m w with
    | (Ok _, w') => (Ok tt, w')
    | (Err _, w') => (Ok tt, emit (EvWarn warning) w')
    end.

End Plumbing.

(** *** storageService *)

Module storageService.
Section WithNet.
Variable net : Net.

Definition no_retry_upload_error (err : exn) : bool :=
bool_decide (exn_code err = Some "INVALID_FILE")
|| bool_decide (exn_code err = Some "FILE_TOO_LARGE")
|| bool_decide (exn_code err = Some "FILE_EXISTS")
|| includes (exn_message err) "Permission denied"
|| includes (exn_message err) "Authentication".

(** One attempt of the upload, the callback handed to [retryWithBackoff]. *)
Definition upload_attempt (path : string) (o : UploadOptions) (attempt : nat)
: M World string :=
try_catch
  (let* _ := notify (onProgress o) (NoticeUploading attempt) in
   let* _ := modify (emit (EvUpload (bucket o) path attempt)) in
   let* answer :=
     request (net_upload net (bucket o, path) attempt)
       ("Upload timeout after " +:+ show_Z (timeout o) +:+ "ms")
       (backend_upload (bucket o) path (upsert o)) in
   match answer with
   | ErrorAnswer message _ =>
       if includes message "already exists" && negb (upsert o)
       then throw (createError
              "File already exists. Enable overwrite or use a different name."
              "FILE_EXISTS")
       else throw (createError ("Upload failed: " +:+ message) "UPLOAD_FAILED")
   | Data stored =>
       let* _ := notify (onProgress o) (NoticeComplete attempt) in
       ret stored
   end)
  (fun err =>
     if no_retry_upload_error err then throw err
     else
       let* _ :=
         (if (attempt <? maxRetries o)%nat
          then notify (onRetry o)
                 (NoticeRetry attempt (maxRetries o) (exn_message err))
          else ret tt) in
       throw err).

Definition uploadFile (file : option File) (path : string) (o : UploadOptions)
: M World string :=
match file with
| None => throw (createError "Invalid file provided" "INVALID_FILE")
| Some f =>
    if (file_size f =? 0)%Z
    then throw (createError "Invalid file provided" "INVALID_FILE")
    else if (file_size f >? 50 * 1024 * 1024)%Z
    then throw (createError "File too large. Maximum size is 50MB" "FILE_TOO_LARGE")
    else
      let* _ :=
        (if skipHealthCheck o then ret tt
         else modify (with_health (fun h =>
                (healthCheck.testStorageConnection (net_probe_storage net) h).2))) in
      retrying net (upload_attempt path o) (maxRetries o) 1000 10000 2
end.

Definition delete_attempt (path bucket : string) (timeout : Z) (attempt : nat)
: M World unit :=
try_catch
  (let* _ := modify (emit (EvRemove bucket path attempt)) in
   let* answer :=
     request (net_remove net (bucket, path) attempt)
       ("Delete timeout after " +:+ show_Z timeout +:+ "ms")
       (backend_remove bucket path) in
   match answer with
   | ErrorAnswer message _ =>
       throw (createError ("File deletion failed: " +:+ message) "DELETE_FAILED")
   | Data _ => ret tt
   end)
  (fun err =>
     if negb (isRetryableError err) then throw err
     else throw (createError
            ("Delete attempt " +:+ show_nat attempt +:+ " failed: "
             +:+ exn_message err) "DELETE_RETRY_FAILED")).

(** [storageService.deleteFile(path, { bucket, timeout })] *)
Definition deleteFile (path bucket : string) (timeout : Z) : M World unit :=
retrying net (delete_attempt path bucket timeout) 3 1000 10000 2.

End WithNet.
End storageService.

(** *** resumeService *)

Module resumeService.
Section WithNet.
Variable net : Net.

Definition create_attempt (resumeData : ResumeRow) (attempt : nat)
: M World ResumeRow :=
try_catch
  (let* _ := modify (emit (EvInsert (row_id resumeData) attempt)) in
   let* answer :=
     request (net_insert net attempt) "Database insert timeout"
       (backend_insert resumeData) in
   match answer with
   | ErrorAnswer message _ =>
       throw (createError ("Failed to create resume record: " +:+ message)
                "DB_CREATE_FAILED")
   | Data row => ret row
   end)
  (fun err =>
     if negb (isRetryableError err) then throw err
     else throw (createError
            ("Create attempt " +:+ show_nat attempt +:+ " failed: "
             +:+ exn_message err) "CREATE_RETRY_FAILED")).

Definition create (resumeData : ResumeRow) : M World ResumeRow :=
retrying net (create_attempt resumeData) 2 1000 10000 2.

Definition getById (id : string) : M World ResumeRow :=
if String.eqb id EmptyString
then throw (createError "Resume ID is required" "INVALID_RESUME_ID")
else
  let* _ := modify (emit (EvSelect id)) in
  let* answer :=
    request (net_select net) "Database get timeout" (backend_select id) in
  match answer with
  | ErrorAnswer message code =>
      if bool_decide (code = Some "PGRST116")
      then throw (createError "Resume not found" "RESUME_NOT_FOUND")
      else throw (createError ("Failed to get resume: " +:+ message)
                    "DB_GET_FAILED")
  | Data row => ret row
  end.

Definition update_attempt (id : string) (fb : jsval) (attempt : nat)
: M World ResumeRow :=
try_catch
  (let* _ := modify (emit (EvUpdate id fb attempt)) in
   let* answer :=
     request (net_update net attempt) "Database update timeout"
       (backend_update id fb) in
   match answer with
   | ErrorAnswer message code =>
       if bool_decide (code = Some "PGRST116")
       then throw (createError "Resume not found for update" "RESUME_NOT_FOUND")
       else throw (createError ("Failed to update feedback: " +:+ message)
                     "DB_UPDATE_FAILED")
   | Data row => ret row
   end)
  (fun err =>
     if negb (isRetryableError err) then throw err
     else throw (createError
            ("Update attempt " +:+ show_nat attempt +:+ " failed: "
             +:+ exn_message err) "UPDATE_RETRY_FAILED")).

Definition updateFeedback (id : string) (fb : jsval) : M World ResumeRow :=
if String.eqb id EmptyString || negb (truthy fb)
then throw (createError "Resume ID and feedback are required" "INVALID_UPDATE_DATA")
else retrying net (update_attempt id fb) 2 1000 10000 2.

(** [resumeService.delete(id)] *)
Definition delete (id : string) : M World unit :=
if String.eqb id EmptyString
then throw (createError "Resume ID is required" "INVALID_RESUME_ID")
else
  let* resume := getById id in
  let* _ := modify (emit (EvDeleteRow id)) in
  let* answer :=
    request (net_delete_row net) "Database delete timeout"
      (backend_delete_row id) in
  match answer with
  | ErrorAnswer message _ =>
      throw (createError ("Failed to delete resume: " +:+ message)
               "DB_DELETE_FAILED")
  | Data _ =>
      let* _ :=
        (if negb (String.eqb (resume_path resume) EmptyString)
         then catch_and_log
                (storageService.deleteFile net (resume_path resume) "resumes" 15000)
                "Failed to delete resume file:"
         else ret tt) in
      match image_path resume with
      | Some image =>
          if negb (String.eqb image EmptyString)
          then catch_and_log
                 (storageService.deleteFile net image "resume-images" 15000)
                 "Failed to delete image file:"
          else ret tt
      | None => ret tt
      end
  end.
End WithNet.
End resumeService.

(** The two best-effort deletions that end [resumeService.delete]. *)
Definition blob_cleanup (net : Net) (resume : ResumeRow) : M World unit :=
  let* _ :=
    (if negb (String.eqb (resume_path resume) EmptyString)
     then catch_and_log
            (storageService.deleteFile net (resume_path resume) "resumes" 15000)
            "Failed to delete resume file:"
     else ret tt) in
  match image_path resume with
  | Some image =>
      if negb (String.eqb image EmptyString)
      then catch_and_log
             (storageService.deleteFile net image "resume-images" 15000)
             "Failed to delete image file:"
      else ret tt
  | None => ret tt
  end.

(** ** utils.js: generateFilePath *)

Definition is_alnum_dot_dash (c : ascii) : bool :=
  let n := nat_of_ascii c in
  ((48 <=? n) && (n <=? 57) || (65 <=? n) && (n <=? 90)
   || (97 <=? n) && (n <=? 122) || (n =? 46) || (n =? 45))%nat.

Definition underscore : ascii := ascii_of_nat 95.

(** [.replace(/[^a-zA-Z0-9.-]/g, '_')] *)
Fixpoint replace_unsafe (s : string) : string :=
  match s with
  | EmptyString => EmptyString
  | String c rest =>
      String (if is_alnum_dot_dash c then c else underscore) (replace_unsafe rest)
  end.

(** [.replace(/_{2,}/g, '_')] *)
Fixpoint squeeze_underscores (s : string) : string :=
  match s with
  | EmptyString => EmptyString
  | String c rest =>
      match rest with
      | String c' _ =>
          if Ascii.eqb c underscore && Ascii.eqb c' underscore
          then squeeze_underscores rest
          else String c (squeeze_underscores rest)
      | EmptyString => String c EmptyString
      end
  end.

Fixpoint strip_leading_underscores (s : string) : string :=
  match s with
  | EmptyString => EmptyString
  | String c rest =>
      if Ascii.eqb c underscore then strip_leading_underscores rest else s
  end.

Fixpoint all_underscores (s : string) : bool :=
  match s with
  | EmptyString => true
  | String c rest => Ascii.eqb c underscore && all_underscores rest
  end.

Fixpoint strip_trailing_underscores (s : string) : string :=
  match s with
  | EmptyString => EmptyString
  | String c rest =>
      if all_underscores s then EmptyString
      else String c (strip_trailing_underscores rest)
  end.

(** [generateFilePath(userId, filename, type)]; [timestamp] and
    [randomSuffix] are what [Date.now()] and [Math.random()] gave. *)
Definition generateFilePath (timestamp : Z) (randomSuffix : string)
    (userId filename type : string) : Result string :=
  if String.eqb userId EmptyString || String.eqb filename EmptyString
  then Err (newError "UserId and filename are required for file path generation")
  else
    let cleanFilename :=
      toLowerCase
        (strip_trailing_underscores
           (strip_leading_underscores
              (squeeze_underscores (replace_unsafe filename)))) in
    Ok (userId +:+ "/" +:+ type +:+ "/" +:+ show_Z timestamp +:+ "_"
        +:+ randomSuffix +:+ "_" +:+ cleanFilename).

(** ** pages/Upload.js *)

Module Upload.

(** The awaited operations of [handleAnalyze]. *)
Inductive Step : Type :=
| AtPreflight | AtExtract | AtUploadPdf | AtConvert | AtUploadImage
| AtCreate | AtAnalyze | AtUpdate.

#[global] Instance Step_eq_dec : EqDecision Step.
Proof. solve_decision. Defined.

(** What the world outside the page decides during one submission. *)
Record Env : Type := {
  env_net : Net;
  env_JSON_parse : string -> option jsval;
  env_percent : Z -> Z -> jsval;
  env_uuid : string;                             (* [generateUUID()] *)
  env_pdf_stamp : Z * string;                    (* [Date.now()], random suffix *)
  env_image_stamp : Z * string;
  env_probe_database : healthCheck.Probe;        (* the pre-flight probes *)
  env_probe_storage : healthCheck.Probe;
  env_storage_first : bool;
  env_extract : Result string;                   (* [extractTextFromPDF(file)] *)
  env_convert : Result (option File);            (* [convertPdfToImage(file)]: its [file] *)
  env_analysis : nat -> perplexity.FetchOutcome;
  env_cancel : option Step;                      (* the await during which the user clicks Cancel *)
  env_confirm : bool;                            (* the answer to [window.confirm] *)
  env_next : string                              (* the encoded [window.location.pathname] *)
}.

Record AnalyzeArgs : Type := {
  user : option string;                          (* [user?.id] *)
  companyName : string;
  jobTitle : string;
  jobDescription : string;
  file : File;
  resumeMode : string
}.

Definition totalSteps : Z := 7.

(** ** State cells *)

Definition setIsProcessing (b : bool) : M World unit := modify (with_ui (set_isProcessing b)).
Definition setError (s : string) : M World unit := modify (with_ui (set_error s)).
Definition setProgress (v : jsval) : M World unit := modify (with_ui (set_progress v)).
Definition setStatusText (v : jsval) : M World unit := modify (with_ui (set_statusText v)).
Definition setCurrentStep (v : jsval) : M World unit := modify (with_ui (set_currentStep v)).
Definition setTransactionState (t : TransactionState) : M World unit :=
  modify (with_ui (set_transactionState t)).

(** The callback given to [createProgressTracker]. *)
Definition page_onProgress (progressData : jsval) (w : World) : World :=
  if negb (mounted w) then w
  else with_ui (fun u =>
         set_statusText (prop progressData "message")
           (set_progress (prop progressData "progress")
              (set_currentStep (prop progressData "step") u))) w.

(** A call on [progressTracker], whose counter lives in the world. *)
Definition track (m : M (Z * World) jsval) : M World unit :=
  fun w =>
    let '(_, (step, w')) := m (tracker_step w, w) in
    (Ok tt, with_tracker_step step w').

Section Page.
Variable env : Env.
Let net := env_net env.

Definition tracker_update (step : Z) (message : string) : M World unit :=
  track (update (env_percent env) totalSteps (Some page_onProgress) step message []).
Definition tracker_increment (message : string) : M World unit :=
  track (increment (env_percent env) totalSteps (Some page_onProgress) message []).
Definition tracker_complete (message : string) : M World unit :=
  track (complete (env_percent env) totalSteps (Some page_onProgress) (Some message)).

(** [cleanupFailedUpload(state)] *)
Definition cleanupFailedUpload (state : TransactionState) : M World unit :=
  let* _ := modify (emit EvCleanup) in
  let* _ :=
    match resumeId state with
    | Some id =>
        if dbRecordCreated state && negb (String.eqb id EmptyString)
        then catch_and_log (resumeService.delete net id)
               "Failed to cleanup database record:"
        else ret tt
    | None => ret tt
    end in
  fold_right
    (fun '(path, bucket) rest =>
       let* _ :=
         catch_and_log (storageService.deleteFile net path bucket 15000)
           ("Failed to cleanup file " +:+ path +:+ ":") in
       rest)
    (ret tt) (filesUploaded state).

(** [handleCancel()]; [isProcessing] and [transactionState] are the
    state cells as last rendered. *)
Definition handleCancel : M World unit :=
  let* processing := gets (fun w => isProcessing (ui w)) in
  if processing then
    if negb (env_confirm env) then ret tt
    else
      let* _ :=
        modify (fun w =>
          match controller w with
          | Some _ => with_controller (Some true) w
          | None => w
          end) in
      let* state := gets (fun w => transactionState (ui w)) in
      let* _ := cleanupFailedUpload state in
      let* _ := setIsProcessing false in
      let* _ := setProgress (VNum 0) in
      let* _ := setStatusText (VStr EmptyString) in
      let* _ := setCurrentStep (VNum 0) in
      let* _ := setError EmptyString in
      setTransactionState empty_transaction
  else ret tt.

(** The user clicks Cancel while [s] is awaited, if at all: the handler
    runs to its end before the awaited operation takes effect and before
    [handleAnalyze] resumes. *)
Definition user_may_cancel (s : Step) : M World unit :=
  if bool_decide (env_cancel env = Some s) then handleCancel else ret tt.

(** [if (uploadControllerRef.current?.signal.aborted) throw ...] *)
Definition checkpoint : M World unit :=
  let* c := gets controller in
  match c with
  | Some true => throw (newError "Upload cancelled")
  | _ => ret tt
  end.

Definition lift_result {A} (r : Result A) : M World A :=
  match r with Ok a => ret a | Err e => throw e end.

Definition pdf_onProgress (n : UploadNotice) (w : World) : World :=
  if negb (mounted w) then w
  else match n with
       | NoticeUploading _ =>
           with_ui (set_statusText (VStr "Uploading PDF... 0%")) w
       | _ => w
       end.

Definition pdf_onRetry (n : UploadNotice) (w : World) : World :=
  match n with
  | NoticeRetry attempt _ _ =>
      if mounted w
      then with_ui (set_statusText
             (VStr ("Upload attempt " +:+ show_nat attempt
                    +:+ " failed, retrying..."))) w
      else w
  | _ => w
  end.

Definition unavailable_tip : jsval :=
  VObj [ ("tip", VStr "AI analysis temporarily unavailable");
         ("explanation",
          VStr "The analysis service is currently unavailable. Please try refreshing the page later.") ].

Definition unavailable_category : jsval :=
  VObj [ ("score", VNum 0); ("tips", VArr [unavailable_tip]) ].

(** The object literal of the [catch (aiError)] block. *)
Definition placeholder_feedback : jsval :=
  VObj [ ("overall_score", VNum 0);
         ("ats_score", VNum 0);
         ("categories",
          VObj [ ("formatting", unavailable_category);
                 ("content", unavailable_category);
                 ("keywords", unavailable_category);
                 ("experience", unavailable_category);
                 ("skills", unavailable_category) ]);
         ("suggestions",
          VArr [ VObj [ ("category", VStr "system");
                        ("tip", VStr "AI analysis temporarily unavailable");
                        ("explanation",
                         VStr "Your resume has been uploaded successfully. The AI analysis service is currently unavailable, but you can try refreshing the page later to get your analysis.") ] ]) ].

(** [await analyzeResumeWithPerplexity(...)] *)
Definition analyze : M World jsval :=
  fun w =>
    let '(r, events) :=
      perplexity.analyzeResumeWithPerplexity (env_JSON_parse env)
        (env_analysis env) in
    (r, fold_left (fun w e => emit (EvAnalysis e) w) events w).

(** The copy shown for an error that ends the transaction. *)
Definition error_copy (err : exn) : string :=
  let code := exn_code err in
  let message := exn_message err in
  if bool_decide (code = Some "AUTH_REQUIRED") || includes message "Authentication"
  then "Authentication issue detected. Please refresh the page and sign in again."
  else if bool_decide (code = Some "CONNECTIVITY_FAILED")
          || bool_decide (code = Some "CONNECTION_FAILED")
  then "Connection issues detected. Please check your internet connection and try again."
  else if bool_decide (code = Some "UPLOAD_TIMEOUT") || includes message "timeout"
  then "Upload timed out. Please check your internet connection and try again."
  else if bool_decide (code = Some "FILE_TOO_LARGE")
  then "File size too large. Please use a file smaller than 50MB."
  else if bool_decide (code = Some "PDF_TEXT_EXTRACTION_FAILED")
  then "Could not read your PDF. Please ensure it contains selectable text, not just images."
  else if match code with Some c => includes c "DB_" | None => false end
  then "Database error occurred. Please try again or contact support if the issue persists."
  else "Upload failed: " +:+
       (if String.eqb message EmptyString
        then "An unexpected error occurred. Please try again." else message).

Definition pdf_options : UploadOptions :=
  {| bucket := "resumes"; timeout := 180000; upsert := false; maxRetries := 3;
     onProgress := Some pdf_onProgress; onRetry := Some pdf_onRetry;
     skipHealthCheck := true |}.

Definition image_options : UploadOptions :=
  {| bucket := "resume-images"; timeout := 90000; upsert := false;
     maxRetries := 2; onProgress := None; onRetry := None;
     skipHealthCheck := true |}.

(** What follows the saving of the feedback in the [try] block. *)
Definition completion : M World unit :=
  let* _ := tracker_complete "Analysis complete! Redirecting..." in
  let* _ := modify (emit (EvStorageSet "lastSuccessfulUpload" (env_uuid env))) in
  let* is_mounted := gets mounted in
  if is_mounted
  then modify (emit (EvNavigate ("/resume/" +:+ env_uuid env)))
  else ret tt.

Variable args : AnalyzeArgs.
(** [user.id], once the guard has let it through. *)
Variable userId : string.

(** The pre-flight [try]: the outcome is only logged, whether the
    12 s timer or the probes come first. *)
Definition preflight : M World unit :=
  modify (with_health (fun h =>
    (healthCheck.testAllConnections (env_probe_database env)
       (env_probe_storage env) (env_storage_first env) h).2)).

(** The inner [try] around the preview, with its [catch]. *)
Definition generate_preview : M World unit :=
  let* _ := modify (with_local_imagePath None) in
  try_catch
    (let* _ := user_may_cancel AtConvert in
     let* imageFile := lift_result (env_convert env) in
     match imageFile with
     | Some imageFile =>
         let* imagePath :=
           lift_result
             (generateFilePath (env_image_stamp env).1 (env_image_stamp env).2
                userId (file_name imageFile) "image") in
         let* _ := modify (with_local_imagePath (Some imagePath)) in
         let* _ := user_may_cancel AtUploadImage in
         let* _ := storageService.uploadFile net (Some imageFile) imagePath
                     image_options in
         let* _ :=
           modify (with_currentState (fun st =>
             push_file imagePath "resume-images"
               (set_imagePath (Some imagePath) st))) in
         tracker_increment "Image preview created successfully"
     | None => ret tt
     end)
    (fun imageError =>
       let* _ := modify (emit (EvWarn "Image conversion failed (non-critical):")) in
       tracker_increment "PDF uploaded (preview generation failed)").

(** The outer [try] block from its start to the checkpoint that follows
    the creation of the record; it yields the extracted text. *)
Definition steps_to_record : M World string :=
  let* _ := setIsProcessing true in
  let* _ := setError EmptyString in
  let* _ := setProgress (VNum 0) in
  let* _ := setCurrentStep (VNum 0) in
  let* _ := tracker_update 0 "Performing pre-flight checks..." in
  let* _ := user_may_cancel AtPreflight in
  let* _ := preflight in
  let* _ := checkpoint in
  let* _ := tracker_increment "Extracting text from PDF..." in
  let* _ := user_may_cancel AtExtract in
  let* resumeText := lift_result (env_extract env) in
  let* _ :=
    (if (String.length resumeText <? 50)%nat
     then throw (createError
            "Could not extract readable text from PDF. Please ensure your resume contains selectable text, not just images."
            "PDF_TEXT_EXTRACTION_FAILED")
     else ret tt) in
  let* _ := checkpoint in
  let* _ := tracker_increment "Uploading PDF file..." in
  let* pdfPath :=
    lift_result
      (generateFilePath (env_pdf_stamp env).1 (env_pdf_stamp env).2
         userId (file_name (file args)) "pdf") in
  let* _ := user_may_cancel AtUploadPdf in
  let* _ := storageService.uploadFile net (Some (file args)) pdfPath pdf_options in
  let* _ :=
    modify (with_currentState (fun st =>
      push_file pdfPath "resumes" (set_pdfPath (Some pdfPath) st))) in
  let* _ := tracker_increment "PDF uploaded successfully" in
  let* _ := checkpoint in
  let* _ := tracker_increment "Creating image preview..." in
  let* _ := generate_preview in
  let* _ := checkpoint in
  let* _ := tracker_increment "Saving resume information..." in
  let* imagePath := gets local_imagePath in
  let resumeData :=
    {| row_id := env_uuid env; user_id := userId;
       company_name := companyName args; job_title := jobTitle args;
       job_description := jobDescription args;
       resume_path := pdfPath; image_path := imagePath;
       feedback := VNull; overall_score := VNull; ats_score := VNull |} in
  let* _ := user_may_cancel AtCreate in
  let* _ := resumeService.create net resumeData in
  let* _ := modify (with_currentState (set_dbRecordCreated true)) in
  let* _ := tracker_increment "Resume information saved" in
  let* _ := checkpoint in
  ret resumeText.

(** The rest of the outer [try] block: the analysis with its own
    [try]/[catch], the saving of the feedback, the completion. *)
Definition steps_from_analysis (resumeText : string) : M World unit :=
  let* _ := tracker_increment
              "Analyzing resume with AI (this may take up to 90 seconds)..." in
  let* _ := user_may_cancel AtAnalyze in
  let* feedback :=
    try_catch analyze
      (fun aiError =>
         let* _ := modify (emit (EvWarn "AI analysis failed:")) in
         ret placeholder_feedback) in
  let* _ := tracker_increment "Saving analysis results..." in
  let* _ := user_may_cancel AtUpdate in
  let* _ := resumeService.updateFeedback net (env_uuid env) feedback in
  let* _ := tracker_complete "Analysis complete! Redirecting..." in
  let* _ := modify (emit (EvStorageSet "lastSuccessfulUpload" (env_uuid env))) in
  let* is_mounted := gets mounted in
  if is_mounted
  then modify (emit (EvNavigate ("/resume/" +:+ env_uuid env)))
  else ret tt.

(** The outer [catch (err)] block. *)
Definition on_failure (err : exn) : M World unit :=
  match err with
  | JsUndefined => throw (JsError "TypeError" "Cannot read properties of undefined" None)
  | JsError name message code =>
      if String.eqb name "AbortError" || String.eqb message "Upload cancelled"
      then ret tt
      else
        let* state := gets currentState in
        let* _ := cleanupFailedUpload state in
        let* is_mounted := gets mounted in
        if negb is_mounted then ret tt
        else
          let* _ := setProgress (VNum 0) in
          let* _ := setStatusText (VStr EmptyString) in
          let* _ := setCurrentStep (VNum 0) in
          let* _ := setTransactionState empty_transaction in
          let* _ := setError (error_copy err) in
          let* _ :=
            (if bool_decide (code = Some "AUTH_REQUIRED")
                || includes message "Authentication"
             then modify (emit (EvNavigate ("/auth?next=" +:+ env_next env)))
             else ret tt) in
          setIsProcessing false
  end.

(** [try { ... } catch (err) { ... } finally { ... }] *)
Definition run_transaction : M World unit :=
  fun w =>
    let '(r, w') :=
      try_catch
        (let* resumeText := steps_to_record in steps_from_analysis resumeText)
        on_failure w in
    (r, with_controller None w').
End Page.

(** What [handleAnalyze] sets up before its [try]: a fresh
    [AbortController] and the local [currentState]. *)
Definition begin (env : Env) (w : World) : World :=
  with_currentState (fun _ =>
    {| resumeId := Some (env_uuid env); pdfPath := None; imagePath := None;
       dbRecordCreated := false; filesUploaded := [] |})
    (with_controller (Some false) w).

(** [handleAnalyze({ companyName, jobTitle, jobDescription, file, resumeMode })] *)
Definition handleAnalyze (env : Env) (args : AnalyzeArgs) : M World unit :=
  match user args with
  | Some (String c rest as userId) =>
      let* _ := modify (begin env) in
      run_transaction env args userId
  | _ =>
      let* _ := setError "Please sign in to upload your resume." in
      modify (emit (EvNavigate ("/auth?next=" +:+ env_next env)))
  end.

(** A world in which nothing has happened yet. *)
Definition fresh_world : World :=
  {| remote := {| rows := ∅; blobs := ∅ |};
     health := healthCheck.initial_health;
     ui := initial_ui; mounted := true; controller := None;
     tracker_step := 0; currentState := empty_transaction;
     local_imagePath := None; trace := [] |}.



End Upload.

(** ** A submission to run the page on *)

Module Scenario.

Definition healthy_probe : healthCheck.Probe :=
  {| healthCheck.at_check := 0; healthCheck.outcome := healthCheck.ProbeOk;
     healthCheck.at_record := 0 |}.

(** A network on which every request goes through. *)
Definition net_ok : Net :=
  {| net_upload := fun _ _ => Delivered; net_remove := fun _ _ => Delivered;
     net_insert := fun _ => Delivered; net_select := Delivered;
     net_update := fun _ => Delivered; net_delete_row := Delivered;
     net_probe_storage := healthy_probe; net_jitter := fun _ => 0 |}.

Definition stored_pdf : string := "u1/pdf/1700000000000_abc123_jane_doe.pdf".
Definition stored_preview : string :=
  "u1/image/1700000000500_def456_resume-preview-1700000000400.png".

(** The same network, except that the bucket of preview images refuses
    every upload. *)
Definition net_no_preview_upload : Net :=
  {| net_upload := fun target _ =>
       if String.eqb target.1 "resume-images"
       then BackendError "new row violates row-level security policy" None
       else Delivered;
     net_remove := fun _ _ => Delivered;
     net_insert := fun _ => Delivered; net_select := Delivered;
     net_update := fun _ => Delivered; net_delete_row := Delivered;
     net_probe_storage := healthy_probe; net_jitter := fun _ => 0 |}.

(** The same network, except that the bucket of PDF files answers every
    upload with a permission error. *)
Definition net_permission_denied : Net :=
  {| net_upload := fun target _ =>
       if String.eqb target.1 "resumes"
       then BackendError "Permission denied" None
       else Delivered;
     net_remove := fun _ _ => Delivered;
     net_insert := fun _ => Delivered; net_select := Delivered;
     net_update := fun _ => Delivered; net_delete_row := Delivered;
     net_probe_storage := healthy_probe; net_jitter := fun _ => 0 |}.

Definition resume_text : string :=
  "Jane Doe - Backend Engineer - ten years of Go and Postgres experience.".

Definition preview_file : File :=
  {| file_name := "resume-preview-1700000000400.png"; file_size := 2048;
     file_type := "image/png" |}.

(** A submission in which nothing goes wrong, up to the choice of the
    network, of what the preview conversion and the AI endpoint do, and of
    the moment the user clicks Cancel. *)
Definition env_of (net : Net) (convert : Result (option File))
    (analysis : nat -> perplexity.FetchOutcome) (cancel : option Upload.Step)
  : Upload.Env :=
  {| Upload.env_net := net;
     Upload.env_JSON_parse := perplexity.sample_parse;
     Upload.env_percent := percent_exact;
     Upload.env_uuid := "r-1";
     Upload.env_pdf_stamp := (1700000000000, "abc123");
     Upload.env_image_stamp := (1700000000500, "def456");
     Upload.env_probe_database := healthy_probe;
     Upload.env_probe_storage := healthy_probe;
     Upload.env_storage_first := false;
     Upload.env_extract := Ok resume_text;
     Upload.env_convert := convert;
     Upload.env_analysis := analysis;
     Upload.env_cancel := cancel;
     Upload.env_confirm := true;
     Upload.env_next := "%2Fupload" |}.

Definition scored_analysis (attempt : nat) : perplexity.FetchOutcome :=
  perplexity.JsonBody (perplexity.completion perplexity.scored_text).


Definition args : Upload.AnalyzeArgs :=
  {| Upload.user := Some "u1"; Upload.companyName := "Acme";
     Upload.jobTitle := "Backend Engineer";
     Upload.jobDescription := "Design and run the services behind the public API.";
     Upload.file := {| file_name := "Jane Doe.pdf"; file_size := 48213;
                       file_type := "application/pdf" |};
     Upload.resumeMode := "soft" |}.

(** The row that the submission creates. *)
Definition created_row : ResumeRow :=
  {| row_id := "r-1"; user_id := "u1"; company_name := "Acme";
     job_title := "Backend Engineer";
     job_description := "Design and run the services behind the public API.";
     resume_path := stored_pdf; image_path := Some stored_preview;
     feedback := VNull; overall_score := VNull; ats_score := VNull |}.

Definition is_remove (e : Event) : bool :=
  match e with EvRemove _ _ _ => true | _ => false end.
Definition is_cleanup (e : Event) : bool :=
  match e with EvCleanup => true | _ => false end.

End Scenario.

(** ** Relations between the worlds before and after a computation *)

(** Every world a computation can end in is related to the one it started
    in. *)
Definition steps_in {S A} (R : S -> S -> Prop) (m : M S A) : Prop :=
  forall s, R s (m s).2.

(** The later trace is the earlier one followed by events that satisfy
    [P]. *)
Definition extends_by (P : Event -> Prop) (w w' : World) : Prop :=
  exists events, trace w' = (trace w ++ events)%list /\ Forall P events.

(** The events that the clean-up of the blob at [(bucket, path)] may leave. *)
Definition blob_cleanup_of (bucket path : string) (e : Event) : Prop :=
  match e with
  | EvRemove b p _ => b = bucket /\ p = path
  | EvSleep _ | EvWarn _ => True
  | _ => False
  end.

(** The events that the clean-up of the two blobs of a row may leave. *)
Definition blob_cleanup_event (row : ResumeRow) (e : Event) : Prop :=
  blob_cleanup_of "resumes" (resume_path row) e
  \/ (exists image, image_path row = Some image
                    /\ blob_cleanup_of "resume-images" image e).

(** Only blobs change, and the trace grows by clean-up events of the blob
    at [(bucket, path)]. *)
Definition blob_step (bucket path : string) (w w' : World) : Prop :=
  rows (remote w') = rows (remote w)
  /\ extends_by (blob_cleanup_of bucket path) w w'.

(** The computation ends normally from every world. *)
Definition never_fails {S} (m : M S unit) : Prop :=
  forall s, (m s).1 = Ok tt.

(** The later trace is the earlier one with events added at its end. *)
Definition grows (w w' : World) : Prop := extends_by (fun _ => True) w w'.

(* ===================================================================== *)
(** * Part I, continued: the rest of the modelled code                    *)
(* ===================================================================== *)

(** ** utils.js: what retryWithBackoff does between its calls *)

(** What a run of [retryWithBackoff] consists of, in order. *)
Inductive RetryEvent : Type :=
| Called (attempt : nat)
| Slept (ms : Z).

(** An operation, and a [sleep], that note themselves in a journal. *)
Definition journaled {S A} (fn : nat -> M S A)
  : nat -> M (S * list RetryEvent) A :=
  fun attempt '(s, journal) =>
    let '(r, s') := fn attempt s in (r, (s', (journal ++ [Called attempt])%list)).

Definition journaled_sleep {S} (sleep : Z -> S -> S)
  : Z -> S * list RetryEvent -> S * list RetryEvent :=
  fun ms '(s, journal) => (sleep ms s, (journal ++ [Slept ms])%list).

(** [Math.min(baseDelay * Math.pow(backoffFactor, attempt - 1) + jitter,
    maxDelay)] *)
Definition backoff_delay (jitter : nat -> Z) (baseDelay maxDelay backoffFactor : Z)
    (attempt : nat) : Z :=
  Z.min (baseDelay * backoffFactor ^ (Z.of_nat attempt - 1) + jitter attempt)
    maxDelay.

(** [more + 1] calls numbered from [first], with a wait after each call but
    the last. *)
Fixpoint schedule (delay : nat -> Z) (first more : nat) : list RetryEvent :=
  match more with
  | O => [Called first]
  | Datatypes.S more' =>
      Called first :: Slept (delay first)
        :: schedule delay (Datatypes.S first) more'
  end.

(** The operation never rejects with [undefined].  (The [catch] block of
    [retryWithBackoff] reads [error.message] before it waits.) *)
Definition never_undefined {S A} (fn : nat -> M S A) : Prop :=
  forall attempt s, (fn attempt s).1 <> Err JsUndefined.

Definition is_slept_within (maxDelay : Z) (e : RetryEvent) : Prop :=
  match e with
  | Slept ms => ms <= maxDelay
  | Called _ => True
  end.

(** ** utils.js: the file name inside generateFilePath *)

(** The [cleanFilename] of [generateFilePath]. *)
Definition cleanFilename (filename : string) : string :=
  toLowerCase
    (strip_trailing_underscores
       (strip_leading_underscores
          (squeeze_underscores (replace_unsafe filename)))).

(** A lower-case letter, a digit, a dot, a dash or an underscore. *)
Definition is_clean_char (c : ascii) : bool :=
  let n := nat_of_ascii c in
  ((48 <=? n) && (n <=? 57) || (97 <=? n) && (n <=? 122)
   || (n =? 46) || (n =? 45) || (n =? 95))%nat.

(** Characters that [replace_unsafe] can leave. *)
Definition is_replaced_char (c : ascii) : bool :=
  is_alnum_dot_dash c || Ascii.eqb c underscore.

Fixpoint all_chars (p : ascii -> bool) (s : string) : bool :=
  match s with
  | EmptyString => true
  | String c rest => p c && all_chars p rest
  end.

Definition starts_with_underscore (s : string) : bool :=
  match s with
  | String c _ => Ascii.eqb c underscore
  | EmptyString => false
  end.

Fixpoint ends_with_underscore (s : string) : bool :=
  match s with
  | EmptyString => false
  | String c EmptyString => Ascii.eqb c underscore
  | String _ rest => ends_with_underscore rest
  end.

Fixpoint has_double_underscore (s : string) : bool :=
  match s with
  | EmptyString => false
  | String c rest =>
      (Ascii.eqb c underscore && starts_with_underscore rest)
      || has_double_underscore rest
  end.

(** ** lib/supabase.js: the breaker under every operation of healthCheck *)

Module healthOps.
Import healthCheck.

(** What one probe does to the service, in its two halves: the circuit
    check with the backend call that follows when it passes, and, once
    the call has settled, the recording of its outcome.  Probes that
    overlap interleave their halves. *)
Inductive HealthStep : Type :=
| Begin (d : Dependency) (now : Z)
| Settle (o : ProbeOutcome) (now : Z)
| ManualReset.

(** [healthCheck.resetCircuitBreaker()] on the service object. *)
Definition reset (h : Health) : Health :=
  {| _circuitBreaker := resetCircuitBreaker (_circuitBreaker h);
     calls := calls h |}.

Definition health_step (st : HealthStep) (h : Health) : Health :=
  match st with
  | Begin d now => (probe_begin d now h).2
  | Settle o now => (probe_end o now h).2
  | ManualReset => reset h
  end.

Definition health_steps (steps : list HealthStep) (h : Health) : Health :=
  fold_left (fun h st => health_step st h) steps h.

(** A probe is its two halves, the second one only when the circuit
    check let it through. *)
Definition probe_steps (d : Dependency) (p : Probe) (h : Health)
  : list HealthStep :=
  Begin d (at_check p)
  :: (if (probe_begin d (at_check p) h).1
      then [Settle (outcome p) (at_record p)] else []).

(** [testAllConnections] is the two circuit checks followed by the two
    recordings in the order in which the backend calls settle. *)
Definition testAll_steps (pd ps : Probe) (storage_first : bool) (h : Health)
  : list HealthStep :=
  let b1 := probe_begin Database (at_check pd) h in
  let b2 := probe_begin Storage (at_check ps) b1.2 in
  let settle_d := if b1.1 then [Settle (outcome pd) (at_record pd)] else [] in
  let settle_s := if b2.1 then [Settle (outcome ps) (at_record ps)] else [] in
  [Begin Database (at_check pd); Begin Storage (at_check ps)]
  ++ (if storage_first then settle_s ++ settle_d else settle_d ++ settle_s).

(** The flag says open exactly when the counter has reached the
    threshold. *)
Definition consistent (cb : CircuitBreaker) : Prop :=
  0 < threshold cb /\ 0 <= failures cb
  /\ (isOpen cb = true <-> threshold cb <= failures cb).

Definition same_settings (cb cb' : CircuitBreaker) : Prop :=
  threshold cb' = threshold cb /\ resetTime cb' = resetTime cb.

(** The breaker of [h'] is consistent and has the settings of [h]. *)
Definition kept (h h' : Health) : Prop :=
  consistent (_circuitBreaker h')
  /\ same_settings (_circuitBreaker h) (_circuitBreaker h').

Definition is_ok (p : Probe) : bool :=
  match outcome p with ProbeOk => true | _ => false end.

(** No three probes in a row fail, [run] failures having just been
    seen. *)
Fixpoint short_failure_runs (run : nat) (ps : list (Dependency * Probe)) : bool :=
  match ps with
  | [] => true
  | (_, p) :: rest =>
      if is_ok p then short_failure_runs 0 rest
      else (Datatypes.S run <? 3)%nat && short_failure_runs (Datatypes.S run) rest
  end.
End healthOps.

(** ** perplexityService.js: texts with and without code fences *)

Definition backtick : ascii := ascii_of_nat 96.

Definition no_backtick (s : string) : bool :=
  all_chars (fun c => negb (Ascii.eqb c backtick)) s.

(** ** lib/supabase.js: callbacks that leave the backend alone *)

(** An [onProgress] or [onRetry] callback that does not touch what the
    backend stores. *)
Definition keeps_remote {N} (callback : option (N -> World -> World)) : Prop :=
  forall f, callback = Some f -> forall n w, remote (f n w) = remote w.

(** ** pages/Upload.js: what a clean-up can do to the backend *)

(** Nothing is added to either store. *)
Definition shrinks (w w' : World) : Prop :=
  blobs (remote w') ⊆ blobs (remote w) /\ rows (remote w') ⊆ rows (remote w).

(** Nothing is added, and the blob at [(bucket, path)] is not there. *)
Definition gone (bucket path : string) (w w' : World) : Prop :=
  ((bucket, path) ∉ blobs (remote w')) /\ shrinks w w'.

(** The two stages of [cleanupFailedUpload(state)], by name: the removal
    of the record, then the removal of the recorded files. *)
Definition cleanup_record (env : Upload.Env) (state : TransactionState)
  : M World unit :=
  match resumeId state with
  | Some id =>
      if dbRecordCreated state && negb (String.eqb id EmptyString)
      then catch_and_log (resumeService.delete (Upload.env_net env) id)
             "Failed to cleanup database record:"
      else ret tt
  | None => ret tt
  end.

Definition cleanup_files (env : Upload.Env) (files : list (string * string))
  : M World unit :=
  fold_right
    (fun '(path, bucket) rest =>
       let* _ :=
         catch_and_log
           (storageService.deleteFile (Upload.env_net env) path bucket 15000)
           ("Failed to cleanup file " +:+ path +:+ ":") in
       rest)
    (ret tt) files.

(** ** The checks made before a submission *)

Module UploadForm.

(** [{ isValid, errors }] *)
Record Validation : Type := {
  isValid : bool;
  errors : list string
}.

Definition MB : Z := 1024 * 1024.

(** utils/pdfProcessor.js [validatePDF(file)] *)
Definition validatePDF (file : File) : Validation :=
  let errors :=
    ((if negb (String.eqb (file_type file) "application/pdf")
      then ["File must be a PDF"] else [])
     ++ (if (file_size file >? 20 * MB)%Z
         then ["File size must be less than " +:+ show_Z (20 * MB / 1024 / 1024)
               +:+ "MB"]
         else [])
     ++ (if (file_size file =? 0)%Z then ["File cannot be empty"] else []))%list in
  {| isValid := (length errors =? 0)%nat; errors := errors |}.

(** [s.endsWith(suffix)] *)
Fixpoint endsWith (s suffix : string) : bool :=
  String.eqb s suffix
  || match s with
     | EmptyString => false
     | String _ rest => endsWith rest suffix
     end.

(** utils.js [isValidPDF(file)], for a file that is there. *)
Definition isValidPDF (file : File) : bool :=
  String.eqb (file_type file) "application/pdf"
  || endsWith (toLowerCase (file_name file)) ".pdf".

(** utils.js [isFileSizeValid(file, maxSizeMB)], for a file that is
    there. *)
Definition isFileSizeValid (file : File) (maxSizeMB : Z) : bool :=
  let maxBytes := maxSizeMB * 1024 * 1024 in
  (file_size file <=? maxBytes)%Z && (file_size file >? 0)%Z.

(** The [fileValidation] state cell. *)
Record FileValidation : Type := {
  fv_isValid : bool;
  fv_errors : list string;
  fv_size : Z;
  fv_type : string
}.

Definition initial_fileValidation : FileValidation :=
  {| fv_isValid := false; fv_errors := []; fv_size := 0; fv_type := EmptyString |}.

(** [errors.join(', ')] *)
Definition join (sep : string) (items : list string) : string :=
  String.concat sep items.

(** The three state cells that [handleFileSelect] writes. *)
Record Selection : Type := {
  sel_file : option File;
  sel_fileValidation : FileValidation;
  sel_error : string
}.

(** pages/Upload.js [handleFileSelect(selectedFile)] *)
Definition handleFileSelect (selectedFile : option File) : Selection :=
  match selectedFile with
  | Some f =>
      let pdfValidation := validatePDF f in
      let sizeValid := isFileSizeValid f 50 in
      let typeValid := isValidPDF f in
      let validation :=
        {| fv_isValid := isValid pdfValidation && sizeValid && typeValid;
           fv_errors :=
             (errors pdfValidation
              ++ (if sizeValid then [] else ["File size exceeds 50MB limit"])
              ++ (if typeValid then [] else ["File must be a PDF document"]))%list;
           fv_size := file_size f;
           fv_type := file_type f |} in
      {| sel_file := selectedFile;
         sel_fileValidation := validation;
         sel_error :=
           if negb (fv_isValid validation)
           then "File validation failed: " +:+ join ", " (fv_errors validation)
           else EmptyString |}
  | None =>
      {| sel_file := None;
         sel_fileValidation := initial_fileValidation;
         sel_error := EmptyString |}
  end.

(** A rule of [validateFormData], with the keys that the rules of the page
    give; an absent key is [None].  The other keys ([email], [pattern],
    [type], [min], [max], [validator]) are [undefined] in those rules, and
    the branches they guard do not run. *)
Record Rule : Type := {
  required : bool;
  minLength : option nat;
  maxLength : option nat
}.

(** The UTF-16 code units that a byte of a UTF-8 text contributes: a
    continuation byte none, the lead byte of a four-byte sequence two (a
    surrogate pair), every other byte one. *)
Definition utf16_units (c : ascii) : nat :=
  let n := nat_of_ascii c in
  if (n <? 128)%nat then 1%nat
  else if (n <? 192)%nat then 0%nat
  else if (n <? 240)%nat then 1%nat
  else 2%nat.

(** [value.length]: the number of UTF-16 code units of the text. *)
Fixpoint js_length (s : string) : nat :=
  match s with
  | EmptyString => 0%nat
  | String c rest => (utf16_units c + js_length rest)%nat
  end.

(** [rule.minLength && value.length < rule.minLength]: a bound of 0 is
    falsy. *)
Definition below (bound : option nat) (value : string) : bool :=
  match bound with
  | Some (Datatypes.S _ as n) => (js_length value <? n)%nat
  | _ => false
  end.

Definition above (bound : option nat) (value : string) : bool :=
  match bound with
  | Some (Datatypes.S _ as n) => (n <? js_length value)%nat
  | _ => false
  end.

Definition bound_text (bound : option nat) : string :=
  match bound with Some n => show_nat n | None => "undefined" end.

(** The body of the [forEach] for one field whose value is a string: the
    error it records, if any. *)
Definition check_field (field : string) (value : string) (rule : Rule)
  : option string :=
  if required rule
     && (String.eqb value EmptyString
         || String.eqb (perplexity.trim value) EmptyString)
  then Some (field +:+ " is required")
  else if String.eqb value EmptyString && negb (required rule) then None
  else if below (minLength rule) value
  then Some (field +:+ " must be at least " +:+ bound_text (minLength rule)
             +:+ " characters")
  else if above (maxLength rule) value
  then Some (field +:+ " must be no more than " +:+ bound_text (maxLength rule)
             +:+ " characters")
  else None.

(** [{ isValid, errors }] of [validateFormData]: [errors] is an object,
    its keys in insertion order. *)
Record FormValidation : Type := {
  form_isValid : bool;
  form_errors : list (string * string)
}.

(** utils.js [validateFormData(data, rules)], on string fields; a field
    that [data] lacks is [undefined], which every check treats as the
    empty string is treated, except that it has no type. *)
Definition validateFormData (data : list (string * string))
    (rules : list (string * Rule)) : FormValidation :=
  let errors :=
    flat_map
      (fun '(field, rule) =>
         match List.find (fun kv => String.eqb kv.1 field) data with
         | Some (_, value) =>
             match check_field field value rule with
             | Some message => [(field, message)]
             | None => []
             end
         | None =>
             if required rule then [(field, field +:+ " is required")] else []
         end)
      rules in
  {| form_isValid := (length errors =? 0)%nat; form_errors := errors |}.

(** The [formData] state cell. *)
Record FormData : Type := {
  fd_companyName : string;
  fd_jobTitle : string;
  fd_jobDescription : string
}.

Definition rules : list (string * Rule) :=
  [ ("companyName",
     {| required := true; minLength := Some 2%nat; maxLength := Some 100%nat |});
    ("jobTitle",
     {| required := true; minLength := Some 3%nat; maxLength := Some 200%nat |});
    ("jobDescription",
     {| required := true; minLength := Some 50%nat; maxLength := Some 5000%nat |}) ].

(** pages/Upload.js [validateForm()] *)
Definition validateForm (formData : FormData) : FormValidation :=
  validateFormData
    [ ("companyName", fd_companyName formData);
      ("jobTitle", fd_jobTitle formData);
      ("jobDescription", fd_jobDescription formData) ]
    rules.

(** What [handleSubmit] reads. *)
Record Page : Type := {
  page_user : option string;                 (* [user?.id] *)
  page_file : option File;
  page_fileValidation : FileValidation;
  page_formData : FormData;
  page_resumeMode : string
}.

(** What [handleSubmit] does: it sets the error, with or without a
    navigation to the sign-in page, or it calls [handleAnalyze]. *)
Inductive Submission : Type :=
| Refused (error : string) (to_sign_in : bool)
| Analyze (args : Upload.AnalyzeArgs).

(** pages/Upload.js [handleSubmit(e)] *)
Definition handleSubmit (p : Page) : Submission :=
  match page_user p with
  | None | Some EmptyString =>
      Refused "Please sign in to upload your resume." true
  | Some _ =>
      match page_file p with
      | None => Refused "Please select a PDF file to upload." false
      | Some file =>
          if negb (fv_isValid (page_fileValidation p))
          then Refused ("File validation failed: "
                        +:+ join ", " (fv_errors (page_fileValidation p))) false
          else
            let validation := validateForm (page_formData p) in
            if negb (form_isValid validation)
            then
              (* [Object.values(validation.errors)[0]]; there is one,
                 [isValid] being false *)
              match form_errors validation with
              | (_, firstError) :: _ => Refused firstError false
              | [] => Refused "undefined" false
              end
            else
              Analyze
                {| Upload.user := page_user p;
                   Upload.companyName :=
                     perplexity.trim (fd_companyName (page_formData p));
                   Upload.jobTitle :=
                     perplexity.trim (fd_jobTitle (page_formData p));
                   Upload.jobDescription :=
                     perplexity.trim (fd_jobDescription (page_formData p));
                   Upload.file := file;
                   Upload.resumeMode := page_resumeMode p |}
      end
  end.

End UploadForm.

(** ** pages/Upload.js: the transaction of handleAnalyze *)

(** Started where [P] holds, [m] ends normally where [Q] holds or with an
    error where [E] holds. *)
Definition hoare {S A} (P : S -> Prop) (m : M S A) (Q : A -> S -> Prop)
    (E : S -> Prop) : Prop :=
  forall s, P s ->
    match m s with
    | (Ok a, s') => Q a s'
    | (Err _, s') => E s'
    end.

(** Neither the backend nor the local [currentState] is changed. *)
Definition core_eq (w w' : World) : Prop :=
  remote w' = remote w /\ currentState w' = currentState w.

(** A property of the backend and of [currentState] alone. *)
Definition core_pred (P : World -> Prop) : Prop :=
  forall w w', core_eq w w' -> P w -> P w'.

(** The [try] block of [handleAnalyze]. *)
Definition try_block (env : Upload.Env) (args : Upload.AnalyzeArgs)
    (userId : string) : M World unit :=
  let* resumeText := Upload.steps_to_record env args userId in
  Upload.steps_from_analysis env resumeText.

(** The error is one that the [catch] block of [handleAnalyze] takes for a
    cancellation by the user. *)
Definition taken_for_cancellation (name message : string) : bool :=
  String.eqb name "AbortError" || String.eqb message "Upload cancelled".

(** Every blob and every row that is in the backend of [w] and was not in
    that of [w0] is recorded in [currentState]: a blob in [filesUploaded],
    the row, which is that of [resumeId], by [dbRecordCreated]. *)
Record accounted (uuid : string) (w0 w : World) : Prop := {
  acc_blobs :
    forall blob, blob ∈ blobs (remote w) ->
      blob ∈ blobs (remote w0)
      \/ (blob.2, blob.1) ∈ filesUploaded (currentState w);
  acc_rows : base.delete uuid (rows (remote w)) ⊆ rows (remote w0);
  acc_flag :
    dbRecordCreated (currentState w) = false ->
    rows (remote w) ⊆ rows (remote w0);
  acc_id : resumeId (currentState w) = Some uuid
}.

(** The same, before the blob at [target] is recorded. *)
Record accounted_but (target : string * string) (uuid : string)
    (w0 w : World) : Prop := {
  accb_blobs :
    forall blob, blob ∈ blobs (remote w) ->
      blob ∈ blobs (remote w0)
      \/ (blob.2, blob.1) ∈ filesUploaded (currentState w)
      \/ blob = target;
  accb_rows : base.delete uuid (rows (remote w)) ⊆ rows (remote w0);
  accb_flag :
    dbRecordCreated (currentState w) = false ->
    rows (remote w) ⊆ rows (remote w0);
  accb_id : resumeId (currentState w) = Some uuid
}.

(** The same, before the row is recorded. *)
Record accounted_but_row (uuid : string) (w0 w : World) : Prop := {
  accr_blobs :
    forall blob, blob ∈ blobs (remote w) ->
      blob ∈ blobs (remote w0)
      \/ (blob.2, blob.1) ∈ filesUploaded (currentState w);
  accr_rows : base.delete uuid (rows (remote w)) ⊆ rows (remote w0);
  accr_id : resumeId (currentState w) = Some uuid
}.

(** The account, once the row is recorded. *)
Definition accounted_with_row (uuid : string) (w0 w : World) : Prop :=
  accounted uuid w0 w /\ dbRecordCreated (currentState w) = true.

(** A callback that changes neither the backend nor [currentState]. *)
Definition keeps_core {N} (callback : option (N -> World -> World)) : Prop :=
  forall f, callback = Some f -> forall n w, core_eq w (f n w).

(** A network on which every request goes through, except that the
    database refuses every insert. *)
Definition net_no_insert : Net :=
  {| net_upload := fun _ _ => Delivered; net_remove := fun _ _ => Delivered;
     net_insert := fun _ => BackendError "permission denied for table resumes"
                              (Some "42501");
     net_select := Delivered;
     net_update := fun _ => Delivered; net_delete_row := Delivered;
     net_probe_storage := Scenario.healthy_probe; net_jitter := fun _ => 0 |}.

(** No blob is removed. *)
Definition blobs_kept (w w' : World) : Prop :=
  blobs (remote w) ⊆ blobs (remote w').

(** The record that a submission inserts, [resumeData] in [handleAnalyze]. *)
Definition resumeData (env : Upload.Env) (args : Upload.AnalyzeArgs)
    (userId pdfPath : string) (imagePath : option string) : ResumeRow :=
  {| row_id := Upload.env_uuid env; user_id := userId;
     company_name := Upload.companyName args; job_title := Upload.jobTitle args;
     job_description := Upload.jobDescription args;
     resume_path := pdfPath; image_path := imagePath;
     feedback := VNull; overall_score := VNull; ats_score := VNull |}.

(** What [feedback] holds once the inner [try] of the analysis is over. *)
Definition analysis_feedback (env : Upload.Env) : jsval :=
  match (perplexity.analyzeResumeWithPerplexity (Upload.env_JSON_parse env)
           (Upload.env_analysis env)).1 with
  | Ok analysisResult => analysisResult
  | Err _ => Upload.placeholder_feedback
  end.

(** The PDF is stored. *)
Definition pdf_stored (env : Upload.Env) (args : Upload.AnalyzeArgs)
    (userId pdfPath : string) (w : World) : Prop :=
  generateFilePath (Upload.env_pdf_stamp env).1 (Upload.env_pdf_stamp env).2
    userId (file_name (Upload.file args)) "pdf" = Ok pdfPath
  /\ ("resumes", pdfPath) ∈ blobs (remote w).

(** The PDF is stored and the record is in the table, as inserted. *)
Definition record_stored (env : Upload.Env) (args : Upload.AnalyzeArgs)
    (userId pdfPath : string) (w : World) : Prop :=
  pdf_stored env args userId pdfPath w
  /\ exists imagePath,
       rows (remote w) !! Upload.env_uuid env
       = Some (resumeData env args userId pdfPath imagePath).

(** The PDF is stored and the record is in the table, with its feedback. *)
Definition feedback_stored (env : Upload.Env) (args : Upload.AnalyzeArgs)
    (userId pdfPath : string) (w : World) : Prop :=
  pdf_stored env args userId pdfPath w
  /\ exists imagePath,
       rows (remote w) !! Upload.env_uuid env
       = Some (with_feedback (analysis_feedback env)
                 (resumeData env args userId pdfPath imagePath)).

(** What the page does last when a submission completes: the navigation to
    the record, or, the view gone, the note in local storage. *)
Definition last_step (env : Upload.Env) (w : World) : Event :=
  if mounted w
  then EvNavigate ("/resume/" +:+ Upload.env_uuid env)
  else EvStorageSet "lastSuccessfulUpload" (Upload.env_uuid env).

(* ===================================================================== *)
(** * Part II: theorems                                                   *)
(* ===================================================================== *)

(** ** retryWithBackoff *)

Section RetryFacts.
Context {S A : Type}.
Variable sleep : Z -> S -> S.
Variable jitter : nat -> Z.
Variable fn : nat -> M S A.
Variables baseDelay maxDelay backoffFactor : Z.

Lemma retry_loop_rejecting_calls maxRetries remaining attempt lastError s calls :
  always_rejects fn ->
  (attempt + remaining = Datatypes.S maxRetries)%nat ->
  (1 <= remaining)%nat ->
  (retry_loop (counted_sleep sleep) jitter (counted fn) maxRetries
     baseDelay maxDelay backoffFactor remaining attempt lastError
     (s, calls)).2.2 = (calls + remaining)%nat.
Proof.
  intros Hrej. revert attempt lastError s calls.
  induction remaining as [|r IH]; intros attempt lastError s calls Hsum Hpos.
  - lia.
  - cbn [retry_loop counted]. destruct (Hrej attempt s) as [e He].
    destruct (fn attempt s) as [res s'] eqn:Hfn. cbn in He. subst res.
    destruct (Nat.eqb_spec attempt maxRetries) as [Heq|Hne].
    + cbn. lia.
    + destruct r as [|r']; [lia|].
      cbn [counted_sleep]. rewrite IH by lia. lia.
Qed.
End RetryFacts.

(** Whatever the operation throws, a rejecting operation is invoked once per
    iteration of the loop: [maxRetries] times in all. *)
Lemma retryWithBackoff_rejecting_calls {S A} (sleep : Z -> S -> S) jitter
    (fn : nat -> M S A) baseDelay maxDelay backoffFactor maxRetries s :
  always_rejects fn ->
  (1 <= maxRetries)%nat ->
  (retryWithBackoff (counted_sleep sleep) jitter (counted fn) maxRetries
     baseDelay maxDelay backoffFactor (s, 0%nat)).2.2 = maxRetries.
Proof.
  intros Hrej Hpos. unfold retryWithBackoff.
  rewrite retry_loop_rejecting_calls by (auto; lia). lia.
Qed.

(** C2 (retry ceiling and short-circuit).  [retryWithBackoff(op, 3, ...)]
    never looks at the class of the error it catches: an operation that
    always rejects with the terminal error [Permission denied] is invoked
    3 times, as one that rejects with a retryable error is, where the claim
    has it invoked exactly once. *)
Theorem retryWithBackoff_nonretryable_invoked_thrice :
  forall (S : Type) (sleep : Z -> S -> S) (jitter : nat -> Z)
         (baseDelay maxDelay backoffFactor : Z) (s : S),
    isRetryableError permission_denied = false /\
    retryWithBackoff (counted_sleep sleep) jitter
      (counted (fun _ : nat => throw (A := unit) permission_denied)) 3
      baseDelay maxDelay backoffFactor (s, 0%nat)
    = (Err permission_denied,
       (sleep (Z.min (baseDelay * backoffFactor ^ 1 + jitter 2%nat) maxDelay)
          (sleep (Z.min (baseDelay * backoffFactor ^ 0 + jitter 1%nat) maxDelay) s),
        3%nat)).
Proof.
  intros. split; reflexivity.
Qed.

(** The half of C2 that the code does implement: three invocations when the
    operation always rejects with a retryable error, and the last error is
    re-raised. *)
Lemma retryWithBackoff_retryable_invoked_thrice {S A} (sleep : Z -> S -> S)
    jitter (fn : nat -> M S A) baseDelay maxDelay backoffFactor s :
  (forall attempt s', exists e,
      (fn attempt s').1 = Err e /\ isRetryableError e = true) ->
  (retryWithBackoff (counted_sleep sleep) jitter (counted fn) 3
     baseDelay maxDelay backoffFactor (s, 0%nat)).2.2 = 3%nat.
Proof.
  intros H. apply retryWithBackoff_rejecting_calls; [|lia].
  intros a s'. destruct (H a s') as (e & He & _). eauto.
Qed.

(** ** createProgressTracker *)

Section TrackerFacts.
Context {U : Type}.
Variable percent : Z -> Z -> jsval.
Variable totalSteps : Z.
Variable onProgress : option (jsval -> U -> U).

Lemma increment_counter message details c u :
  (increment percent totalSteps onProgress message details (c, u)).2.1 = c + 1.
Proof. reflexivity. Qed.

Lemma complete_counter message c u :
  (complete percent totalSteps onProgress message (c, u)).2.1 = totalSteps.
Proof. reflexivity. Qed.

Lemma counter_trace_increments_then_complete incs last :
  Forall is_increment incs ->
  forall c u,
    c + Z.of_nat (length incs) <= totalSteps ->
    nondecreasing_from c
      (counter_trace percent totalSteps onProgress
         (incs ++ [OpComplete last]) (c, u)) = true.
Proof.
  induction 1 as [|op incs Hop _ IH]; intros c u Hle.
  - cbn. rewrite andb_true_r. apply Z.leb_le. cbn in Hle. lia.
  - destruct op; try contradiction.
    cbn [app counter_trace tracker_call nondecreasing_from].
    rewrite increment_counter.
    destruct (increment percent totalSteps onProgress message details (c, u))
      as [r [c' u']] eqn:Hinc.
    assert (c' = c + 1) as -> by (now rewrite <- (increment_counter message details c u), Hinc).
    cbn [snd fst]. rewrite IH.
    + rewrite andb_true_r. apply Z.leb_le. lia.
    + rewrite length_cons in Hle. lia.
Qed.
End TrackerFacts.

(** C9 as stated fails.  The upload page creates its tracker with
    [totalSteps = 7] and, on a submission that succeeds, calls [update(0)],
    [increment] nine times and [complete]: the counter climbs to 9 and
    [complete] brings it back to 7. *)
Lemma tracker_counter_decreases_on_complete :
  counter_trace percent_exact 7 (Some record_report)
    [ OpUpdate 0 "Performing pre-flight checks..." [];
      OpIncrement "Extracting text from PDF..." [];
      OpIncrement "Uploading PDF file..." [];
      OpIncrement "PDF uploaded successfully" [];
      OpIncrement "Creating image preview..." [];
      OpIncrement "Image preview created successfully" [];
      OpIncrement "Saving resume information..." [];
      OpIncrement "Resume information saved" [];
      OpIncrement "Analyzing resume with AI (this may take up to 90 seconds)..." [];
      OpIncrement "Saving analysis results..." [];
      OpComplete (Some "Analysis complete! Redirecting...") ]
    (createProgressTracker []) = [0; 1; 2; 3; 4; 5; 6; 7; 8; 9; 7]
  /\ nondecreasing_from 0 [0; 1; 2; 3; 4; 5; 6; 7; 8; 9; 7] = false.
Proof. split; reflexivity. Qed.

(** C9, amended.  [increment(message)] advances the counter by exactly one
    and reports [{step, totalSteps, progress, message}] to the callback;
    [complete(message)] sets the counter to [totalSteps]; and the counter
    never decreases along a run of at most [totalSteps] increments followed by
    [complete]. *)
Theorem progress_tracker_increment_complete {U : Type}
    (percent : Z -> Z -> jsval) (totalSteps : Z)
    (callback : jsval -> U -> U) :
  (forall c u message,
      let progressData :=
        VObj [ ("step", VNum (c + 1)); ("totalSteps", VNum totalSteps);
               ("progress", percent (c + 1) totalSteps);
               ("message", VStr message) ] in
      increment percent totalSteps (Some callback) message [] (c, u)
      = (Ok progressData, (c + 1, callback progressData u)))
  /\ (forall c u message,
         (complete percent totalSteps (Some callback) message (c, u)).2.1
         = totalSteps)
  /\ (forall incs last u,
         Forall is_increment incs ->
         Z.of_nat (length incs) <= totalSteps ->
         nondecreasing_from 0
           (counter_trace percent totalSteps (Some callback)
              (incs ++ [OpComplete last]) (createProgressTracker u)) = true).
Proof.
  split; [|split].
  - reflexivity.
  - reflexivity.
  - intros incs last u Hincs Hlen.
    apply counter_trace_increments_then_complete; [assumption|lia].
Qed.

Lemma progress_tracker_increment_complete_witness :
  nondecreasing_from 0
    (counter_trace percent_exact 7 (Some record_report)
       ([OpIncrement "Extracting text from PDF..." [];
         OpIncrement "Uploading PDF file..." []] ++ [OpComplete None])
       (createProgressTracker [])) = true.
Proof.
  apply (proj2 (proj2 (progress_tracker_increment_complete
                         percent_exact 7 record_report))).
  - repeat constructor.
  - cbn. lia.
Defined.

(** ** healthCheck: the circuit breaker *)

Section BreakerFacts.
Import healthCheck.




Lemma tripped_blocks t log d p :
  at_check p - t <= 30000 ->
  probe d p {| _circuitBreaker := tripped t; calls := log |}
  = (false, {| _circuitBreaker := tripped t; calls := log |}).
Proof.
  intros Hw.
  destruct d; unfold probe, testConnection, testStorageConnection,
    probe_begin, _checkCircuit; cbn;
    (destruct (Z.gtb_spec (at_check p - t) 30000); [lia|reflexivity]).
Qed.

Lemma tripped_blocks_all t log blocked :
  Forall (fun dp : Dependency * Probe => at_check dp.2 - t <= 30000) blocked ->
  run_probes blocked {| _circuitBreaker := tripped t; calls := log |}
  = (map (fun _ => false) blocked,
     {| _circuitBreaker := tripped t; calls := log |}).
Proof.
  induction 1 as [|[d p] blocked Hp _ IH]; [reflexivity|].
  cbn [run_probes map]. rewrite tripped_blocks by exact Hp.
  rewrite IH. reflexivity.
Qed.



End BreakerFacts.




(** C5 as stated fails: the service has one breaker.  A failed storage probe
    changes the breaker that the database probe consults, and three of them
    make a database probe answer [false] without calling a database that
    would have answered. *)
Lemma storage_failures_block_database_probe :
  let failing t :=
    {| healthCheck.at_check := t; healthCheck.outcome := healthCheck.ProbeError;
       healthCheck.at_record := t + 40 |} in
  let healthy :=
    {| healthCheck.at_check := 4000; healthCheck.outcome := healthCheck.ProbeOk;
       healthCheck.at_record := 4040 |} in
  let h1 := (healthCheck.testStorageConnection (failing 1000)
               healthCheck.initial_health).2 in
  let h3 :=
    (healthCheck.run_probes
       [(healthCheck.Storage, failing 1000); (healthCheck.Storage, failing 2000);
        (healthCheck.Storage, failing 3000)] healthCheck.initial_health).2 in
  healthCheck._circuitBreaker h1
    <> healthCheck._circuitBreaker healthCheck.initial_health
  /\ (healthCheck.testConnection healthy healthCheck.initial_health).1 = true
  /\ healthCheck.testConnection healthy h3 = (false, h3)
  /\ healthCheck.calls h3
     = [healthCheck.Storage; healthCheck.Storage; healthCheck.Storage].
Proof.
  cbv zeta. repeat split; try reflexivity. discriminate.
Qed.

(** C5, amended.  [healthCheck] keeps a single circuit breaker, shared by
    the two probes: [testStorageConnection] and [testConnection] answer alike
    and leave that breaker in the same state, whatever state they start from;
    they differ only in the backend call they issue. *)
Theorem health_probes_share_one_breaker :
  forall (p : healthCheck.Probe) (h : healthCheck.Health),
    (healthCheck.testStorageConnection p h).1 = (healthCheck.testConnection p h).1
    /\ healthCheck._circuitBreaker (healthCheck.testStorageConnection p h).2
       = healthCheck._circuitBreaker (healthCheck.testConnection p h).2
    /\ (forall d : healthCheck.Dependency,
           healthCheck.calls (healthCheck.probe d p h).2 = healthCheck.calls h
           \/ healthCheck.calls (healthCheck.probe d p h).2
              = (healthCheck.calls h ++ [d])%list).
Proof.
  intros p h.
  unfold healthCheck.testStorageConnection, healthCheck.testConnection,
    healthCheck.probe_begin.
  destruct (healthCheck._checkCircuit (healthCheck.at_check p)
              (healthCheck._circuitBreaker h)) as [[|] cb] eqn:Hc.
  - repeat split; try (destruct (healthCheck.outcome p); reflexivity).
    intros d. right.
    destruct d; cbn; unfold healthCheck.testStorageConnection,
      healthCheck.testConnection, healthCheck.probe_begin; rewrite Hc;
      destruct (healthCheck.outcome p); reflexivity.
  - repeat split. intros d. left.
    destruct d; cbn; unfold healthCheck.testStorageConnection,
      healthCheck.testConnection, healthCheck.probe_begin; rewrite Hc;
      reflexivity.
Qed.

(** ** analyzeResumeWithPerplexity *)

(** ** The white space of [trim] and of the fence pattern *)

Section WhiteSpace.
Import perplexity.

Lemma append_cons c (s t : string) : String c s +:+ t = String c (s +:+ t).
Proof. reflexivity. Qed.

Lemma append_nil (t : string) : EmptyString +:+ t = t.
Proof. reflexivity. Qed.

(** *** One white-space character at a time *)

Lemma skip_space_shorter s r :
  skip_space s = Some r -> (String.length r < String.length s)%nat.
Proof.
  destruct s as [|c [|d [|e s']]]; cbn [skip_space].
  - discriminate.
  - destruct (is_space c); [|discriminate]. intros [= <-]. cbn. lia.
  - destruct (is_space c); [intros [= <-]; cbn; lia|].
    destruct (is_space2 c d); [|discriminate]. intros [= <-]. cbn. lia.
  - destruct (is_space c); [intros [= <-]; cbn; lia|].
    destruct (is_space2 c d); [intros [= <-]; cbn; lia|].
    destruct (is_space3 c d e); [|discriminate]. intros [= <-]. cbn. lia.
Qed.

Lemma skip_ind (P : string -> Prop) :
  (forall s, skip_space s = None -> P s) ->
  (forall s r, skip_space s = Some r -> P r -> P s) ->
  forall s, P s.
Proof.
  intros Hnone Hsome s.
  remember (String.length s) as n eqn:Hn. revert s Hn.
  induction n as [n IH] using lt_wf_ind. intros s ->.
  destruct (skip_space s) as [r|] eqn:E; [|apply Hnone, E].
  apply (Hsome s r E). apply (IH (String.length r)); [|reflexivity].
  apply skip_space_shorter, E.
Qed.

Lemma all_space_unfold s :
  all_space s
  = match skip_space s with
    | Some r => all_space r
    | None => match s with EmptyString => true | _ => false end
    end.
Proof.
  destruct s as [|c [|d [|e s']]]; cbn [skip_space all_space]; try reflexivity.
  - destruct (is_space c); reflexivity.
  - destruct (is_space c); [reflexivity|]. destruct (is_space2 c d); reflexivity.
  - destruct (is_space c); [reflexivity|].
    destruct (is_space2 c d); [reflexivity|].
    destruct (is_space3 c d e); reflexivity.
Qed.

Lemma trimStart_unfold s :
  trimStart s
  = match skip_space s with
    | Some r => trimStart r
    | None => s
    end.
Proof.
  destruct s as [|c [|d [|e s']]]; cbn [skip_space trimStart]; try reflexivity.
  - destruct (is_space c); reflexivity.
  - destruct (is_space c); [reflexivity|]. destruct (is_space2 c d); reflexivity.
  - destruct (is_space c); [reflexivity|].
    destruct (is_space2 c d); [reflexivity|].
    destruct (is_space3 c d e); reflexivity.
Qed.

Lemma skip_space_app s r t :
  skip_space s = Some r -> skip_space (s +:+ t) = Some (r +:+ t).
Proof.
  destruct s as [|c [|d [|e s']]]; rewrite ?append_cons, ?append_nil;
    cbn [skip_space].
  - discriminate.
  - destruct (is_space c); [|discriminate]. intros [= <-]. reflexivity.
  - destruct (is_space c); [intros [= <-]; reflexivity|].
    destruct (is_space2 c d); [|discriminate]. intros [= <-]. reflexivity.
  - destruct (is_space c); [intros [= <-]; reflexivity|].
    destruct (is_space2 c d); [intros [= <-]; reflexivity|].
    destruct (is_space3 c d e); [|discriminate]. intros [= <-]. reflexivity.
Qed.

(** No byte of a white-space character is an ASCII character other than
    the six of [is_space]. *)
Lemma is_space_low c : is_space c = true -> (nat_of_ascii c <= 32)%nat.
Proof.
  unfold is_space. cbv zeta.
  rewrite orb_true_iff, andb_true_iff, Nat.eqb_eq, !Nat.leb_le. lia.
Qed.

Lemma is_space2_high c d :
  is_space2 c d = true -> (128 <= nat_of_ascii c /\ 128 <= nat_of_ascii d)%nat.
Proof.
  unfold is_space2. rewrite andb_true_iff, !Nat.eqb_eq. lia.
Qed.

Lemma is_space3_high c d e :
  is_space3 c d e = true ->
  (128 <= nat_of_ascii c /\ 128 <= nat_of_ascii d /\ 128 <= nat_of_ascii e)%nat.
Proof.
  unfold is_space3. cbv zeta.
  rewrite !orb_true_iff, !andb_true_iff, !orb_true_iff, !andb_true_iff,
    !Nat.eqb_eq, !Nat.leb_le. lia.
Qed.

Lemma not_backtick_by_code c :
  nat_of_ascii c <> 96%nat -> Ascii.eqb c backtick = false.
Proof.
  intros H. destruct (Ascii.eqb_spec c backtick) as [->|]; [|reflexivity].
  exfalso. apply H. reflexivity.
Qed.

Lemma backtick_code : nat_of_ascii backtick = 96%nat.
Proof. reflexivity. Qed.

Lemma is_space2_backtick_r c : is_space2 c backtick = false.
Proof. unfold is_space2. rewrite backtick_code. apply andb_false_r. Qed.

Lemma is_space3_backtick_m c e : is_space3 c backtick e = false.
Proof.
  destruct (is_space3 c backtick e) eqn:E; [|reflexivity].
  apply is_space3_high in E. rewrite backtick_code in E. lia.
Qed.

Lemma is_space3_backtick_r c d : is_space3 c d backtick = false.
Proof.
  destruct (is_space3 c d backtick) eqn:E; [|reflexivity].
  apply is_space3_high in E. rewrite backtick_code in E. lia.
Qed.

Lemma skip_space_backtick t : skip_space (String backtick t) = None.
Proof. destruct t as [|d [|e r]]; reflexivity. Qed.

(** Before a backtick, a text that does not start with white space still
    does not. *)
Lemma skip_none_before_backtick s t :
  skip_space s = None -> skip_space (s +:+ String backtick t) = None.
Proof.
  destruct s as [|c [|d [|e s']]]; rewrite ?append_cons, ?append_nil.
  - intros _. apply skip_space_backtick.
  - cbn [skip_space]. destruct (is_space c); [discriminate|]. intros _.
    rewrite is_space2_backtick_r.
    destruct t; [reflexivity|]. rewrite is_space3_backtick_m. reflexivity.
  - cbn [skip_space]. destruct (is_space c); [discriminate|].
    destruct (is_space2 c d); [discriminate|]. intros _.
    rewrite is_space3_backtick_r. reflexivity.
  - cbn [skip_space]. destruct (is_space c); [discriminate|].
    destruct (is_space2 c d); [discriminate|].
    destruct (is_space3 c d e); [discriminate|]. reflexivity.
Qed.

Lemma skip_space_no_backtick s r :
  skip_space s = Some r -> no_backtick s = no_backtick r.
Proof.
  unfold no_backtick.
  destruct s as [|c [|d [|e s']]]; cbn [skip_space].
  - discriminate.
  - destruct (is_space c) eqn:Hc; [|discriminate]. intros [= <-].
    apply is_space_low in Hc. cbn [all_chars].
    rewrite not_backtick_by_code by lia. reflexivity.
  - destruct (is_space c) eqn:Hc.
    + intros [= <-]. apply is_space_low in Hc.
      cbn [all_chars]. rewrite (not_backtick_by_code c) by lia. reflexivity.
    + destruct (is_space2 c d) eqn:H2; [|discriminate]. intros [= <-].
      apply is_space2_high in H2 as [? ?]. cbn [all_chars].
      rewrite !not_backtick_by_code by lia. reflexivity.
  - destruct (is_space c) eqn:Hc.
    + intros [= <-]. apply is_space_low in Hc.
      cbn [all_chars]. rewrite (not_backtick_by_code c) by lia. reflexivity.
    + destruct (is_space2 c d) eqn:H2.
      * intros [= <-]. apply is_space2_high in H2 as [? ?].
        cbn [all_chars].
        rewrite (not_backtick_by_code c), (not_backtick_by_code d) by lia.
        reflexivity.
      * destruct (is_space3 c d e) eqn:H3; [|discriminate]. intros [= <-].
        apply is_space3_high in H3 as (? & ? & ?). cbn [all_chars].
        rewrite (not_backtick_by_code c), (not_backtick_by_code d),
          (not_backtick_by_code e) by lia.
        reflexivity.
Qed.

(** White space holds no backtick. *)
Lemma all_space_no_backtick s : all_space s = true -> no_backtick s = true.
Proof.
  induction s as [s Hnone|s r Hsome IH] using skip_ind;
    rewrite all_space_unfold.
  - rewrite Hnone. destruct s; [reflexivity|discriminate].
  - rewrite Hsome, (skip_space_no_backtick s r Hsome). exact IH.
Qed.

Lemma no_backtick_app s t :
  no_backtick (s +:+ t) = no_backtick s && no_backtick t.
Proof.
  unfold no_backtick. induction s as [|c s IH]; [reflexivity|].
  rewrite append_cons. cbn [all_chars]. rewrite IH. apply andb_assoc.
Qed.

Lemma has_backtick_app_r s t :
  no_backtick t = false -> no_backtick (s +:+ t) = false.
Proof. intros H. rewrite no_backtick_app, H. apply andb_false_r. Qed.

Lemma has_backtick_not_space s : no_backtick s = false -> all_space s = false.
Proof.
  intros H. destruct (all_space s) eqn:E; [|reflexivity].
  apply all_space_no_backtick in E. congruence.
Qed.

Lemma trimEnd_app s t :
  no_backtick t = false -> trimEnd (s +:+ t) = s +:+ trimEnd t.
Proof.
  intros Ht. induction s as [|c s IH]; [reflexivity|].
  rewrite append_cons. cbn [trimEnd].
  rewrite (has_backtick_not_space (String c (s +:+ t))), IH; [reflexivity|].
  change (String c (s +:+ t)) with (String c s +:+ t).
  apply has_backtick_app_r, Ht.
Qed.

Lemma trimEnd_all_space ws : all_space ws = true -> trimEnd ws = EmptyString.
Proof.
  intros H. destruct ws; cbn [trimEnd]; [reflexivity|]. rewrite H. reflexivity.
Qed.

Lemma trimEnd_fence ws : all_space ws = true -> trimEnd (fence +:+ ws) = fence.
Proof.
  intros H.
  change (fence +:+ ws) with (String backtick (String backtick (String backtick ws))).
  cbn [trimEnd].
  rewrite !has_backtick_not_space by reflexivity.
  rewrite (trimEnd_all_space ws H). reflexivity.
Qed.

Lemma trimStart_skip ws t :
  all_space ws = true -> trimStart (ws +:+ t) = trimStart t.
Proof.
  induction ws as [s Hnone|s r Hsome IH] using skip_ind;
    rewrite all_space_unfold.
  - rewrite Hnone. destruct s; [reflexivity|discriminate].
  - rewrite Hsome. intros H.
    rewrite (trimStart_unfold (s +:+ t)), (skip_space_app s r t Hsome).
    apply IH, H.
Qed.

Lemma trimStart_backtick s : trimStart (String backtick s) = String backtick s.
Proof. rewrite trimStart_unfold, skip_space_backtick. reflexivity. Qed.

Lemma trimStart_app_fence s t :
  trimStart (s +:+ fence +:+ t) = trimStart s +:+ fence +:+ t.
Proof.
  change (fence +:+ t) with (String backtick (String backtick (String backtick t))).
  induction s as [s Hnone|s r Hsome IH] using skip_ind.
  - rewrite (trimStart_unfold s), Hnone.
    rewrite trimStart_unfold, skip_none_before_backtick by exact Hnone.
    reflexivity.
  - rewrite (trimStart_unfold s), Hsome.
    rewrite trimStart_unfold, (skip_space_app s r _ Hsome). exact IH.
Qed.

Lemma no_backtick_trimStart s :
  no_backtick s = true -> no_backtick (trimStart s) = true.
Proof.
  induction s as [s Hnone|s r Hsome IH] using skip_ind;
    rewrite trimStart_unfold.
  - rewrite Hnone. tauto.
  - rewrite Hsome, (skip_space_no_backtick s r Hsome). exact IH.
Qed.

Lemma trimStart_length s :
  (String.length (trimStart s) <= String.length s)%nat.
Proof.
  induction s as [s Hnone|s r Hsome IH] using skip_ind;
    rewrite trimStart_unfold.
  - rewrite Hnone. reflexivity.
  - rewrite Hsome. apply skip_space_shorter in Hsome. lia.
Qed.

Lemma trimEnd_length s :
  (String.length (trimEnd s) <= String.length s)%nat.
Proof.
  induction s as [|c s IH]; cbn [trimEnd String.length]; [lia|].
  destruct (all_space (String c s)); cbn [String.length]; lia.
Qed.

Lemma trim_length s : (String.length (trim s) <= String.length s)%nat.
Proof.
  unfold trim.
  pose proof (trimEnd_length (trimStart s)).
  pose proof (trimStart_length s). lia.
Qed.

Lemma prefix_fence_no_backtick c s :
  Ascii.eqb c backtick = false -> String.prefix fence (String c s) = false.
Proof.
  intros Hc. unfold fence. cbn [String.prefix].
  destruct (ascii_dec _ c) as [<-|]; [|reflexivity].
  discriminate.
Qed.

(** The closing fence, with what white space follows it, goes; nothing
    else does. *)
Lemma strip_closing_fence_app s ws :
  no_backtick s = true -> all_space ws = true ->
  strip_closing_fence (s +:+ fence +:+ ws) = s.
Proof.
  unfold no_backtick. intros Hs Hws. induction s as [|c s IH].
  - rewrite append_nil.
    change (fence +:+ ws) with (String backtick (String backtick (String backtick ws))).
    cbn [strip_closing_fence].
    replace (String.prefix fence
               (String backtick (String backtick (String backtick ws))))
      with true.
    2:{ unfold fence. cbn. destruct ws; reflexivity. }
    cbn [drop andb]. rewrite Hws. reflexivity.
  - cbn [all_chars] in Hs. apply andb_true_iff in Hs as [Hc Hs].
    apply negb_true_iff in Hc.
    rewrite append_cons. cbn [strip_closing_fence].
    rewrite (prefix_fence_no_backtick c _ Hc). cbn [andb].
    rewrite (IH Hs). reflexivity.
Qed.

Lemma strip_closing_fence_none s :
  no_backtick s = true -> strip_closing_fence s = s.
Proof.
  unfold no_backtick. induction s as [|c s IH]; intros Hs.
  - reflexivity.
  - cbn [all_chars] in Hs. apply andb_true_iff in Hs as [Hc Hs].
    apply negb_true_iff in Hc.
    cbn [strip_closing_fence].
    rewrite (prefix_fence_no_backtick c _ Hc). cbn [andb].
    rewrite (IH Hs). reflexivity.
Qed.

Lemma prefix_fence_json_no_backtick c s :
  Ascii.eqb c backtick = false -> String.prefix fence_json (String c s) = false.
Proof.
  intros Hc. unfold fence_json. cbn [String.prefix].
  destruct (ascii_dec _ c) as [<-|]; [|reflexivity].
  discriminate.
Qed.

Lemma trim_no_backtick s : no_backtick s = true -> no_backtick (trim s) = true.
Proof.
  intros Hs. unfold trim. apply no_backtick_trimStart in Hs.
  revert Hs. generalize (trimStart s). clear s. unfold no_backtick.
  induction s as [|c s IH]; [reflexivity|].
  cbn [all_chars trimEnd]. intros H. apply andb_true_iff in H as [Hc Hs].
  destruct (all_space (String c s)); [reflexivity|].
  cbn [all_chars]. rewrite Hc, (IH Hs). reflexivity.
Qed.

Lemma strip_step c s :
  String.prefix fence (String c s) && all_space (drop 3 (String c s)) = false ->
  strip_closing_fence (String c s) = String c (strip_closing_fence s).
Proof. intros H. cbn [strip_closing_fence]. rewrite H. reflexivity. Qed.

Lemma prefix_fence_second a c s :
  Ascii.eqb c backtick = false -> String.prefix fence (String a (String c s)) = false.
Proof.
  intros Hc. unfold fence. cbn [String.prefix].
  destruct (ascii_dec _ a); [|reflexivity].
  destruct (ascii_dec _ c) as [<-|]; [discriminate|reflexivity].
Qed.

Lemma prefix_fence_third a b c s :
  Ascii.eqb c backtick = false ->
  String.prefix fence (String a (String b (String c s))) = false.
Proof.
  intros Hc. unfold fence. cbn [String.prefix].
  destruct (ascii_dec _ a); [|reflexivity].
  destruct (ascii_dec _ b); [|reflexivity].
  destruct (ascii_dec _ c) as [<-|]; [discriminate|reflexivity].
Qed.

Lemma prefix_json_app rest t :
  String.prefix "json" rest = false -> no_backtick rest = true ->
  String.prefix "json" (rest +:+ fence +:+ t) = false.
Proof.
  intros Hp Hb.
  destruct rest as [|c1 [|c2 [|c3 [|c4 r]]]];
    rewrite ?append_cons, ?append_nil;
    change (fence +:+ t) with (String backtick (String backtick (String backtick t)));
    cbn [String.prefix] in *;
    repeat match goal with
           | |- context [ascii_dec ?a ?b] =>
               destruct (ascii_dec a b); try discriminate; try reflexivity
           end.
  destruct r; discriminate.
Qed.

(** A block opened by a plain fence keeps it. *)
Lemma strip_plain_fence rest :
  no_backtick rest = true ->
  strip_closing_fence (fence +:+ rest +:+ fence) = fence +:+ rest.
Proof.
  intros Hb. destruct rest as [|c r]; [reflexivity|].
  pose proof Hb as Hb'. unfold no_backtick in Hb'. cbn [all_chars] in Hb'.
  apply andb_true_iff in Hb' as [Hc _]. apply negb_true_iff in Hc.
  change (fence +:+ String c r +:+ fence)
    with (String backtick (String backtick (String backtick
            (String c r +:+ fence +:+ EmptyString)))).
  rewrite strip_step.
  2:{ cbn [drop].
      rewrite has_backtick_not_space
        by (apply has_backtick_app_r; reflexivity).
      apply andb_false_r. }
  rewrite strip_step.
  2:{ rewrite append_cons, prefix_fence_third by exact Hc. reflexivity. }
  rewrite strip_step.
  2:{ rewrite append_cons, prefix_fence_second by exact Hc. reflexivity. }
  rewrite strip_closing_fence_app by (assumption || reflexivity).
  reflexivity.
Qed.

(** *** What [cleanContent] makes of the three shapes of a reply *)

Lemma cleanContent_json_fence ws0 ws1 body ws2 :
  all_space ws0 = true -> all_space ws1 = true -> all_space ws2 = true ->
  no_backtick body = true ->
  cleanContent (ws0 +:+ fence_json +:+ ws1 +:+ body +:+ fence +:+ ws2)
  = trimStart body.
Proof.
  intros H0 H1 H2 Hb. unfold cleanContent, trim.
  rewrite trimStart_skip by exact H0.
  change (fence_json +:+ ws1 +:+ body +:+ fence +:+ ws2)
    with (String backtick ("``json" +:+ ws1 +:+ body +:+ fence +:+ ws2)).
  rewrite trimStart_backtick.
  change (String backtick ("``json" +:+ ws1 +:+ body +:+ fence +:+ ws2))
    with (fence_json +:+ ws1 +:+ body +:+ fence +:+ ws2).
  rewrite trimEnd_app by (do 2 apply has_backtick_app_r; reflexivity).
  rewrite trimEnd_app by (apply has_backtick_app_r; reflexivity).
  rewrite trimEnd_app by reflexivity.
  rewrite trimEnd_fence by exact H2.
  unfold strip_fences.
  replace (String.prefix fence_json (fence_json +:+ ws1 +:+ body +:+ fence))
    with true.
  2:{ unfold fence_json.
      rewrite !append_cons, append_nil. cbn [String.prefix].
      repeat match goal with
             | |- context [ascii_dec ?a ?a] =>
                 destruct (ascii_dec a a); [|congruence]
             end.
      destruct (ws1 +:+ body +:+ fence); reflexivity. }
  change (drop 7 (fence_json +:+ ws1 +:+ body +:+ fence))
    with (ws1 +:+ body +:+ fence +:+ EmptyString).
  rewrite trimStart_skip by exact H1.
  rewrite trimStart_app_fence.
  apply strip_closing_fence_app; [|reflexivity].
  apply no_backtick_trimStart, Hb.
Qed.

Lemma cleanContent_no_fence text :
  no_backtick text = true -> cleanContent text = trim text.
Proof.
  intros Ht. unfold cleanContent, strip_fences.
  pose proof (trim_no_backtick text Ht) as Hn.
  destruct (trim text) as [|c s] eqn:E; [reflexivity|].
  pose proof Hn as Hn'. unfold no_backtick in Hn'. cbn [all_chars] in Hn'.
  apply andb_true_iff in Hn' as [Hc _]. apply negb_true_iff in Hc.
  rewrite prefix_fence_json_no_backtick by exact Hc.
  apply strip_closing_fence_none, Hn.
Qed.

Lemma cleanContent_plain_fence rest ws2 :
  no_backtick rest = true -> all_space ws2 = true ->
  String.prefix "json" rest = false ->
  cleanContent (fence +:+ rest +:+ fence +:+ ws2) = fence +:+ rest.
Proof.
  intros Hb H2 Hp. unfold cleanContent, trim.
  change (fence +:+ rest +:+ fence +:+ ws2)
    with (String backtick ("``" +:+ rest +:+ fence +:+ ws2)).
  rewrite trimStart_backtick.
  change (String backtick ("``" +:+ rest +:+ fence +:+ ws2))
    with (fence +:+ rest +:+ fence +:+ ws2).
  rewrite trimEnd_app by (apply has_backtick_app_r; reflexivity).
  rewrite trimEnd_app by reflexivity.
  rewrite trimEnd_fence by exact H2.
  unfold strip_fences.
  replace (String.prefix fence_json (fence +:+ rest +:+ fence)) with false.
  2:{ symmetry.
      pose proof (prefix_json_app rest EmptyString Hp Hb) as Hj.
      change (fence +:+ EmptyString) with fence in Hj.
      unfold fence_json.
      change (fence +:+ rest +:+ fence)
        with (String backtick (String backtick (String backtick
                (rest +:+ fence)))).
      cbn [String.prefix].
      repeat match goal with
             | |- context [ascii_dec ?a ?a] =>
                 destruct (ascii_dec a a); [|congruence]
             end.
      exact Hj. }
  apply strip_plain_fence, Hb.
Qed.
End WhiteSpace.

Section AnalyzeFacts.
Import perplexity.
Variable JSON_parse : string -> option jsval.

(** The two iterations of the loop, unrolled. *)
Lemma analyze_unrolled net :
  analyzeResumeWithPerplexity JSON_parse net
  = match attempt_body JSON_parse (net 1%nat) with
    | Ok v => (Ok v, [Fetch 1])
    | Err e =>
        if String.eqb (exn_name e) "AbortError" then (Err e, [Fetch 1])
        else (attempt_body JSON_parse (net 2%nat),
              [Fetch 1; Sleep 1000; Fetch 2])
    end.
Proof.
  unfold analyzeResumeWithPerplexity, MAX_RETRIES.
  cbn [analyze_loop app Nat.eqb orb].
  destruct (attempt_body JSON_parse (net 1%nat)) as [v|e]; [reflexivity|].
  destruct (String.eqb (exn_name e) "AbortError"); [reflexivity|].
  cbn [Nat.eqb orb Z.of_nat Pos.of_succ_nat Pos.succ Z.mul Pos.mul].
  destruct (attempt_body JSON_parse (net 2%nat)); reflexivity.
Qed.

Lemma attempt_body_completion text :
  text <> EmptyString ->
  attempt_body JSON_parse (JsonBody (completion text))
  = match JSON_parse (cleanContent text) with
    | None => Err (syntaxError "Unexpected token")
    | Some analysisResult => validate analysisResult
    end.
Proof.
  intros Hne. cbn. destruct text as [|c rest]; [contradiction|reflexivity].
Qed.

Lemma validate_object fields :
  validate (VObj fields)
  = if truthy (prop (VObj fields) "overall_score")
       && truthy (prop (VObj fields) "categories")
    then Ok (VObj fields) else Err invalidStructure.
Proof.
  unfold validate, member.
  destruct (truthy (prop (VObj fields) "overall_score")),
    (truthy (prop (VObj fields) "categories")); reflexivity.
Qed.

Lemma validate_ok v w :
  validate v = Ok w ->
  w = v /\ truthy (prop v "overall_score") = true
  /\ truthy (prop v "categories") = true.
Proof.
  unfold validate, member.
  destruct v; try discriminate;
    destruct (truthy (prop _ "overall_score")), (truthy (prop _ "categories"));
    cbn; intros H; try discriminate; injection H as <-; repeat split.
Qed.

Lemma validate_error v e :
  validate v = Err e -> exn_name e <> "AbortError".
Proof.
  unfold validate, member.
  destruct v; try (intros [= <-]; discriminate);
    destruct (negb _ || negb _); intros [= <-]; discriminate.
Qed.

(** A value that an attempt returns is what [JSON.parse] made of the
    cleaned content of the reply, and has passed the shape check. *)
Lemma attempt_body_ok o v :
  attempt_body JSON_parse o = Ok v ->
  truthy (prop v "overall_score") = true /\ truthy (prop v "categories") = true
  /\ exists data text,
       o = JsonBody data /\ extract_content data = Ok (VStr text)
       /\ JSON_parse (cleanContent text) = Some v.
Proof.
  destruct o as [| | | |data]; cbn; try discriminate.
  destruct (extract_content data) as [content|] eqn:Hc; [|discriminate].
  destruct (negb (truthy content)); [discriminate|].
  destruct content as [| | | | | |text| |]; try discriminate.
  destruct (JSON_parse (cleanContent text)) as [w|] eqn:Hp; [|discriminate].
  intros Hv. apply validate_ok in Hv as (-> & Hs & Hcat).
  split; [assumption|]. split; [assumption|].
  exists data, text. repeat split; assumption.
Qed.

(** Only the abort of the timer gives an attempt an [AbortError]. *)
Lemma attempt_body_abort o e :
  attempt_body JSON_parse o = Err e ->
  (exn_name e = "AbortError" <-> o = FetchAborted).
Proof.
  destruct o as [|message|status errorText| |data]; cbn.
  - intros [= <-]. split; reflexivity.
  - intros [= <-]. split; discriminate.
  - intros [= <-]. split; discriminate.
  - intros [= <-]. split; discriminate.
  - intros H. split; [|discriminate]. intros Hname. exfalso. revert H Hname.
    unfold extract_content, member.
    destruct data; try (intros [= <-]; discriminate);
      (destruct (negb (truthy _)); [intros [= <-]; discriminate|]);
      (match goal with
       | |- context [match ?c with VStr _ => _ | _ => _ end] =>
           destruct c; try (intros [= <-]; discriminate)
       end);
      (destruct (JSON_parse _); [|intros [= <-]; discriminate]);
      intros H Hname; apply validate_error in H; contradiction.
Qed.

(** A reply whose [overall_score] is falsy fails its attempt. *)
Lemma falsy_score_fails text fields :
  text <> EmptyString ->
  JSON_parse (cleanContent text) = Some (VObj fields) ->
  truthy (prop (VObj fields) "overall_score") = false ->
  attempt_body JSON_parse (JsonBody (completion text)) = Err invalidStructure.
Proof.
  intros Hne Hparse Hscore.
  rewrite attempt_body_completion by exact Hne.
  rewrite Hparse, validate_object, Hscore. reflexivity.
Qed.

(** A first attempt that fails otherwise than by the abort of the timer
    is followed by the second. *)
Lemma first_failure_retried net e :
  attempt_body JSON_parse (net 1%nat) = Err e ->
  net 1%nat <> FetchAborted ->
  analyzeResumeWithPerplexity JSON_parse net
  = (attempt_body JSON_parse (net 2%nat), [Fetch 1; Sleep 1000; Fetch 2]).
Proof.
  intros H1 Hnot. rewrite analyze_unrolled, H1.
  destruct (String.eqb_spec (exn_name e) "AbortError") as [Hab|]; [|reflexivity].
  exfalso. apply Hnot. apply (attempt_body_abort _ _ H1), Hab.
Qed.
End AnalyzeFacts.

(** C3 as stated fails on both counts.  A response that completes but fails
    the shape check on the first attempt is followed by a second [fetch], and
    the call can then succeed; a first attempt cut by the timeout is not
    retried. *)
Lemma invalid_structure_retried_timeout_not :
  let net_invalid_then_valid (attempt : nat) :=
    if (attempt =? 1)%nat
    then perplexity.JsonBody (perplexity.completion "{}")
    else perplexity.JsonBody (perplexity.completion perplexity.scored_text) in
  perplexity.attempt_body perplexity.sample_parse (net_invalid_then_valid 1%nat)
    = Err perplexity.invalidStructure
  /\ perplexity.analyzeResumeWithPerplexity perplexity.sample_parse
       net_invalid_then_valid
     = (Ok perplexity.scored_feedback,
        [perplexity.Fetch 1; perplexity.Sleep 1000; perplexity.Fetch 2])
  /\ perplexity.analyzeResumeWithPerplexity perplexity.sample_parse
       (fun _ => perplexity.FetchAborted)
     = (Err perplexity.abortError, [perplexity.Fetch 1]).
Proof. cbv zeta. repeat split; vm_compute; reflexivity. Qed.

(** C3, amended.  Whatever the network and the parser do, the call makes
    one attempt, or two with a wait of 1000 ms between them.  It ends after the first when that attempt returns a
    value, or is cut by the timeout (an [AbortError]), which is not retried.
    Every other failure of the first attempt, a transport error and a
    completed response that fails the shape check among them, is followed
    after 1000 ms by a second and last attempt, whose outcome is the
    outcome of the call.  Before it is parsed, the content of a reply is
    trimmed and loses an opening fence tagged [json], with the white space
    behind it, and a closing fence: of a reply fenced in that way it is the
    block between the fences that is parsed, and of a reply without
    backticks its trimmed text.  An opening fence without the tag is not
    removed. *)
Theorem analyze_retry_policy :
  forall (JSON_parse : string -> option jsval)
         (net : nat -> perplexity.FetchOutcome),
    let first := perplexity.attempt_body JSON_parse (net 1%nat) in
    let second :=
      (perplexity.attempt_body JSON_parse (net 2%nat),
       [perplexity.Fetch 1; perplexity.Sleep 1000; perplexity.Fetch 2]) in
    let parsed text :=
      match JSON_parse text with
      | None => Err (perplexity.syntaxError "Unexpected token")
      | Some analysisResult => perplexity.validate analysisResult
      end in
    (forall message,
        net 1%nat = perplexity.FetchRejects message ->
        perplexity.analyzeResumeWithPerplexity JSON_parse net = second)
    /\ (first = Err perplexity.invalidStructure ->
        perplexity.analyzeResumeWithPerplexity JSON_parse net = second)
    /\ (net 1%nat = perplexity.FetchAborted ->
        perplexity.analyzeResumeWithPerplexity JSON_parse net
        = (Err perplexity.abortError, [perplexity.Fetch 1]))
    /\ (forall v,
           first = Ok v ->
           perplexity.analyzeResumeWithPerplexity JSON_parse net
           = (Ok v, [perplexity.Fetch 1]))
    /\ (forall e,
           first = Err e -> net 1%nat <> perplexity.FetchAborted ->
           perplexity.analyzeResumeWithPerplexity JSON_parse net = second)
    /\ (forall ws0 ws1 body ws2,
           perplexity.all_space ws0 = true ->
           perplexity.all_space ws1 = true ->
           perplexity.all_space ws2 = true ->
           no_backtick body = true ->
           perplexity.attempt_body JSON_parse
             (perplexity.JsonBody
                (perplexity.completion
                   (ws0 +:+ perplexity.fence_json +:+ ws1 +:+ body
                        +:+ perplexity.fence +:+ ws2)))
           = parsed (perplexity.trimStart body))
    /\ (forall text,
           text <> EmptyString -> no_backtick text = true ->
           perplexity.attempt_body JSON_parse
             (perplexity.JsonBody (perplexity.completion text))
           = parsed (perplexity.trim text))
    /\ (forall rest ws2,
           no_backtick rest = true ->
           perplexity.all_space ws2 = true ->
           String.prefix "json" rest = false ->
           perplexity.attempt_body JSON_parse
             (perplexity.JsonBody
                (perplexity.completion
                   (perplexity.fence +:+ rest +:+ perplexity.fence +:+ ws2)))
           = parsed (perplexity.fence +:+ rest))
    /\ (let log := (perplexity.analyzeResumeWithPerplexity JSON_parse net).2 in
        log = [perplexity.Fetch 1]
        \/ log = [perplexity.Fetch 1; perplexity.Sleep 1000; perplexity.Fetch 2]).
Proof.
  intros JSON_parse net first second parsed. subst first second parsed.
  repeat match goal with |- _ /\ _ => split end.
  - intros message H. rewrite analyze_unrolled, H. reflexivity.
  - intros H. rewrite analyze_unrolled, H. reflexivity.
  - intros H. rewrite analyze_unrolled, H. reflexivity.
  - intros v H. rewrite analyze_unrolled, H. reflexivity.
  - intros e. apply first_failure_retried.
  - intros ws0 ws1 body ws2 H0 H1 H2 Hb.
    rewrite attempt_body_completion.
    + rewrite cleanContent_json_fence by assumption. reflexivity.
    + intros Hempty.
      assert (no_backtick (ws0 +:+ perplexity.fence_json +:+ ws1 +:+ body
                               +:+ perplexity.fence +:+ ws2) = false) as Hfence
          by (apply has_backtick_app_r; reflexivity).
      rewrite Hempty in Hfence. discriminate.
  - intros text Hne Ht. rewrite attempt_body_completion by exact Hne.
    rewrite cleanContent_no_fence by exact Ht. reflexivity.
  - intros rest ws2 Hb H2 Hp.
    rewrite attempt_body_completion by discriminate.
    rewrite cleanContent_plain_fence by assumption. reflexivity.
  - cbv zeta. rewrite analyze_unrolled.
    destruct (perplexity.attempt_body JSON_parse (net 1%nat)) as [v|e];
      [left; reflexivity|].
    destruct (String.eqb (exn_name e) "AbortError");
      [left|right]; reflexivity.
Qed.

Lemma analyze_retry_policy_witness :
  perplexity.analyzeResumeWithPerplexity perplexity.sample_parse
    (fun attempt =>
       if (attempt =? 1)%nat then perplexity.FetchRejects "Failed to fetch"
       else perplexity.JsonBody (perplexity.completion perplexity.scored_text))
  = (Ok perplexity.scored_feedback,
     [perplexity.Fetch 1; perplexity.Sleep 1000; perplexity.Fetch 2]).
Proof.
  apply (proj1 (analyze_retry_policy perplexity.sample_parse
                  (fun attempt =>
                     if (attempt =? 1)%nat
                     then perplexity.FetchRejects "Failed to fetch"
                     else perplexity.JsonBody
                            (perplexity.completion perplexity.scored_text)))
           "Failed to fetch").
  reflexivity.
Defined.

(** C10 as stated fails for the call: the error that a score of 0 raises in
    the first attempt is caught and the request sent again, and when the
    second reply passes the check the call returns its value. *)
Lemma zero_score_retried_then_accepted :
  let net_zero_then_scored (attempt : nat) :=
    if (attempt =? 1)%nat
    then perplexity.JsonBody (perplexity.completion perplexity.zero_text)
    else perplexity.JsonBody (perplexity.completion perplexity.scored_text) in
  perplexity.attempt_body perplexity.sample_parse (net_zero_then_scored 1%nat)
    = Err perplexity.invalidStructure
  /\ perplexity.analyzeResumeWithPerplexity perplexity.sample_parse
       net_zero_then_scored
     = (Ok perplexity.scored_feedback,
        [perplexity.Fetch 1; perplexity.Sleep 1000; perplexity.Fetch 2]).
Proof. cbv zeta. split; vm_compute; reflexivity. Qed.

(** C10, amended (a zero score is rejected, attempt by attempt).  A
    completed response whose text parses to an object passes the check of
    its attempt exactly when both its [overall_score] and its [categories]
    are truthy; when [overall_score] is falsy, 0 included, the attempt fails
    with the invalid-structure error.  In the first attempt that error is
    caught like any other: the request is sent again and the outcome of the
    second attempt is the outcome of the call, so the call raises the error
    when the second reply is of that kind too.  Whatever the network does,
    a value that the call returns has a truthy [overall_score] and truthy
    [categories]. *)
Theorem zero_overall_score_rejected :
  forall (JSON_parse : string -> option jsval),
    let falsy_score (o : perplexity.FetchOutcome) :=
      exists text fields,
        o = perplexity.JsonBody (perplexity.completion text)
        /\ text <> EmptyString
        /\ JSON_parse (perplexity.cleanContent text) = Some (VObj fields)
        /\ truthy (prop (VObj fields) "overall_score") = false in
    (forall text fields,
        text <> EmptyString ->
        JSON_parse (perplexity.cleanContent text) = Some (VObj fields) ->
        let attempt :=
          perplexity.attempt_body JSON_parse
            (perplexity.JsonBody (perplexity.completion text)) in
        (attempt = Ok (VObj fields)
         <-> truthy (prop (VObj fields) "overall_score") = true
             /\ truthy (prop (VObj fields) "categories") = true)
        /\ (truthy (prop (VObj fields) "overall_score") = false ->
            attempt = Err perplexity.invalidStructure))
    /\ (forall net : nat -> perplexity.FetchOutcome,
           falsy_score (net 1%nat) ->
           perplexity.analyzeResumeWithPerplexity JSON_parse net
           = (perplexity.attempt_body JSON_parse (net 2%nat),
              [perplexity.Fetch 1; perplexity.Sleep 1000; perplexity.Fetch 2]))
    /\ (forall net : nat -> perplexity.FetchOutcome,
           falsy_score (net 1%nat) -> falsy_score (net 2%nat) ->
           perplexity.analyzeResumeWithPerplexity JSON_parse net
           = (Err perplexity.invalidStructure,
              [perplexity.Fetch 1; perplexity.Sleep 1000; perplexity.Fetch 2]))
    /\ (forall (net : nat -> perplexity.FetchOutcome) (v : jsval),
           (perplexity.analyzeResumeWithPerplexity JSON_parse net).1 = Ok v ->
           truthy (prop v "overall_score") = true
           /\ truthy (prop v "categories") = true).
Proof.
  intros JSON_parse falsy_score. subst falsy_score.
  assert (forall net : nat -> perplexity.FetchOutcome,
            (exists text fields,
                net 1%nat = perplexity.JsonBody (perplexity.completion text)
                /\ text <> EmptyString
                /\ JSON_parse (perplexity.cleanContent text) = Some (VObj fields)
                /\ truthy (prop (VObj fields) "overall_score") = false) ->
            perplexity.analyzeResumeWithPerplexity JSON_parse net
            = (perplexity.attempt_body JSON_parse (net 2%nat),
               [perplexity.Fetch 1; perplexity.Sleep 1000; perplexity.Fetch 2]))
    as Hretry.
  { intros net (text & fields & Hnet & Hne & Hparse & Hscore).
    rewrite analyze_unrolled, Hnet.
    rewrite (falsy_score_fails JSON_parse text fields Hne Hparse Hscore).
    reflexivity. }
  repeat match goal with |- _ /\ _ => split end.
  - intros text fields Hne Hparse attempt. subst attempt.
    rewrite attempt_body_completion by exact Hne.
    rewrite Hparse, validate_object.
    destruct (truthy (prop (VObj fields) "overall_score")),
      (truthy (prop (VObj fields) "categories")); cbn;
      (split; [split; [intros H; try discriminate; split; reflexivity
                      |intros [? ?]; try discriminate; reflexivity]
              |intros H; try discriminate; reflexivity]).
  - exact Hretry.
  - intros net H1 (text & fields & Hnet & Hne & Hparse & Hscore).
    rewrite (Hretry net H1), Hnet.
    rewrite (falsy_score_fails JSON_parse text fields Hne Hparse Hscore).
    reflexivity.
  - intros net v. rewrite analyze_unrolled.
    destruct (perplexity.attempt_body JSON_parse (net 1%nat)) as [v1|e1] eqn:H1.
    + intros [= <-]. apply attempt_body_ok in H1. split; apply H1.
    + destruct (String.eqb (exn_name e1) "AbortError"); [discriminate|].
      cbn [fst]. intros H2. apply attempt_body_ok in H2. split; apply H2.
Qed.

Lemma zero_overall_score_rejected_witness :
  perplexity.analyzeResumeWithPerplexity perplexity.sample_parse
    (fun _ => perplexity.JsonBody (perplexity.completion perplexity.zero_text))
  = (Err perplexity.invalidStructure,
     [perplexity.Fetch 1; perplexity.Sleep 1000; perplexity.Fetch 2]).
Proof.
  assert (exists text fields,
             perplexity.JsonBody (perplexity.completion perplexity.zero_text)
             = perplexity.JsonBody (perplexity.completion text)
             /\ text <> EmptyString
             /\ perplexity.sample_parse (perplexity.cleanContent text)
                = Some (VObj fields)
             /\ truthy (prop (VObj fields) "overall_score") = false) as Hzero.
  { exists perplexity.zero_text, [("overall_score", VNum 0); ("categories", VObj [])].
    repeat split; discriminate. }
  apply (proj1 (proj2 (proj2
           (zero_overall_score_rejected perplexity.sample_parse)))
           (fun _ => perplexity.JsonBody
                       (perplexity.completion perplexity.zero_text))).
  - exact Hzero.
  - exact Hzero.
Defined.

(** ** Relating the worlds before and after *)

Section StepsIn.
Context {S : Type}.
Variable R : S -> S -> Prop.
Hypothesis R_refl : forall s, R s s.
Hypothesis R_trans : forall s1 s2 s3, R s1 s2 -> R s2 s3 -> R s1 s3.

Lemma steps_in_ret {A} (a : A) : steps_in R (ret a).
Proof using R_refl. intros s. apply R_refl. Qed.

Lemma steps_in_throw {A} (e : exn) : steps_in R (throw (A := A) e).
Proof using R_refl. intros s. apply R_refl. Qed.


Lemma steps_in_modify (f : S -> S) :
  (forall s, R s (f s)) -> steps_in R (modify f).
Proof. intros H s. apply H. Qed.

Lemma steps_in_bind {A B} (m : M S A) (k : A -> M S B) :
  steps_in R m -> (forall a, steps_in R (k a)) -> steps_in R (bind m k).
Proof using R_trans.
  intros Hm Hk s. unfold bind. specialize (Hm s).
  destruct (m s) as [[a|e] s']; cbn in *.
  - eapply R_trans; [exact Hm|apply Hk].
  - exact Hm.
Qed.

Lemma steps_in_try_catch {A} (m : M S A) (h : exn -> M S A) :
  steps_in R m -> (forall e, steps_in R (h e)) -> steps_in R (try_catch m h).
Proof using R_trans.
  intros Hm Hh s. unfold try_catch. specialize (Hm s).
  destruct (m s) as [[a|e] s']; cbn in *.
  - exact Hm.
  - eapply R_trans; [exact Hm|apply Hh].
Qed.

Lemma steps_in_retry_loop {A} sleep jitter (fn : nat -> M S A)
    maxRetries baseDelay maxDelay backoffFactor remaining attempt lastError :
  (forall a, steps_in R (fn a)) ->
  (forall ms s, R s (sleep ms s)) ->
  steps_in R (retry_loop sleep jitter fn maxRetries baseDelay maxDelay
                backoffFactor remaining attempt lastError).
Proof using R_refl R_trans.
  intros Hfn Hsleep. revert attempt lastError.
  induction remaining as [|r IH]; intros attempt lastError s.
  - apply R_refl.
  - cbn [retry_loop]. specialize (Hfn attempt s).
    destruct (fn attempt s) as [[v|e] s']; cbn in *.
    + exact Hfn.
    + destruct (attempt =? maxRetries)%nat; cbn.
      * exact Hfn.
      * eapply R_trans; [exact Hfn|].
        eapply R_trans; [apply Hsleep|]. apply IH.
Qed.



(** The same, when the first call is known to do more. *)
Lemma steps_in_retry_loop_first {A} (R1 : S -> S -> Prop) sleep jitter
    (fn : nat -> M S A) maxRetries baseDelay maxDelay backoffFactor
    remaining attempt lastError s :
  R1 s (fn attempt s).2 ->
  (forall s1 s2 s3, R1 s1 s2 -> R s2 s3 -> R1 s1 s3) ->
  (forall a, steps_in R (fn a)) ->
  (forall ms s, R s (sleep ms s)) ->
  R1 s (retry_loop sleep jitter fn maxRetries baseDelay maxDelay
          backoffFactor (Datatypes.S remaining) attempt lastError s).2.
Proof using R_refl R_trans.
  intros Hfirst Hcomp Hfn Hsleep. cbn [retry_loop].
  destruct (fn attempt s) as [[v|e] s']; cbn [snd] in *.
  - exact Hfirst.
  - destruct (attempt =? maxRetries)%nat; cbn [snd].
    + exact Hfirst.
    + eapply Hcomp; [exact Hfirst|].
      eapply R_trans; [apply Hsleep|].
      apply steps_in_retry_loop; assumption.
Qed.
End StepsIn.

Lemma extends_by_refl P w : extends_by P w w.
Proof. exists []. split; [now rewrite app_nil_r|constructor]. Qed.

Lemma extends_by_trans P w1 w2 w3 :
  extends_by P w1 w2 -> extends_by P w2 w3 -> extends_by P w1 w3.
Proof.
  intros (e1 & H1 & F1) (e2 & H2 & F2). exists (e1 ++ e2)%list. split.
  - rewrite H2, H1, app_assoc. reflexivity.
  - apply Forall_app. split; assumption.
Qed.

Lemma extends_by_emit (P : Event -> Prop) e w : P e -> extends_by P w (emit e w).
Proof. intros H. exists [e]. split; [reflexivity|repeat constructor; exact H]. Qed.


(** ** storageService.deleteFile and resumeService.delete *)

Section DeleteFacts.
Variable net : Net.

Lemma blob_step_refl b p w : blob_step b p w w.
Proof. split; [reflexivity|apply extends_by_refl]. Qed.

Lemma blob_step_trans b p w1 w2 w3 :
  blob_step b p w1 w2 -> blob_step b p w2 w3 -> blob_step b p w1 w3.
Proof.
  intros [H1 E1] [H2 E2]. split; [congruence|].
  eapply extends_by_trans; eassumption.
Qed.

Lemma request_remove_steps b p o message :
  steps_in (blob_step b p) (request o message (backend_remove b p)).
Proof.
  intros w. destruct o; cbn; try apply blob_step_refl.
  split; [reflexivity|]. exists []. split; [|constructor].
  cbn. now rewrite app_nil_r.
Qed.

Lemma delete_attempt_rest_steps b p t attempt :
  steps_in (blob_step b p)
    (try_catch
       (let* answer :=
          request (net_remove net (b, p) attempt)
            ("Delete timeout after " +:+ show_Z t +:+ "ms")
            (backend_remove b p) in
        match answer with
        | ErrorAnswer message _ =>
            throw (createError ("File deletion failed: " +:+ message) "DELETE_FAILED")
        | Data _ => ret tt
        end)
       (fun err =>
          if negb (isRetryableError err) then throw err
          else throw (createError
                 ("Delete attempt " +:+ show_nat attempt +:+ " failed: "
                  +:+ exn_message err) "DELETE_RETRY_FAILED"))).
Proof.
  apply steps_in_try_catch; [apply blob_step_trans| |].
  - apply steps_in_bind; [apply blob_step_trans|apply request_remove_steps|].
    intros [a|m c]; [apply steps_in_ret|apply steps_in_throw]; apply blob_step_refl.
  - intros e. destruct (negb (isRetryableError e));
      apply steps_in_throw; apply blob_step_refl.
Qed.

Lemma blob_step_emit_remove b p attempt w :
  blob_step b p w (emit (EvRemove b p attempt) w).
Proof. split; [reflexivity|]. apply extends_by_emit. split; reflexivity. Qed.

Lemma delete_attempt_steps b p t attempt :
  steps_in (blob_step b p) (storageService.delete_attempt net p b t attempt).
Proof.
  intros w.
  change ((storageService.delete_attempt net p b t attempt) w)
    with (try_catch
            (let* answer :=
               request (net_remove net (b, p) attempt)
                 ("Delete timeout after " +:+ show_Z t +:+ "ms")
                 (backend_remove b p) in
             match answer with
             | ErrorAnswer message _ =>
                 throw (createError ("File deletion failed: " +:+ message) "DELETE_FAILED")
             | Data _ => ret tt
             end)
            (fun err =>
               if negb (isRetryableError err) then throw err
               else throw (createError
                      ("Delete attempt " +:+ show_nat attempt +:+ " failed: "
                       +:+ exn_message err) "DELETE_RETRY_FAILED"))
            (emit (EvRemove b p attempt) w)).
  eapply blob_step_trans; [apply blob_step_emit_remove|].
  apply delete_attempt_rest_steps.
Qed.

Lemma blob_step_sleep b p ms w : blob_step b p w (sleep ms w).
Proof. split; [reflexivity|]. apply extends_by_emit. exact I. Qed.

(** [deleteFile] changes no row, and what it leaves in the trace starts
    with its first removal request. *)
Lemma deleteFile_first_request b p t w :
  let w' := (storageService.deleteFile net p b t w).2 in
  rows (remote w') = rows (remote w)
  /\ exists more,
       trace w' = (trace w ++ EvRemove b p 1 :: more)%list
       /\ Forall (blob_cleanup_of b p) more.
Proof.
  assert (forall w1 w2, blob_step b p (emit (EvRemove b p 1) w1) w2 ->
            rows (remote w2) = rows (remote w1)
            /\ exists more,
                 trace w2 = (trace w1 ++ EvRemove b p 1 :: more)%list
                 /\ Forall (blob_cleanup_of b p) more) as Hshape.
  { intros w1 w2 [Hrows (evs & Htr & Hall)]. split; [exact Hrows|].
    exists evs. split; [|exact Hall]. rewrite Htr. cbn.
    rewrite <- app_assoc. reflexivity. }
  cbv zeta. apply Hshape.
  unfold storageService.deleteFile, retrying, retryWithBackoff.
  apply (steps_in_retry_loop_first (blob_step b p)
           (blob_step_refl b p) (blob_step_trans b p)
           (fun w1 w2 => blob_step b p (emit (EvRemove b p 1) w1) w2)).
  - apply (delete_attempt_rest_steps b p t 1 (emit (EvRemove b p 1) w)).
  - intros s1 s2 s3. apply blob_step_trans.
  - intros a. apply delete_attempt_steps.
  - intros ms s. apply blob_step_sleep.
Qed.

Lemma catch_and_log_ok {A} (m : M World A) warning w :
  (catch_and_log m warning w).1 = Ok tt.
Proof. unfold catch_and_log. destruct (m w) as [[a|e] w']; reflexivity. Qed.
End DeleteFacts.

Ltac split4 := split; [|split; [|split]].

Lemma never_fails_ret {S} : never_fails (ret (S := S) tt).
Proof. intros s. reflexivity. Qed.


Lemma never_fails_catch_and_log {A} (m : M World A) warning :
  never_fails (catch_and_log m warning).
Proof. intros w. apply catch_and_log_ok. Qed.

Section DeleteRow.
Variable net : Net.

Lemma catch_and_log_deleteFile b p t warning w :
  let w' := (catch_and_log (storageService.deleteFile net p b t) warning w).2 in
  rows (remote w') = rows (remote w)
  /\ exists more,
       trace w' = (trace w ++ EvRemove b p 1 :: more)%list
       /\ Forall (blob_cleanup_of b p) more.
Proof.
  cbv zeta. unfold catch_and_log.
  destruct (deleteFile_first_request net b p t w) as (Hrows & more & Htr & Hall).
  destruct (storageService.deleteFile net p b t w) as [[a|e] w1]; cbn in *.
  - split; [exact Hrows|]. exists more. split; assumption.
  - split; [exact Hrows|]. exists (more ++ [EvWarn warning])%list. split.
    + rewrite Htr. rewrite <- app_assoc. reflexivity.
    + apply Forall_app. split; [exact Hall|]. repeat constructor.
Qed.


Lemma blob_cleanup_effect row w :
  let w' := (blob_cleanup net row w).2 in
  rows (remote w') = rows (remote w)
  /\ exists cleanup,
       trace w' = (trace w ++ cleanup)%list
       /\ Forall (blob_cleanup_event row) cleanup
       /\ (resume_path row <> EmptyString ->
           head cleanup = Some (EvRemove "resumes" (resume_path row) 1))
       /\ (forall image,
              image_path row = Some image -> image <> EmptyString ->
              In (EvRemove "resume-images" image 1) cleanup).
Proof.
  cbv zeta.
  assert (forall es, Forall (blob_cleanup_of "resumes" (resume_path row)) es ->
                     Forall (blob_cleanup_event row) es) as Hleft.
  { intros es H. eapply Forall_impl; [exact H|]. intros e He. left. exact He. }
  assert (forall image es, image_path row = Some image ->
                     Forall (blob_cleanup_of "resume-images" image) es ->
                     Forall (blob_cleanup_event row) es) as Hright.
  { intros image es Himg H. eapply Forall_impl; [exact H|].
    intros e He. right. eauto. }
  assert (blob_cleanup_event row (EvRemove "resumes" (resume_path row) 1)) as Hpdf.
  { left. split; reflexivity. }
  assert (forall image, image_path row = Some image ->
            blob_cleanup_event row (EvRemove "resume-images" image 1)) as Himage.
  { intros image Himg. right. exists image. repeat split. exact Himg. }
  unfold blob_cleanup, bind.
  destruct (String.eqb_spec (resume_path row) EmptyString) as [Hp|Hp]; cbn [negb].
  - (* no PDF path *)
    cbn [ret]. destruct (image_path row) as [image|].
    + specialize (Hright image). specialize (Himage image eq_refl).
      destruct (String.eqb_spec image EmptyString) as [Hi|Hi]; cbn [negb].
      * cbn. split; [reflexivity|]. exists []. rewrite app_nil_r.
        split4; [reflexivity|constructor|congruence|].
        intros image' [= <-]. contradiction.
      * destruct (catch_and_log_deleteFile "resume-images" image 15000
                    "Failed to delete image file:" w) as (Hrows & more & Htr & Hall).
        split; [exact Hrows|].
        exists (EvRemove "resume-images" image 1 :: more).
        split4; [exact Htr| |congruence|].
        -- constructor; [exact Himage|]. apply Hright; [reflexivity|exact Hall].
        -- intros image' [= <-] _. left. reflexivity.
    + cbn. split; [reflexivity|]. exists []. rewrite app_nil_r.
      split4; [reflexivity|constructor|congruence|discriminate].
  - (* a PDF path *)
    destruct (catch_and_log_deleteFile "resumes" (resume_path row) 15000
                "Failed to delete resume file:" w) as (Hrows & more & Htr & Hall).
    pose proof (catch_and_log_ok
                  (storageService.deleteFile net (resume_path row) "resumes" 15000)
                  "Failed to delete resume file:" w) as Hok.
    destruct (catch_and_log _ _ w) as [r w1]. cbn in Hok, Hrows, Htr. subst r.
    destruct (image_path row) as [image|].
    + specialize (Hright image). specialize (Himage image eq_refl).
      destruct (String.eqb_spec image EmptyString) as [Hi|Hi]; cbn [negb].
      * cbn. split; [exact Hrows|].
        exists (EvRemove "resumes" (resume_path row) 1 :: more).
        split4; [exact Htr| |reflexivity|].
        -- constructor; [exact Hpdf|]. apply Hleft, Hall.
        -- intros image' [= <-]. contradiction.
      * destruct (catch_and_log_deleteFile "resume-images" image 15000
                    "Failed to delete image file:" w1)
          as (Hrows2 & more2 & Htr2 & Hall2).
        split; [congruence|].
        exists (EvRemove "resumes" (resume_path row) 1 :: more
                ++ EvRemove "resume-images" image 1 :: more2)%list.
        split4; [| |reflexivity|].
        -- rewrite Htr2, Htr. rewrite <- app_assoc. reflexivity.
        -- constructor; [exact Hpdf|].
           apply Forall_app. split; [apply Hleft, Hall|].
           constructor; [exact Himage|]. apply Hright; [reflexivity|exact Hall2].
        -- intros image' [= <-] _. right. apply in_or_app. right. left. reflexivity.
    + cbn. split; [exact Hrows|].
      exists (EvRemove "resumes" (resume_path row) 1 :: more).
      split4; [exact Htr| |reflexivity|discriminate].
      constructor; [exact Hpdf|]. apply Hleft, Hall.
Qed.
End DeleteRow.

Lemma delete_unfold net id :
  id <> EmptyString ->
  resumeService.delete net id
  = (let* resume := resumeService.getById net id in
     let* _ := modify (emit (EvDeleteRow id)) in
     let* answer :=
       request (net_delete_row net) "Database delete timeout"
         (backend_delete_row id) in
     match answer with
     | ErrorAnswer message _ =>
         throw (createError ("Failed to delete resume: " +:+ message)
                  "DB_DELETE_FAILED")
     | Data _ => blob_cleanup net resume
     end).
Proof.
  intros Hid. unfold resumeService.delete.
  destruct (String.eqb_spec id EmptyString); [contradiction|reflexivity].
Qed.

Lemma getById_found net id row w :
  id <> EmptyString ->
  net_select net = Delivered ->
  rows (remote w) !! id = Some row ->
  resumeService.getById net id w = (Ok row, emit (EvSelect id) w).
Proof.
  intros Hid Hsel Hrow. unfold resumeService.getById.
  destruct (String.eqb_spec id EmptyString); [contradiction|].
  unfold bind, modify, request, backend_select. rewrite Hsel. cbn.
  rewrite Hrow. reflexivity.
Qed.



(** ** The upload page: cancellation and the preview *)

(** With nothing recorded in [transactionState], the clean-up that
    [handleCancel] runs issues no request and leaves the backend as it is. *)
Lemma handleCancel_empty_transaction_keeps_remote env w :
  transactionState (ui w) = empty_transaction ->
  remote (Upload.handleCancel env w).2 = remote w
  /\ existsb Scenario.is_remove (trace (Upload.handleCancel env w).2)
     = existsb Scenario.is_remove (trace w).
Proof.
  intros Hempty. unfold Upload.handleCancel, bind, gets.
  destruct (isProcessing (ui w)); [|split; reflexivity].
  destruct (Upload.env_confirm env); cbn [negb]; [|split; reflexivity].
  cbn [modify]. destruct (controller w); cbn; rewrite Hempty; cbn;
    (split; [reflexivity|]); rewrite existsb_app; cbn; apply orb_false_r.
Qed.

(** C1 (cancellation).  The user cancels while the preview is being
    converted, after the PDF has been stored.  [handleCancel] runs the
    clean-up on [transactionState], which [handleAnalyze] never fills in (it
    records its uploads in the local [currentState]), so no removal is
    requested; the pipeline then stops at its next checkpoint without
    cleaning up either.  The PDF blob, and the preview stored meanwhile,
    remain.  A cancellation during the analysis does not even stop the
    pipeline: the row and both blobs remain and the page navigates to the
    record. *)
Theorem cancel_after_upload_removes_nothing :
  let run cancel :=
    Upload.handleAnalyze
      (Scenario.env_of Scenario.net_ok (Ok (Some Scenario.preview_file))
         Scenario.scored_analysis (Some cancel))
      Scenario.args Upload.fresh_world in
  let w := (run Upload.AtConvert).2 in
  let w' := (run Upload.AtAnalyze).2 in
  ((run Upload.AtConvert).1 = Ok tt
   /\ isProcessing (ui w) = false
   /\ existsb Scenario.is_cleanup (trace w) = true
   /\ existsb Scenario.is_remove (trace w) = false
   /\ elements (blobs (remote w))
      = [("resume-images", Scenario.stored_preview);
         ("resumes", Scenario.stored_pdf)])
  /\ (existsb Scenario.is_cleanup (trace w') = true
      /\ existsb Scenario.is_remove (trace w') = false
      /\ elements (blobs (remote w'))
         = [("resume-images", Scenario.stored_preview);
            ("resumes", Scenario.stored_pdf)]
      /\ resume_path <$> rows (remote w') !! "r-1" = Some Scenario.stored_pdf
      /\ last (trace w') = Some (EvNavigate "/resume/r-1")).
Proof.
  cbv zeta. repeat split; vm_compute; reflexivity.
Qed.

Lemma user_may_cancel_none env s :
  Upload.env_cancel env = None -> Upload.user_may_cancel env s = ret tt.
Proof.
  intros H. unfold Upload.user_may_cancel. rewrite H.
  rewrite bool_decide_eq_false_2 by discriminate. reflexivity.
Qed.

(** When the conversion itself raises, the preview block ends normally with
    the local [imagePath] still [null], and the backend untouched. *)
Lemma generate_preview_conversion_raises env userId e w :
  Upload.env_convert env = Err e ->
  Upload.env_cancel env = None ->
  let '(r, w') := Upload.generate_preview env userId w in
  r = Ok tt /\ local_imagePath w' = None /\ remote w' = remote w.
Proof.
  intros Hconv Hcancel. unfold Upload.generate_preview.
  rewrite user_may_cancel_none by exact Hcancel.
  unfold bind, try_catch, modify. rewrite Hconv. cbn.
  unfold Upload.page_onProgress. cbn.
  destruct (mounted w); cbn; repeat split.
Qed.

(** C7 (non-critical preview).  The conversion succeeds and the upload of
    the preview image fails on both attempts.  The failure is swallowed and
    the pipeline completes, but [imagePath] was assigned before the upload:
    the record is created with the path of a blob that does not exist, where
    the claim has it created with [imagePath = null]. *)
Theorem failed_preview_upload_keeps_image_path :
  let env :=
    Scenario.env_of Scenario.net_no_preview_upload
      (Ok (Some Scenario.preview_file)) Scenario.scored_analysis None in
  let r := (Upload.handleAnalyze env Scenario.args Upload.fresh_world).1 in
  let w := (Upload.handleAnalyze env Scenario.args Upload.fresh_world).2 in
  r = Ok tt
  /\ image_path <$> rows (remote w) !! "r-1" = Some (Some Scenario.stored_preview)
  /\ elements (blobs (remote w)) = [("resumes", Scenario.stored_pdf)]
  /\ imagePath (currentState w) = None
  /\ last (trace w) = Some (EvNavigate "/resume/r-1").
Proof.
  cbv zeta. repeat split; vm_compute; reflexivity.
Qed.

(** ** The trace only grows *)



Lemma grows_same_trace w w' : trace w' = trace w -> grows w w'.
Proof.
  intros H. exists []. split; [|constructor]. now rewrite H, app_nil_r.
Qed.



Section Grows.
Variable net : Net.











Lemma G_track (m : M (Z * World) jsval) :
  (forall c w, trace (m (c, w)).2.2 = trace w) ->
  steps_in grows (Upload.track m).
Proof.
  intros H w. unfold Upload.track. specialize (H (tracker_step w) w).
  destruct (m (tracker_step w, w)) as [r [c w']]. cbn in *.
  apply grows_same_trace. exact H.
Qed.

Lemma page_onProgress_trace d w : trace (Upload.page_onProgress d w) = trace w.
Proof. unfold Upload.page_onProgress. destruct (mounted w); reflexivity. Qed.

Lemma G_tracker_increment env message :
  steps_in grows (Upload.tracker_increment env message).
Proof.
  apply G_track. intros c w. cbn. apply page_onProgress_trace.
Qed.








End Grows.

(** ** The upload page: a failed analysis *)








Section AnalysisFails.
Variable env : Upload.Env.
Variable args : Upload.AnalyzeArgs.
Variable userId : string.






Hypothesis no_cancel : Upload.env_cancel env = None.
Hypothesis uuid_given : Upload.env_uuid env <> EmptyString.

End AnalysisFails.

Lemma bind_ok_inv {S A B} (m : M S A) (k : A -> M S B) s b s2 :
  bind m k s = (Ok b, s2) ->
  exists a s1, m s = (Ok a, s1) /\ k a s1 = (Ok b, s2).
Proof.
  unfold bind. destruct (m s) as [[a|e] s1]; intros H; [eauto|discriminate].
Qed.

Lemma retry_loop_ok_inv {S A} (P : S -> Prop) sleep jitter (fn : nat -> M S A)
    maxRetries baseDelay maxDelay backoffFactor remaining attempt lastError
    s v s' :
  (forall a s0 v0 s1, fn a s0 = (Ok v0, s1) -> P s1) ->
  retry_loop sleep jitter fn maxRetries baseDelay maxDelay backoffFactor
    remaining attempt lastError s = (Ok v, s') ->
  P s'.
Proof.
  intros Hfn. revert attempt lastError s.
  induction remaining as [|r IH]; intros attempt lastError s; cbn [retry_loop].
  - discriminate.
  - destruct (fn attempt s) as [[v0|e] s1] eqn:Hcall.
    + intros [= <- <-]. eapply Hfn, Hcall.
    + destruct (attempt =? maxRetries)%nat; [discriminate|]. apply IH.
Qed.

(** A [create] that returns has stored its row. *)
Lemma create_stores_row net row w r w' :
  resumeService.create net row w = (Ok r, w') ->
  rows (remote w') !! row_id row = Some row.
Proof.
  unfold resumeService.create, retrying, retryWithBackoff.
  apply (retry_loop_ok_inv (fun s => rows (remote s) !! row_id row = Some row)).
  clear. intros a s0 v0 s1.
  unfold resumeService.create_attempt, try_catch, bind, modify, request.
  destruct (net_insert net a); cbn.
  - unfold backend_insert. cbn.
    destruct (rows (remote s0) !! row_id row) eqn:Hrow; cbn.
    + destruct (negb _); discriminate.
    + intros [= <- <-]. cbn. apply lookup_insert_eq.
  - destruct (negb _); discriminate.
  - destruct (negb _); discriminate.
  - destruct (negb _); discriminate.
Qed.






(** ** The callers of retryWithBackoff *)

(** The [catch] of [storageService.uploadFile] rethrows the errors it means
    not to retry, a permission error among them; thrown into
    [retryWithBackoff], they are retried like any other: the upload is
    requested at each of the 3 attempts. *)
Lemma uploadFile_permission_error_is_retried :
  let run :=
    storageService.uploadFile Scenario.net_permission_denied
      (Some (Upload.file Scenario.args)) Scenario.stored_pdf
      (Upload.pdf_options) Upload.fresh_world in
  storageService.no_retry_upload_error
    (createError "Upload failed: Permission denied" "UPLOAD_FAILED") = true
  /\ run.1 = Err (createError "Upload failed: Permission denied" "UPLOAD_FAILED")
  /\ trace run.2
     = [EvUpload "resumes" Scenario.stored_pdf 1; EvSleep 1000;
        EvUpload "resumes" Scenario.stored_pdf 2; EvSleep 2000;
        EvUpload "resumes" Scenario.stored_pdf 3].
Proof. cbv zeta. repeat split; vm_compute; reflexivity. Qed.

(* ===================================================================== *)
(** * Part II, continued: further properties of the code                  *)
(* ===================================================================== *)

(** ** retryWithBackoff: the order of calls and waits *)

Section RetryJournal.
Context {S A : Type}.
Variable sleep : Z -> S -> S.
Variable jitter : nat -> Z.
Variable fn : nat -> M S A.
Variables baseDelay maxDelay backoffFactor : Z.

Let delay := backoff_delay jitter baseDelay maxDelay backoffFactor.

Lemma retry_loop_journal maxRetries remaining attempt lastError s journal :
  (attempt + remaining = Datatypes.S maxRetries)%nat ->
  (1 <= remaining)%nat ->
  let run :=
    retry_loop (journaled_sleep sleep) jitter (journaled fn) maxRetries
      baseDelay maxDelay backoffFactor remaining attempt lastError
      (s, journal) in
  exists more,
    (more < remaining)%nat
    /\ run.2.2 = (journal ++ schedule delay attempt more)%list
    /\ (forall e, run.1 = Err e -> Datatypes.S more = remaining).
Proof.
  revert attempt lastError s journal.
  induction remaining as [|r IH]; intros attempt lastError s journal Hsum Hpos;
    [lia|].
  cbv zeta. cbn [retry_loop journaled].
  destruct (fn attempt s) as [[v|e] s1] eqn:Hcall.
  - exists 0%nat. cbn. split; [lia|]. split; [reflexivity|]. discriminate.
  - destruct (Nat.eqb_spec attempt maxRetries) as [Heq|Hne].
    + exists 0%nat. cbn. split; [lia|]. split; [reflexivity|].
      intros _ _. lia.
    + destruct r as [|r']; [lia|].
      cbn [journaled_sleep].
      destruct (IH (Datatypes.S attempt) e
                  (sleep (Z.min (baseDelay * backoffFactor ^ (Z.of_nat attempt - 1)
                                 + jitter attempt) maxDelay) s1)
                  ((journal ++ [Called attempt])
                   ++ [Slept (Z.min (baseDelay * backoffFactor ^ (Z.of_nat attempt - 1)
                                     + jitter attempt) maxDelay)])%list
                  ltac:(lia) ltac:(lia))
        as (more & Hlt & Hj & Hexh).
      exists (Datatypes.S more). split; [lia|]. split.
      * rewrite Hj. cbn [schedule]. rewrite <- !app_assoc. reflexivity.
      * intros e' He'. f_equal. eapply Hexh. exact He'.
Qed.

Lemma schedule_within first more :
  Forall (is_slept_within maxDelay) (schedule delay first more).
Proof.
  revert first. induction more as [|more IH]; intros first; cbn.
  - repeat constructor.
  - constructor; [exact I|]. constructor; [|apply IH].
    unfold delay, backoff_delay. cbn. apply Z.le_min_r.
Qed.
End RetryJournal.

Lemma retryWithBackoff_journal {S A} (sleep : Z -> S -> S) jitter
    (fn : nat -> M S A) baseDelay maxDelay backoffFactor maxRetries s :
  (1 <= maxRetries)%nat ->
  let run :=
    retryWithBackoff (journaled_sleep sleep) jitter (journaled fn) maxRetries
      baseDelay maxDelay backoffFactor (s, []) in
  exists calls,
    (1 <= calls <= maxRetries)%nat
    /\ run.2.2
       = schedule (backoff_delay jitter baseDelay maxDelay backoffFactor)
           1 (calls - 1)
    /\ (forall e, run.1 = Err e -> calls = maxRetries).
Proof.
  intros Hpos. cbv zeta. unfold retryWithBackoff.
  destruct (retry_loop_journal sleep jitter fn baseDelay maxDelay backoffFactor
              maxRetries maxRetries 1 JsUndefined s []
              ltac:(lia) ltac:(lia)) as (more & Hlt & Hj & Hexh).
  exists (Datatypes.S more). split; [lia|]. split.
  - rewrite Hj. cbn [app]. f_equal. lia.
  - intros e He. apply (Hexh e He).
Qed.

(** X1 (the order of calls and waits).  Let the operation never reject
    with [undefined].  A run of [retryWithBackoff] with [maxRetries >= 1] is
    then a row of calls numbered 1, 2, ..., k with [k <= maxRetries],
    separated by waits of exactly the backoff delay of the attempt that
    failed, none of them longer than [maxDelay], and with no wait after the
    last call; it ends in an error only when [k = maxRetries].  With
    [maxRetries = 0] the operation is not called and [undefined] is
    thrown. *)
Theorem retryWithBackoff_schedule :
  forall (S A : Type) (sleep : Z -> S -> S) (jitter : nat -> Z)
         (fn : nat -> M S A) (baseDelay maxDelay backoffFactor : Z)
         (maxRetries : nat) (s : S),
    never_undefined fn ->
    let run :=
      retryWithBackoff (journaled_sleep sleep) jitter (journaled fn) maxRetries
        baseDelay maxDelay backoffFactor (s, []) in
    match maxRetries with
    | O => run = (Err JsUndefined, (s, []))
    | Datatypes.S _ =>
        exists calls,
          (1 <= calls <= maxRetries)%nat
          /\ run.2.2
             = schedule (backoff_delay jitter baseDelay maxDelay backoffFactor)
                 1 (calls - 1)
          /\ Forall (is_slept_within maxDelay) run.2.2
          /\ (forall e, run.1 = Err e -> calls = maxRetries)
    end.
Proof.
  intros S A sleep jitter fn baseDelay maxDelay backoffFactor maxRetries s _.
  cbv zeta. destruct maxRetries as [|m]; [reflexivity|].
  destruct (retryWithBackoff_journal sleep jitter fn baseDelay maxDelay
              backoffFactor (Datatypes.S m) s ltac:(lia))
    as (calls & Hcalls & Hj & Herr).
  exists calls. split; [exact Hcalls|]. split; [exact Hj|].
  split; [|exact Herr]. rewrite Hj. apply schedule_within.
Qed.

Lemma retryWithBackoff_schedule_witness :
  let fn (attempt : nat) : M unit nat :=
    if (attempt <? 3)%nat then throw (newError "Failed to fetch") else ret attempt in
  let run :=
    retryWithBackoff (journaled_sleep (fun _ s => s)) (fun _ => 250)
      (journaled fn) 4 1000 10000 2 (tt, []) in
  exists calls,
    (1 <= calls <= 4)%nat
    /\ run.2.2 = schedule (backoff_delay (fun _ => 250) 1000 10000 2) 1 (calls - 1)
    /\ Forall (is_slept_within 10000) run.2.2
    /\ (forall e, run.1 = Err e -> calls = 4%nat).
Proof.
  intros fn run.
  apply (retryWithBackoff_schedule unit nat (fun _ s => s) (fun _ => 250) fn
           1000 10000 2 4 tt).
  intros attempt s. unfold fn. destruct (attempt <? 3)%nat; discriminate.
Defined.

(** ** generateFilePath: the sanitised file name *)

Section CleanFilename.

Lemma lower_clean c :
  is_clean_char (lower_ascii (if is_alnum_dot_dash c then c else underscore)) = true.
Proof. destruct c as [[] [] [] [] [] [] [] []]; reflexivity. Qed.

Lemma lower_underscore c :
  Ascii.eqb (lower_ascii c) underscore = Ascii.eqb c underscore.
Proof. destruct c as [[] [] [] [] [] [] [] []]; reflexivity. Qed.

Lemma clean_char_fixed c :
  is_clean_char c = true ->
  lower_ascii c = c /\ (if is_alnum_dot_dash c then c else underscore) = c.
Proof. destruct c as [[] [] [] [] [] [] [] []]; cbn; intros H; try discriminate; split; reflexivity. Qed.

Lemma replaced_lower_clean c :
  is_replaced_char c = true -> is_clean_char (lower_ascii c) = true.
Proof. destruct c as [[] [] [] [] [] [] [] []]; cbn; intros H; try discriminate; reflexivity. Qed.

Lemma replace_unsafe_chars s : all_chars is_replaced_char (replace_unsafe s) = true.
Proof.
  induction s as [|c s IH]; [reflexivity|]. cbn. rewrite IH, andb_true_r.
  destruct c as [[] [] [] [] [] [] [] []]; reflexivity.
Qed.

Lemma squeeze_chars p s :
  all_chars p s = true -> all_chars p (squeeze_underscores s) = true.
Proof.
  induction s as [|c s IH]; [reflexivity|]. cbn [all_chars squeeze_underscores].
  intros H. apply andb_true_iff in H as [Hc Hs].
  destruct s as [|c' s']; [cbn; now rewrite Hc|].
  destruct (Ascii.eqb c underscore && Ascii.eqb c' underscore).
  - apply IH, Hs.
  - cbn [all_chars]. rewrite Hc. apply IH, Hs.
Qed.

Lemma strip_leading_chars p s :
  all_chars p s = true -> all_chars p (strip_leading_underscores s) = true.
Proof.
  induction s as [|c s IH]; [reflexivity|]. cbn [strip_leading_underscores].
  intros H. destruct (Ascii.eqb c underscore); [|exact H].
  apply andb_true_iff in H as [_ Hs]. apply IH, Hs.
Qed.

Lemma strip_trailing_chars p s :
  all_chars p s = true -> all_chars p (strip_trailing_underscores s) = true.
Proof.
  induction s as [|c s IH]; [reflexivity|].
  intros H. cbn [strip_trailing_underscores].
  destruct (all_underscores (String c s)); [reflexivity|].
  cbn [all_chars] in *. apply andb_true_iff in H as [Hc Hs].
  rewrite Hc. apply IH, Hs.
Qed.

Lemma lower_chars s :
  all_chars is_replaced_char s = true ->
  all_chars is_clean_char (toLowerCase s) = true.
Proof.
  induction s as [|c s IH]; [reflexivity|]. cbn. intros H.
  apply andb_true_iff in H as [Hc Hs].
  rewrite (replaced_lower_clean c Hc). apply IH, Hs.
Qed.

(** *** No two underscores in a row *)

Lemma squeeze_head s :
  starts_with_underscore (squeeze_underscores s) = starts_with_underscore s.
Proof.
  induction s as [|c s IH]; [reflexivity|]. cbn [squeeze_underscores].
  destruct s as [|c' s']; [reflexivity|].
  destruct (Ascii.eqb_spec c underscore) as [->|Hc]; cbn [andb].
  - destruct (Ascii.eqb_spec c' underscore) as [->|Hc'].
    + rewrite IH. reflexivity.
    + reflexivity.
  - reflexivity.
Qed.

Lemma squeeze_no_double s : has_double_underscore (squeeze_underscores s) = false.
Proof.
  induction s as [|c s IH]; [reflexivity|]. cbn [squeeze_underscores].
  destruct s as [|c' s'].
  - cbn. now rewrite andb_false_r.
  - destruct (Ascii.eqb c underscore && Ascii.eqb c' underscore) eqn:Hcc;
      [exact IH|].
    cbn [has_double_underscore]. rewrite IH, orb_false_r.
    rewrite squeeze_head. exact Hcc.
Qed.

Lemma strip_leading_no_double s :
  has_double_underscore s = false ->
  has_double_underscore (strip_leading_underscores s) = false.
Proof.
  induction s as [|c s IH]; [reflexivity|]. cbn [strip_leading_underscores].
  intros H. destruct (Ascii.eqb c underscore); [|exact H].
  cbn in H. apply orb_false_iff in H as [_ H]. apply IH, H.
Qed.

Lemma strip_trailing_head s :
  starts_with_underscore (strip_trailing_underscores s) = true ->
  starts_with_underscore s = true.
Proof.
  destruct s as [|c s]; [discriminate|]. cbn [strip_trailing_underscores].
  destruct (all_underscores (String c s)); [discriminate|]. intros H; exact H.
Qed.

Lemma strip_trailing_no_double s :
  has_double_underscore s = false ->
  has_double_underscore (strip_trailing_underscores s) = false.
Proof.
  induction s as [|c s IH]; [reflexivity|].
  intros H. cbn [strip_trailing_underscores].
  destruct (all_underscores (String c s)); [reflexivity|].
  cbn [has_double_underscore] in *. apply orb_false_iff in H as [Hh Ht].
  rewrite (IH Ht), orb_false_r.
  destruct (Ascii.eqb c underscore); [|reflexivity]. cbn in *.
  destruct (starts_with_underscore (strip_trailing_underscores s)) eqn:E;
    [|reflexivity].
  apply strip_trailing_head in E. congruence.
Qed.

Lemma lower_head s :
  starts_with_underscore (toLowerCase s) = starts_with_underscore s.
Proof. destruct s as [|c s]; [reflexivity|]. cbn. apply lower_underscore. Qed.

Lemma lower_no_double s :
  has_double_underscore (toLowerCase s) = has_double_underscore s.
Proof.
  induction s as [|c s IH]; [reflexivity|]. cbn [toLowerCase has_double_underscore].
  rewrite IH, lower_underscore, lower_head. reflexivity.
Qed.

(** *** No underscore at either end *)

Lemma strip_leading_head s :
  starts_with_underscore (strip_leading_underscores s) = false.
Proof.
  induction s as [|c s IH]; [reflexivity|]. cbn [strip_leading_underscores].
  destruct (Ascii.eqb c underscore) eqn:E; [exact IH|]. cbn. exact E.
Qed.

Lemma all_underscores_last s :
  s <> EmptyString -> all_underscores s = true -> ends_with_underscore s = true.
Proof.
  induction s as [|c s IH]; [contradiction|]. intros _ H. cbn in H.
  apply andb_true_iff in H as [Hc Hs].
  destruct s as [|c' s']; [exact Hc|]. cbn [ends_with_underscore].
  apply IH; [discriminate|exact Hs].
Qed.

Lemma strip_trailing_last s :
  ends_with_underscore (strip_trailing_underscores s) = false.
Proof.
  induction s as [|c s IH]; [reflexivity|]. cbn [strip_trailing_underscores].
  destruct (all_underscores (String c s)) eqn:Hall; [reflexivity|].
  destruct (strip_trailing_underscores s) as [|c' s'] eqn:Hs.
  - (* the rest was all underscores: [c] itself is not one *)
    cbn. cbn in Hall.
    destruct (Ascii.eqb c underscore); [|reflexivity]. cbn in Hall.
    clear IH. revert Hs Hall. clear.
    destruct s as [|d s]; [discriminate|]. cbn [strip_trailing_underscores].
    destruct (all_underscores (String d s)); [discriminate|discriminate].
  - cbn [ends_with_underscore]. exact IH.
Qed.

Lemma lower_last s :
  ends_with_underscore (toLowerCase s) = ends_with_underscore s.
Proof.
  induction s as [|c s IH]; [reflexivity|]. cbn [toLowerCase].
  destruct s as [|c' s']; [cbn; apply lower_underscore|].
  cbn [toLowerCase ends_with_underscore] in *. exact IH.
Qed.

(** *** A clean name is left as it is *)

Lemma replace_unsafe_fixed s :
  all_chars is_clean_char s = true -> replace_unsafe s = s.
Proof.
  induction s as [|c s IH]; [reflexivity|]. cbn. intros H.
  apply andb_true_iff in H as [Hc Hs].
  rewrite (proj2 (clean_char_fixed c Hc)), (IH Hs). reflexivity.
Qed.

Lemma lower_fixed s :
  all_chars is_clean_char s = true -> toLowerCase s = s.
Proof.
  induction s as [|c s IH]; [reflexivity|]. cbn. intros H.
  apply andb_true_iff in H as [Hc Hs].
  rewrite (proj1 (clean_char_fixed c Hc)), (IH Hs). reflexivity.
Qed.

Lemma squeeze_fixed s :
  has_double_underscore s = false -> squeeze_underscores s = s.
Proof.
  induction s as [|c s IH]; [reflexivity|]. intros H.
  cbn [has_double_underscore] in H. apply orb_false_iff in H as [Hh Ht].
  cbn [squeeze_underscores]. destruct s as [|c' s']; [reflexivity|].
  cbn [starts_with_underscore] in Hh. rewrite Hh, (IH Ht). reflexivity.
Qed.

Lemma strip_leading_fixed s :
  starts_with_underscore s = false -> strip_leading_underscores s = s.
Proof.
  destruct s as [|c s]; [reflexivity|]. cbn. intros ->. reflexivity.
Qed.

Lemma strip_trailing_fixed s :
  ends_with_underscore s = false -> strip_trailing_underscores s = s.
Proof.
  induction s as [|c s IH]; [reflexivity|]. intros H.
  cbn [strip_trailing_underscores].
  destruct (all_underscores (String c s)) eqn:Hall.
  - apply all_underscores_last in Hall; [congruence|discriminate].
  - f_equal. apply IH. destruct s as [|c' s']; [reflexivity|exact H].
Qed.
End CleanFilename.

Lemma generateFilePath_clean_parts filename :
  all_chars is_clean_char (cleanFilename filename) = true
  /\ has_double_underscore (cleanFilename filename) = false
  /\ starts_with_underscore (cleanFilename filename) = false
  /\ ends_with_underscore (cleanFilename filename) = false.
Proof.
  unfold cleanFilename. split4.
  - apply lower_chars, strip_trailing_chars, strip_leading_chars,
      squeeze_chars, replace_unsafe_chars.
  - rewrite lower_no_double.
    apply strip_trailing_no_double, strip_leading_no_double, squeeze_no_double.
  - rewrite lower_head.
    destruct (starts_with_underscore (strip_trailing_underscores _)) eqn:E;
      [|reflexivity].
    apply strip_trailing_head in E. rewrite strip_leading_head in E. discriminate.
  - rewrite lower_last. apply strip_trailing_last.
Qed.

(** X2.  [generateFilePath] throws exactly when the user id or the file
    name is empty; otherwise the path is the user id, the type, the
    timestamp and the random suffix followed by the sanitised file name, and
    that name holds only lower-case letters, digits, dots, dashes and
    underscores, never two underscores in a row, and no underscore at either
    end. *)
Theorem generateFilePath_clean_path :
  forall (timestamp : Z) (randomSuffix userId filename type : string),
    match generateFilePath timestamp randomSuffix userId filename type with
    | Ok path =>
        userId <> EmptyString /\ filename <> EmptyString
        /\ path = userId +:+ "/" +:+ type +:+ "/" +:+ show_Z timestamp +:+ "_"
                  +:+ randomSuffix +:+ "_" +:+ cleanFilename filename
    | Err e =>
        (userId = EmptyString \/ filename = EmptyString)
        /\ e = newError "UserId and filename are required for file path generation"
    end
    /\ all_chars is_clean_char (cleanFilename filename) = true
    /\ has_double_underscore (cleanFilename filename) = false
    /\ starts_with_underscore (cleanFilename filename) = false
    /\ ends_with_underscore (cleanFilename filename) = false.
Proof.
  intros timestamp randomSuffix userId filename type. split.
  - unfold generateFilePath.
    destruct (String.eqb_spec userId EmptyString) as [Hu|Hu]; cbn [orb].
    + split; [left; exact Hu|reflexivity].
    + destruct (String.eqb_spec filename EmptyString) as [Hf|Hf].
      * split; [right; exact Hf|reflexivity].
      * repeat split; assumption.
  - apply generateFilePath_clean_parts.
Qed.

(** X3.  Sanitising a file name twice gives the same name as sanitising it
    once. *)
Theorem cleanFilename_idempotent :
  forall filename : string,
    cleanFilename (cleanFilename filename) = cleanFilename filename.
Proof.
  intros filename.
  destruct (generateFilePath_clean_parts filename) as (Hc & Hd & Hs & He).
  unfold cleanFilename at 1.
  rewrite (replace_unsafe_fixed _ Hc), (squeeze_fixed _ Hd),
    (strip_leading_fixed _ Hs), (strip_trailing_fixed _ He).
  apply lower_fixed, Hc.
Qed.

(** ** healthCheck: what the breaker keeps *)

Section BreakerInvariant.
Import healthCheck healthOps.

Lemma checkCircuit_consistent now cb :
  consistent cb ->
  consistent (_checkCircuit now cb).2 /\ same_settings cb (_checkCircuit now cb).2
  /\ ((_checkCircuit now cb).1 = true ->
      failures (_checkCircuit now cb).2 < threshold cb
      /\ isOpen (_checkCircuit now cb).2 = false).
Proof.
  intros (Hth & Hf & Hopen). unfold _checkCircuit, same_settings, consistent.
  destruct (Z.geb_spec (failures cb) (threshold cb)) as [Hge|Hlt].
  - destruct (Z.gtb_spec (now - default 0 (lastFailure cb)) (resetTime cb)); cbn;
      repeat split; intros; try lia; try discriminate; reflexivity.
  - cbn. repeat split; intros; try lia; try tauto.
    destruct (isOpen cb) eqn:E; [|reflexivity].
    pose proof (proj1 Hopen eq_refl). lia.
Qed.

Lemma recordFailure_consistent now cb :
  0 < threshold cb -> 0 <= failures cb ->
  (failures cb < threshold cb -> isOpen cb = false) ->
  consistent (_recordFailure now cb) /\ same_settings cb (_recordFailure now cb).
Proof.
  intros Hth Hf Hclosed. unfold _recordFailure, same_settings, consistent. cbn.
  destruct (Z.geb_spec (failures cb + 1) (threshold cb)) as [Hge|Hlt]; cbn.
  - repeat split; intros; try lia; reflexivity.
  - repeat split; intros; try lia.
    match goal with Ho : isOpen cb = true |- _ =>
      rewrite Hclosed in Ho by lia; discriminate end.
Qed.

Lemma recordSuccess_consistent cb :
  0 < threshold cb ->
  consistent (_recordSuccess cb) /\ same_settings cb (_recordSuccess cb).
Proof.
  intros Hth. unfold _recordSuccess, same_settings, consistent. cbn.
  repeat split; intros; try lia; discriminate.
Qed.

(** The two halves of a probe keep the breaker consistent; so does any
    interleaving of them. *)
Lemma probe_begin_consistent d now h :
  consistent (_circuitBreaker h) ->
  consistent (_circuitBreaker (probe_begin d now h).2)
  /\ same_settings (_circuitBreaker h) (_circuitBreaker (probe_begin d now h).2).
Proof.
  intros Hc. unfold probe_begin.
  destruct (checkCircuit_consistent now _ Hc) as (Hc' & Hs & _).
  destruct (_checkCircuit now (_circuitBreaker h)) as [[|] cb]; cbn in *; auto.
Qed.

Lemma probe_end_consistent o now h :
  consistent (_circuitBreaker h) ->
  consistent (_circuitBreaker (probe_end o now h).2)
  /\ same_settings (_circuitBreaker h) (_circuitBreaker (probe_end o now h).2).
Proof.
  intros (Hth & Hf & Hopen). unfold probe_end.
  assert (failures (_circuitBreaker h) < threshold (_circuitBreaker h) ->
          isOpen (_circuitBreaker h) = false) as Hclosed.
  { intros Hlt. destruct (isOpen (_circuitBreaker h)) eqn:E; [|reflexivity].
    pose proof (proj1 Hopen eq_refl). lia. }
  destruct o; cbn [snd _circuitBreaker].
  - apply recordSuccess_consistent; assumption.
  - apply recordFailure_consistent; assumption.
  - apply recordFailure_consistent; assumption.
Qed.

Lemma same_settings_trans a b c :
  same_settings a b -> same_settings b c -> same_settings a c.
Proof. unfold same_settings. intros [? ?] [? ?]. split; congruence. Qed.

Lemma same_settings_refl a : same_settings a a.
Proof. split; reflexivity. Qed.

Lemma reset_kept h :
  consistent (_circuitBreaker h) -> kept h (reset h).
Proof.
  intros (Hth & _ & _). unfold kept, reset, consistent, same_settings,
    resetCircuitBreaker. cbn.
  repeat split; intros; try lia; discriminate.
Qed.

Lemma health_step_kept st h :
  consistent (_circuitBreaker h) -> kept h (health_step st h).
Proof.
  intros Hc. destruct st; cbn.
  - apply probe_begin_consistent, Hc.
  - apply probe_end_consistent, Hc.
  - apply reset_kept, Hc.
Qed.

Lemma probe_as_steps d p h :
  (probe d p h).2 = health_steps (probe_steps d p h) h.
Proof.
  unfold probe_steps.
  destruct d; unfold probe, testConnection, testStorageConnection; cbn.
  - destruct (probe_begin Database (at_check p) h) as [[|] h1]; reflexivity.
  - destruct (probe_begin Storage (at_check p) h) as [[|] h1]; reflexivity.
Qed.

Lemma testAllConnections_as_steps pd ps first h :
  (testAllConnections pd ps first h).2
  = health_steps (testAll_steps pd ps first h) h.
Proof.
  unfold testAllConnections, testAll_steps. cbn.
  destruct (probe_begin Database (at_check pd) h) as [dc h1]. cbn.
  destruct (probe_begin Storage (at_check ps) h1) as [sc h2]. cbn.
  destruct first, dc, sc; cbn;
    repeat match goal with
           | |- context [probe_end ?o ?t ?x] =>
               let E := fresh in destruct (probe_end o t x) eqn:E; cbn in *
           end; try reflexivity;
    repeat match goal with
           | E : probe_end _ _ _ = _ |- _ =>
               apply (f_equal snd) in E; cbn in E; subst
           end; try reflexivity.
Qed.
End BreakerInvariant.

Section BreakerRuns.
Import healthCheck healthOps.

Lemma health_steps_kept steps : forall h,
  consistent (_circuitBreaker h) -> kept h (health_steps steps h).
Proof.
  induction steps as [|st steps IH]; intros h Hc.
  - split; [assumption|apply same_settings_refl].
  - cbn. destruct (health_step_kept st h Hc) as [Hc1 Hs1].
    destruct (IH _ Hc1) as [Hc2 Hs2].
    split; [assumption|eapply same_settings_trans; eassumption].
Qed.

Lemma closed_probe d p cb log :
  failures cb < threshold cb ->
  probe d p {| _circuitBreaker := cb; calls := log |}
  = probe_end (outcome p) (at_record p)
      {| _circuitBreaker := cb; calls := (log ++ [d])%list |}.
Proof.
  intros Hlt.
  destruct d; unfold probe, testConnection, testStorageConnection,
    probe_begin, _checkCircuit; cbn;
    (destruct (Z.geb_spec (failures cb) (threshold cb)); [lia|]); reflexivity.
Qed.

Lemma short_runs_stay_closed ps : forall run lf log,
  (run < 3)%nat ->
  short_failure_runs run ps = true ->
  exists n lf',
    (n < 3)%nat
    /\ run_probes ps
         {| _circuitBreaker :=
              {| failures := Z.of_nat run; lastFailure := lf; isOpen := false;
                 threshold := 3; resetTime := 30000 |};
            calls := log |}
       = (map (fun dp => is_ok dp.2) ps,
          {| _circuitBreaker :=
               {| failures := Z.of_nat n; lastFailure := lf'; isOpen := false;
                  threshold := 3; resetTime := 30000 |};
             calls := (log ++ map fst ps)%list |}).
Proof.
  induction ps as [|[d p] ps IH]; intros run lf log Hrun Hshort.
  - exists run, lf. cbn. rewrite app_nil_r. split; [assumption|reflexivity].
  - cbn [short_failure_runs] in Hshort. cbn [run_probes].
    rewrite closed_probe by (cbn; lia).
    unfold is_ok in *. cbn [map fst snd].
    destruct (outcome p) eqn:Ho; cbn [probe_end _circuitBreaker calls].
    + destruct (IH 0%nat lf (log ++ [d])%list ltac:(lia) Hshort)
        as (n & lf' & Hn & Hrun').
      exists n, lf'. split; [assumption|].
      unfold _recordSuccess, set_isOpen, set_failures. cbn.
      change (Z.of_nat 0) with 0 in Hrun'. rewrite Hrun'. rewrite <- app_assoc. reflexivity.
    + apply andb_true_iff in Hshort as [Hlt Hshort].
      apply Nat.ltb_lt in Hlt.
      destruct (IH (Datatypes.S run) (Some (at_record p)) (log ++ [d])%list Hlt Hshort)
        as (n & lf' & Hn & Hrun').
      exists n, lf'. split; [assumption|].
      unfold _recordFailure, set_isOpen, set_failures, set_lastFailure. cbn.
      destruct (Z.geb_spec (Z.of_nat run + 1) 3); [lia|].
      replace (Z.of_nat run + 1) with (Z.of_nat (Datatypes.S run)) by lia.
      rewrite Hrun'. rewrite <- app_assoc. reflexivity.
    + apply andb_true_iff in Hshort as [Hlt Hshort].
      apply Nat.ltb_lt in Hlt.
      destruct (IH (Datatypes.S run) (Some (at_record p)) (log ++ [d])%list Hlt Hshort)
        as (n & lf' & Hn & Hrun').
      exists n, lf'. split; [assumption|].
      unfold _recordFailure, set_isOpen, set_failures, set_lastFailure. cbn.
      destruct (Z.geb_spec (Z.of_nat run + 1) 3); [lia|].
      replace (Z.of_nat run + 1) with (Z.of_nat (Datatypes.S run)) by lia.
      rewrite Hrun'. rewrite <- app_assoc. reflexivity.
Qed.
End BreakerRuns.

(** X4 (breaker invariant).  Every probe acts on the breaker in two
    steps: the circuit check made when it starts, and the recording of the
    outcome once its backend call has settled; [testConnection],
    [testStorageConnection] and [testAllConnections] are such steps and
    nothing else.  Whatever steps are taken and however the steps of
    overlapping probes and manual resets are interleaved, a breaker whose
    flag agrees with its counter stays that way: [isOpen] is [true] exactly
    when [failures] has reached [threshold], the counter is never negative,
    and [threshold] and [resetTime] are never changed. *)
Theorem breaker_flag_follows_counter :
  forall (h : healthCheck.Health),
    healthOps.consistent (healthCheck._circuitBreaker h) ->
    (forall steps : list healthOps.HealthStep,
        let cb' := healthCheck._circuitBreaker (healthOps.health_steps steps h) in
        0 <= healthCheck.failures cb'
        /\ (healthCheck.isOpen cb' = true
            <-> healthCheck.threshold cb' <= healthCheck.failures cb')
        /\ healthCheck.threshold cb'
           = healthCheck.threshold (healthCheck._circuitBreaker h)
        /\ healthCheck.resetTime cb'
           = healthCheck.resetTime (healthCheck._circuitBreaker h))
    /\ (forall d p,
          (healthCheck.probe d p h).2
          = healthOps.health_steps (healthOps.probe_steps d p h) h)
    /\ (forall pd ps storage_first,
          (healthCheck.testAllConnections pd ps storage_first h).2
          = healthOps.health_steps (healthOps.testAll_steps pd ps storage_first h) h).
Proof.
  intros h Hc. split; [|split].
  - intros steps cb'. subst cb'.
    destruct (health_steps_kept steps h Hc) as [(Hth & Hf & Hopen) [Ht Hr]].
    repeat split; try assumption; apply Hopen.
  - intros d p. apply probe_as_steps.
  - intros pd ps first. apply testAllConnections_as_steps.
Qed.

Lemma breaker_flag_follows_counter_witness :
  let steps :=
    [healthOps.Begin healthCheck.Storage 0;
     healthOps.Begin healthCheck.Database 10;
     healthOps.Begin healthCheck.Storage 20;
     healthOps.Settle healthCheck.ProbeOk 700;
     healthOps.Settle healthCheck.ProbeRejects 5000;
     healthOps.Settle healthCheck.ProbeError 5010;
     healthOps.Begin healthCheck.Database 6000;
     healthOps.Settle healthCheck.ProbeError 6100;
     healthOps.Begin healthCheck.Database 7000;
     healthOps.ManualReset;
     healthOps.Begin healthCheck.Storage 8000;
     healthOps.Settle healthCheck.ProbeRejects 9000] in
  let cb' :=
    healthCheck._circuitBreaker
      (healthOps.health_steps steps healthCheck.initial_health) in
  0 <= healthCheck.failures cb'
  /\ (healthCheck.isOpen cb' = true
      <-> healthCheck.threshold cb' <= healthCheck.failures cb')
  /\ healthCheck.threshold cb' = 3
  /\ healthCheck.resetTime cb' = 30000.
Proof.
  intros steps.
  refine (proj1 (breaker_flag_follows_counter healthCheck.initial_health _) steps).
  unfold healthOps.consistent. cbn.
  split; [lia|]. split; [lia|]. split; [discriminate|lia].
Defined.

(** X5 (a failed trial closes the breaker).  With the breaker open, a probe
    whose circuit check comes more than 30000 ms after the last recorded
    failure is let through to the backend.  When that call fails, the probe
    answers [false], and the breaker is left closed with a failure count
    of 1: two more failures are needed before probes are blocked again. *)
Theorem failed_trial_leaves_breaker_closed :
  forall (d : healthCheck.Dependency) (p : healthCheck.Probe)
         (f t : Z) (log : list healthCheck.Dependency),
    3 <= f ->
    healthCheck.at_check p - t > 30000 ->
    healthCheck.fails p ->
    healthCheck.probe d p
      {| healthCheck._circuitBreaker :=
           {| healthCheck.failures := f;
              healthCheck.lastFailure := Some t;
              healthCheck.isOpen := true;
              healthCheck.threshold := 3;
              healthCheck.resetTime := 30000 |};
         healthCheck.calls := log |}
    = (false,
       {| healthCheck._circuitBreaker :=
            {| healthCheck.failures := 1;
               healthCheck.lastFailure := Some (healthCheck.at_record p);
               healthCheck.isOpen := false;
               healthCheck.threshold := 3;
               healthCheck.resetTime := 30000 |};
          healthCheck.calls := (log ++ [d])%list |}).
Proof.
  intros d p f t log Hf Hw Hfail. unfold healthCheck.fails in Hfail.
  destruct d; unfold healthCheck.probe, healthCheck.testConnection,
    healthCheck.testStorageConnection, healthCheck.probe_begin,
    healthCheck._checkCircuit; cbn;
    (destruct (Z.geb_spec f 3); [|lia]);
    (destruct (Z.gtb_spec (healthCheck.at_check p - t) 30000); [|lia]);
    cbn; destruct (healthCheck.outcome p); try congruence; reflexivity.
Qed.

Lemma failed_trial_leaves_breaker_closed_witness :
  let p :=
    {| healthCheck.at_check := 40000; healthCheck.outcome := healthCheck.ProbeError;
       healthCheck.at_record := 40100 |} in
  healthCheck.probe healthCheck.Database p
    {| healthCheck._circuitBreaker := healthCheck.tripped 3040;
       healthCheck.calls := [] |}
  = (false,
     {| healthCheck._circuitBreaker :=
          {| healthCheck.failures := 1;
             healthCheck.lastFailure := Some 40100;
             healthCheck.isOpen := false;
             healthCheck.threshold := 3;
             healthCheck.resetTime := 30000 |};
        healthCheck.calls := [healthCheck.Database] |}).
Proof.
  intros p.
  apply (failed_trial_leaves_breaker_closed healthCheck.Database p 3 3040 []).
  - lia.
  - cbn. lia.
  - discriminate.
Defined.

(** X6 (short failure runs).  Start from a closed breaker with no failure
    counted.  In a sequence of probes made one after another, each settled
    before the next starts, in which no three in a row fail, no probe is
    ever blocked: each one reaches its backend, each answers
    [true] exactly when its backend call succeeded, and the breaker is
    closed at the end with fewer than three failures counted. *)
Theorem fewer_than_three_failures_in_a_row_never_block :
  forall (ps : list (healthCheck.Dependency * healthCheck.Probe))
         (lf : option Z) (log : list healthCheck.Dependency),
    healthOps.short_failure_runs 0 ps = true ->
    let h0 := {| healthCheck._circuitBreaker :=
                   {| healthCheck.failures := 0;
                      healthCheck.lastFailure := lf;
                      healthCheck.isOpen := false;
                      healthCheck.threshold := 3;
                      healthCheck.resetTime := 30000 |};
                 healthCheck.calls := log |} in
    let '(answers, h') := healthCheck.run_probes ps h0 in
    answers = map (fun dp => healthOps.is_ok dp.2) ps
    /\ healthCheck.calls h' = (log ++ map fst ps)%list
    /\ healthCheck.isOpen (healthCheck._circuitBreaker h') = false
    /\ healthCheck.failures (healthCheck._circuitBreaker h') < 3.
Proof.
  intros ps lf log Hshort h0. subst h0.
  destruct (short_runs_stay_closed ps 0%nat lf log ltac:(lia) Hshort)
    as (n & lf' & Hn & Hrun).
  change (Z.of_nat 0) with 0 in Hrun. rewrite Hrun. cbn.
  repeat split. lia.
Qed.

Lemma fewer_than_three_failures_in_a_row_never_block_witness :
  let failing t :=
    {| healthCheck.at_check := t; healthCheck.outcome := healthCheck.ProbeError;
       healthCheck.at_record := t + 40 |} in
  let passing t :=
    {| healthCheck.at_check := t; healthCheck.outcome := healthCheck.ProbeOk;
       healthCheck.at_record := t + 40 |} in
  let ps :=
    [(healthCheck.Database, failing 1000); (healthCheck.Storage, failing 2000);
     (healthCheck.Database, passing 3000); (healthCheck.Storage, failing 4000);
     (healthCheck.Storage, failing 5000)] in
  let '(answers, h') := healthCheck.run_probes ps healthCheck.initial_health in
  answers = [false; false; true; false; false]
  /\ healthCheck.calls h' = map fst ps
  /\ healthCheck.isOpen (healthCheck._circuitBreaker h') = false
  /\ healthCheck.failures (healthCheck._circuitBreaker h') < 3.
Proof.
  intros failing passing ps.
  apply (fewer_than_three_failures_in_a_row_never_block ps None []).
  reflexivity.
Defined.

(** X7 (testAllConnections).  When the two circuit checks of
    [testAllConnections] read the same clock value, the breaker treats the
    two probes alike: either both backend calls are issued, database first,
    or none is, both answers are [false] and the breaker is open.  The
    overall answer is the conjunction of the two, and it is [true] only if
    both backend calls succeeded, in which case the breaker is closed with
    no failure counted. *)
Theorem testAllConnections_probes_both_or_none :
  forall (pd ps : healthCheck.Probe) (storage_first : bool)
         (h : healthCheck.Health),
    0 < healthCheck.threshold (healthCheck._circuitBreaker h) ->
    healthCheck.at_check pd = healthCheck.at_check ps ->
    let '((database, storage, overall), h') :=
      healthCheck.testAllConnections pd ps storage_first h in
    overall = database && storage
    /\ (healthCheck.calls h'
        = (healthCheck.calls h ++ [healthCheck.Database; healthCheck.Storage])%list
        \/ (healthCheck.calls h' = healthCheck.calls h
            /\ database = false /\ storage = false
            /\ healthCheck._circuitBreaker h'
               = healthCheck.set_isOpen true (healthCheck._circuitBreaker h)))
    /\ (overall = true ->
        healthOps.is_ok pd = true /\ healthOps.is_ok ps = true
        /\ healthCheck.failures (healthCheck._circuitBreaker h') = 0
        /\ healthCheck.isOpen (healthCheck._circuitBreaker h') = false).
Proof.
  intros pd ps first [cb log] Hth Hsame. cbn in Hth.
  unfold healthCheck.testAllConnections, healthCheck.probe_begin,
    healthCheck._checkCircuit, healthOps.is_ok.
  rewrite <- Hsame. cbn [healthCheck._circuitBreaker healthCheck.calls].
  destruct (Z.geb_spec (healthCheck.failures cb) (healthCheck.threshold cb)) as [Hge|Hlt].
  - destruct (Z.gtb_spec (healthCheck.at_check pd
                          - default 0 (healthCheck.lastFailure cb))
                         (healthCheck.resetTime cb)) as [Hw|Hw].
    + cbn.
      destruct (Z.geb_spec 0 (healthCheck.threshold cb)); [lia|].
      cbn. rewrite <- app_assoc. cbn.
      destruct first, (healthCheck.outcome pd), (healthCheck.outcome ps); cbn;
        (split; [reflexivity|]); (split; [left; reflexivity|]);
        intros; try discriminate; repeat split.
    + cbn.
      destruct (Z.geb_spec (healthCheck.failures cb) (healthCheck.threshold cb)); [|lia].
      destruct (Z.gtb_spec (healthCheck.at_check pd
                            - default 0 (healthCheck.lastFailure cb))
                           (healthCheck.resetTime cb)); [lia|].
      destruct first; cbn;
        (split; [reflexivity|]); (split; [right; repeat split|]);
        intros; discriminate.
  - cbn.
    destruct (Z.geb_spec (healthCheck.failures cb) (healthCheck.threshold cb)); [lia|].
    cbn. rewrite <- app_assoc. cbn.
    destruct first, (healthCheck.outcome pd), (healthCheck.outcome ps); cbn;
      (split; [reflexivity|]); (split; [left; reflexivity|]);
      intros; try discriminate; repeat split.
Qed.

Lemma testAllConnections_probes_both_or_none_witness :
  let passing t :=
    {| healthCheck.at_check := t; healthCheck.outcome := healthCheck.ProbeOk;
       healthCheck.at_record := t + 40 |} in
  let '((database, storage, overall), h') :=
    healthCheck.testAllConnections (passing 1000) (passing 1000) true
      healthCheck.initial_health in
  overall = database && storage
  /\ (healthCheck.calls h' = [healthCheck.Database; healthCheck.Storage]
      \/ (healthCheck.calls h' = []
          /\ database = false /\ storage = false
          /\ healthCheck._circuitBreaker h'
             = healthCheck.set_isOpen true healthCheck.initial_breaker))
  /\ (overall = true ->
      healthOps.is_ok (passing 1000) = true /\ healthOps.is_ok (passing 1000) = true
      /\ healthCheck.failures (healthCheck._circuitBreaker h') = 0
      /\ healthCheck.isOpen (healthCheck._circuitBreaker h') = false).
Proof.
  intros passing.
  apply (testAllConnections_probes_both_or_none (passing 1000) (passing 1000) true
           healthCheck.initial_health).
  - cbn. lia.
  - reflexivity.
Defined.

(** ** storageService and resumeService: what a call that returns has done *)

Section ServiceRoundTrips.
Variable net : Net.

Lemma notify_remote {N} (callback : option (N -> World -> World)) n w :
  keeps_remote callback ->
  exists w', notify callback n w = (Ok tt, w') /\ remote w' = remote w.
Proof.
  intros Hk. destruct callback as [f|]; cbn.
  - exists (f n w). split; [reflexivity|]. apply (Hk f eq_refl).
  - exists w. split; reflexivity.
Qed.

(** An upload attempt that returns has put the blob in the store. *)
Lemma upload_attempt_stores path o attempt w stored w' :
  keeps_remote (onProgress o) ->
  storageService.upload_attempt net path o attempt w = (Ok stored, w') ->
  (bucket o, path) ∈ blobs (remote w').
Proof.
  intros Hk. unfold storageService.upload_attempt, try_catch.
  destruct (notify_remote (onProgress o) (NoticeUploading attempt) w Hk)
    as (w1 & Hn1 & Hr1).
  unfold bind at 1. rewrite Hn1. unfold bind at 1. cbn [modify].
  unfold bind at 1. unfold request.
  destruct (net_upload net (bucket o, path) attempt) as [|message code|message|].
  - unfold backend_upload.
    destruct (bool_decide _ && negb (upsert o)).
    + destruct (includes _ _ && negb (upsert o)); cbn;
        (destruct (storageService.no_retry_upload_error _); cbn;
         [discriminate|]);
        unfold bind; destruct (if (attempt <? maxRetries o)%nat then _ else _)
          as [[[]|?] ?]; discriminate.
    + set (w2 := with_remote _ _).
      destruct (notify_remote (onProgress o) (NoticeComplete attempt) w2 Hk)
        as (w3 & Hn3 & Hr3).
      unfold bind. rewrite Hn3. cbn. intros [= _ <-]. rewrite Hr3.
      subst w2. cbn. apply elem_of_union_l, elem_of_singleton. reflexivity.
  - destruct (includes _ _ && negb (upsert o)); cbn;
      (destruct (storageService.no_retry_upload_error _); cbn;
       [discriminate|]);
      unfold bind; destruct (if (attempt <? maxRetries o)%nat then _ else _)
        as [[[]|?] ?]; discriminate.
  - cbn. destruct (storageService.no_retry_upload_error _); cbn;
      [discriminate|].
    unfold bind; destruct (if (attempt <? maxRetries o)%nat then _ else _)
      as [[[]|?] ?]; discriminate.
  - cbn. destruct (storageService.no_retry_upload_error _); cbn;
      [discriminate|].
    unfold bind; destruct (if (attempt <? maxRetries o)%nat then _ else _)
      as [[[]|?] ?]; discriminate.
Qed.
End ServiceRoundTrips.

(** An upload that returns has put the blob in the store. *)
Lemma uploadFile_stores net file path o w stored w' :
  keeps_remote (onProgress o) ->
  storageService.uploadFile net file path o w = (Ok stored, w') ->
  (bucket o, path) ∈ blobs (remote w')
  /\ exists f, file = Some f
               /\ file_size f <> 0 /\ file_size f <= 50 * 1024 * 1024.
Proof.
  intros Hk. unfold storageService.uploadFile.
  destruct file as [f|]; [|discriminate].
  destruct (Z.eqb_spec (file_size f) 0) as [|Hne]; [discriminate|].
  destruct (Z.gtb_spec (file_size f) (50 * 1024 * 1024)) as [|Hle]; [discriminate|].
  intros H. apply bind_ok_inv in H as (? & w1 & _ & H).
  split; [|exists f; repeat split; assumption].
  revert H. unfold retrying, retryWithBackoff.
  apply (retry_loop_ok_inv (fun s => (bucket o, path) ∈ blobs (remote s))).
  intros a s0 v0 s1. apply upload_attempt_stores, Hk.
Qed.



Lemma retry_loop_ok_result {S A} (P : A -> S -> Prop) sleep jitter
    (fn : nat -> M S A) maxRetries baseDelay maxDelay backoffFactor
    remaining attempt lastError s v s' :
  (forall a s0 v0 s1, fn a s0 = (Ok v0, s1) -> P v0 s1) ->
  retry_loop sleep jitter fn maxRetries baseDelay maxDelay backoffFactor
    remaining attempt lastError s = (Ok v, s') ->
  P v s'.
Proof.
  intros Hfn. revert attempt lastError s.
  induction remaining as [|r IH]; intros attempt lastError s; cbn [retry_loop].
  - discriminate.
  - destruct (fn attempt s) as [[v0|e] s1] eqn:Hcall.
    + intros [= <- <-]. eapply Hfn, Hcall.
    + destruct (attempt =? maxRetries)%nat; [discriminate|]. apply IH.
Qed.

Section RecordRoundTrips.
Variable net : Net.

Lemma create_attempt_ok row attempt w r w' :
  resumeService.create_attempt net row attempt w = (Ok r, w') ->
  r = row /\ rows (remote w') !! row_id row = Some row.
Proof.
  unfold resumeService.create_attempt, try_catch, bind, modify, request.
  destruct (net_insert net attempt); cbn.
  - unfold backend_insert. cbn.
    destruct (rows (remote w) !! row_id row) eqn:Hrow; cbn.
    + destruct (negb _); discriminate.
    + intros [= <- <-]. cbn. split; [reflexivity|apply lookup_insert_eq].
  - destruct (negb _); discriminate.
  - destruct (negb _); discriminate.
  - destruct (negb _); discriminate.
Qed.


Lemma getById_ok id w row w' :
  resumeService.getById net id w = (Ok row, w') ->
  id <> EmptyString /\ net_select net = Delivered
  /\ rows (remote w) !! id = Some row /\ w' = emit (EvSelect id) w.
Proof.
  unfold resumeService.getById.
  destruct (String.eqb_spec id EmptyString) as [|Hid]; [discriminate|].
  unfold bind, modify, request, backend_select.
  destruct (net_select net); cbn; try discriminate.
  - destruct (rows (remote w) !! id) as [found|] eqn:Hrow; cbn.
    + intros [= <- <-]. repeat split; assumption.
    + discriminate.
  - destruct (bool_decide _); discriminate.
Qed.

Lemma getById_missing id w :
  id <> EmptyString -> net_select net = Delivered ->
  rows (remote w) !! id = None ->
  resumeService.getById net id w
  = (Err (createError "Resume not found" "RESUME_NOT_FOUND"),
     emit (EvSelect id) w).
Proof.
  intros Hid Hsel Hrow. unfold resumeService.getById.
  destruct (String.eqb_spec id EmptyString); [contradiction|].
  unfold bind, modify, request, backend_select. rewrite Hsel. cbn.
  rewrite Hrow. reflexivity.
Qed.

Lemma delete_ok id w w' :
  resumeService.delete net id w = (Ok tt, w') ->
  id <> EmptyString /\ net_select net = Delivered
  /\ rows (remote w') = base.delete id (rows (remote w)).
Proof.
  intros H.
  assert (id <> EmptyString) as Hid.
  { intros ->. discriminate H. }
  rewrite delete_unfold in H by exact Hid.
  apply bind_ok_inv in H as (resume & w1 & Hget & H).
  apply getById_ok in Hget as (_ & Hsel & _ & ->).
  apply bind_ok_inv in H as ([] & w2 & Hm & H). injection Hm as <-.
  apply bind_ok_inv in H as (answer & w3 & Hreq & H).
  unfold request in Hreq.
  destruct (net_delete_row net); cbn in Hreq; try discriminate.
  - injection Hreq as <- <-.
    pose proof (blob_cleanup_effect net resume
                  (with_remote (set_rows (base.delete id))
                     (emit (EvDeleteRow id) (emit (EvSelect id) w))))
      as (Hrows & _).
    cbv zeta in Hrows. rewrite H in Hrows. cbn in Hrows.
    repeat split; assumption.
  - injection Hreq as <- <-. discriminate H.
Qed.
End RecordRoundTrips.

(** X9 (create, then read).  When [resumeService.create] returns, it
    returns the record it was given, and a [getById] for that record's id
    whose request is delivered finds that record. *)
Theorem created_record_is_read_back :
  forall (net : Net) (resumeData r : ResumeRow) (w w' : World),
    row_id resumeData <> EmptyString ->
    net_select net = Delivered ->
    resumeService.create net resumeData w = (Ok r, w') ->
    r = resumeData
    /\ resumeService.getById net (row_id resumeData) w'
       = (Ok resumeData, emit (EvSelect (row_id resumeData)) w').
Proof.
  intros net resumeData r w w' Hid Hsel H.
  assert (r = resumeData
          /\ rows (remote w') !! row_id resumeData = Some resumeData) as [-> Hrow].
  { revert H. unfold resumeService.create, retrying, retryWithBackoff.
    apply (retry_loop_ok_result
             (fun v s => v = resumeData
                         /\ rows (remote s) !! row_id resumeData = Some resumeData)).
    intros a s0 v0 s1. apply create_attempt_ok. }
  split; [reflexivity|]. apply getById_found; assumption.
Qed.

Lemma created_record_is_read_back_witness :
  let w' := (resumeService.create Scenario.net_ok Scenario.created_row
               Upload.fresh_world).2 in
  Scenario.created_row = Scenario.created_row
  /\ resumeService.getById Scenario.net_ok "r-1" w'
     = (Ok Scenario.created_row, emit (EvSelect "r-1") w').
Proof.
  intros w'.
  assert (resumeService.create Scenario.net_ok Scenario.created_row
            Upload.fresh_world = (Ok Scenario.created_row, w')) as Hrun
      by (vm_compute; reflexivity).
  apply (created_record_is_read_back Scenario.net_ok Scenario.created_row
           Scenario.created_row Upload.fresh_world w').
  - discriminate.
  - reflexivity.
  - exact Hrun.
Defined.



(** X11 (delete, then read).  When [resumeService.delete] returns, the row
    is gone from the table, and a [getById] for the same id, served by the
    same backend, fails with the error coded [RESUME_NOT_FOUND]. *)
Theorem deleted_record_is_not_found :
  forall (net : Net) (id : string) (w w' : World),
    resumeService.delete net id w = (Ok tt, w') ->
    rows (remote w') !! id = None
    /\ resumeService.getById net id w'
       = (Err (createError "Resume not found" "RESUME_NOT_FOUND"),
          emit (EvSelect id) w').
Proof.
  intros net id w w' H.
  apply delete_ok in H as (Hid & Hsel & Hrows).
  assert (rows (remote w') !! id = None) as Hnone.
  { rewrite Hrows. apply lookup_delete_eq. }
  split; [exact Hnone|]. apply getById_missing; assumption.
Qed.

Lemma deleted_record_is_not_found_witness :
  let w :=
    with_remote (set_rows (insert "r-1" Scenario.created_row)) Upload.fresh_world in
  let w' := (resumeService.delete Scenario.net_ok "r-1" w).2 in
  rows (remote w') !! "r-1" = None
  /\ resumeService.getById Scenario.net_ok "r-1" w'
     = (Err (createError "Resume not found" "RESUME_NOT_FOUND"),
        emit (EvSelect "r-1") w').
Proof.
  intros w w'.
  assert (resumeService.delete Scenario.net_ok "r-1" w = (Ok tt, w')) as Hrun
      by (vm_compute; reflexivity).
  apply (deleted_record_is_not_found Scenario.net_ok "r-1" w w' Hrun).
Defined.

(** ** cleanupFailedUpload: the roll-back *)

Lemma shrinks_refl w : shrinks w w.
Proof. split; reflexivity. Qed.

Lemma shrinks_trans w1 w2 w3 : shrinks w1 w2 -> shrinks w2 w3 -> shrinks w1 w3.
Proof. intros [? ?] [? ?]. split; etrans; eassumption. Qed.

Lemma shrinks_same_remote w w' : remote w' = remote w -> shrinks w w'.
Proof. intros H. unfold shrinks. rewrite H. split; reflexivity. Qed.

Lemma gone_then_shrinks b p w1 w2 w3 :
  gone b p w1 w2 -> shrinks w2 w3 -> gone b p w1 w3.
Proof.
  intros [Hout H12] H23. split.
  - intros Hin. apply Hout. apply (proj1 H23), Hin.
  - eapply shrinks_trans; eassumption.
Qed.

Section Shrinks.
Variable net : Net.

Let S_bind {A B} := @steps_in_bind World shrinks shrinks_trans A B.
Let S_try_catch {A} := @steps_in_try_catch World shrinks shrinks_trans A.

Lemma S_ret {A} (a : A) : steps_in shrinks (ret a).
Proof. intros w. apply shrinks_refl. Qed.

Lemma S_throw {A} e : steps_in shrinks (throw (A := A) e).
Proof. intros w. apply shrinks_refl. Qed.

Lemma S_emit e : steps_in shrinks (modify (emit e)).
Proof. intros w. apply shrinks_same_remote. reflexivity. Qed.

Lemma S_request {A} o message (backend : World -> Answer A * World) :
  (forall w, shrinks w (backend w).2) ->
  steps_in shrinks (request o message backend).
Proof.
  intros Hb w. unfold request. destruct o; cbn; try apply shrinks_refl.
  specialize (Hb w). destruct (backend w). exact Hb.
Qed.

Lemma S_retrying {A} (fn : nat -> M World A) maxRetries b m f :
  (forall a, steps_in shrinks (fn a)) ->
  steps_in shrinks (retrying net fn maxRetries b m f).
Proof.
  intros Hfn. unfold retrying, retryWithBackoff.
  apply steps_in_retry_loop;
    [apply shrinks_refl|apply shrinks_trans|exact Hfn|].
  intros ms w. apply shrinks_same_remote. reflexivity.
Qed.

Lemma S_catch_and_log {A} (m : M World A) warning :
  steps_in shrinks m -> steps_in shrinks (catch_and_log m warning).
Proof.
  intros Hm w. unfold catch_and_log. specialize (Hm w).
  destruct (m w) as [[a|e] w']; cbn in *; [exact Hm|].
  eapply shrinks_trans; [exact Hm|]. apply shrinks_same_remote. reflexivity.
Qed.

Lemma backend_remove_shrinks b p w : shrinks w (backend_remove b p w).2.
Proof.
  unfold backend_remove, shrinks. cbn.
  split; [apply subseteq_difference_l|]; reflexivity.
Qed.

Lemma S_delete_attempt p b t a :
  steps_in shrinks (storageService.delete_attempt net p b t a).
Proof.
  unfold storageService.delete_attempt. apply S_try_catch.
  - apply S_bind; [apply S_emit|]. intros _.
    apply S_bind; [apply S_request, backend_remove_shrinks|].
    intros [[]|m c]; [apply S_ret|apply S_throw].
  - intros e. destruct (negb _); apply S_throw.
Qed.

Lemma S_deleteFile p b t : steps_in shrinks (storageService.deleteFile net p b t).
Proof. apply S_retrying. intros a. apply S_delete_attempt. Qed.

Lemma S_getById id : steps_in shrinks (resumeService.getById net id).
Proof.
  unfold resumeService.getById.
  destruct (String.eqb id EmptyString); [apply S_throw|].
  apply S_bind; [apply S_emit|]. intros _.
  apply S_bind.
  - apply S_request. intros w. unfold backend_select.
    destruct (rows (remote w) !! id); apply shrinks_refl.
  - intros [row|m c]; [apply S_ret|].
    destruct (bool_decide _); apply S_throw.
Qed.

Lemma S_blob_cleanup resume : steps_in shrinks (blob_cleanup net resume).
Proof.
  unfold blob_cleanup. apply S_bind.
  - destruct (negb _); [apply S_catch_and_log, S_deleteFile|apply S_ret].
  - intros _. destruct (image_path resume) as [image|]; [|apply S_ret].
    destruct (negb _); [apply S_catch_and_log, S_deleteFile|apply S_ret].
Qed.

Lemma backend_delete_row_shrinks id w : shrinks w (backend_delete_row id w).2.
Proof.
  unfold backend_delete_row, shrinks. cbn. split; [reflexivity|].
  apply delete_subseteq.
Qed.

Lemma S_delete id : steps_in shrinks (resumeService.delete net id).
Proof.
  destruct (String.eqb_spec id EmptyString) as [->|Hid].
  - apply S_throw.
  - rewrite delete_unfold by exact Hid.
    apply S_bind; [apply S_getById|]. intros resume.
    apply S_bind; [apply S_emit|]. intros _.
    apply S_bind; [apply S_request, backend_delete_row_shrinks|].
    intros [[]|m c]; [apply S_blob_cleanup|apply S_throw].
Qed.

(** A removal whose first request is delivered removes the blob. *)
Lemma deleteFile_delivered p b t w :
  net_remove net (b, p) 1%nat = Delivered ->
  gone b p w (storageService.deleteFile net p b t w).2.
Proof.
  intros Hnet. unfold storageService.deleteFile, retrying, retryWithBackoff.
  cbn [retry_loop].
  unfold storageService.delete_attempt at 1.
  unfold try_catch, bind, modify, request. rewrite Hnet.
  cbn. split.
  - intros Hin. apply elem_of_difference in Hin as [_ Hn].
    apply Hn, elem_of_singleton. reflexivity.
  - split; cbn; [apply subseteq_difference_l|]; reflexivity.
Qed.

Lemma catch_and_log_deleteFile_delivered p b t warning w :
  net_remove net (b, p) 1%nat = Delivered ->
  gone b p w (catch_and_log (storageService.deleteFile net p b t) warning w).2.
Proof.
  intros Hnet. pose proof (deleteFile_delivered p b t w Hnet) as Hg.
  unfold catch_and_log.
  destruct (storageService.deleteFile net p b t w) as [[a|e] w']; cbn in *;
    [exact Hg|].
  eapply gone_then_shrinks; [exact Hg|]. apply shrinks_same_remote. reflexivity.
Qed.

(** The row of a record that is deleted, or that is not there, is not
    there afterwards. *)
Lemma catch_and_log_delete_delivered id warning w :
  id <> EmptyString ->
  net_select net = Delivered -> net_delete_row net = Delivered ->
  rows (remote (catch_and_log (resumeService.delete net id) warning w).2) !! id
  = None.
Proof.
  intros Hid Hsel Hdel. unfold catch_and_log.
  destruct (rows (remote w) !! id) as [row|] eqn:Hrow.
  - assert (resumeService.delete net id w
            = blob_cleanup net row
                (with_remote (set_rows (base.delete id))
                   (emit (EvDeleteRow id) (emit (EvSelect id) w)))) as ->.
    { rewrite delete_unfold by exact Hid. unfold bind at 1.
      rewrite (getById_found net id row w Hid Hsel Hrow).
      unfold bind, modify, request. rewrite Hdel. reflexivity. }
    pose proof (blob_cleanup_effect net row
                  (with_remote (set_rows (base.delete id))
                     (emit (EvDeleteRow id) (emit (EvSelect id) w))))
      as (Hrows & _).
    cbv zeta in Hrows.
    destruct (blob_cleanup net row _) as [[a|e] w']; cbn in *;
      rewrite Hrows; apply lookup_delete_eq.
  - rewrite delete_unfold by exact Hid. unfold bind at 1.
    rewrite (getById_missing net id w Hid Hsel Hrow). cbn. exact Hrow.
Qed.
End Shrinks.

Section CleanupFacts.
Variable env : Upload.Env.
Let net := Upload.env_net env.

Lemma cleanup_files_nil : cleanup_files env [] = ret tt.
Proof. reflexivity. Qed.

Lemma cleanup_files_cons path bucket files :
  cleanup_files env ((path, bucket) :: files)
  = (let* _ :=
       catch_and_log (storageService.deleteFile net path bucket 15000)
         ("Failed to cleanup file " +:+ path +:+ ":") in
     cleanup_files env files).
Proof. reflexivity. Qed.

Lemma never_fails_bind_unit {S} (m : M S unit) (k : unit -> M S unit) :
  never_fails m -> never_fails (k tt) -> never_fails (bind m k).
Proof.
  intros Hm Hk s. unfold bind. specialize (Hm s).
  destruct (m s) as [[[]|e] s']; cbn in Hm; [apply Hk|discriminate].
Qed.

Lemma file_removals_never_fail files :
  never_fails
    (cleanup_files env files).
Proof.
  induction files as [|[path bucket] files IH];
    [rewrite cleanup_files_nil|rewrite cleanup_files_cons].
  - apply never_fails_ret.
  - apply never_fails_bind_unit; [apply never_fails_catch_and_log|exact IH].
Qed.

Lemma cleanupFailedUpload_never_fails state :
  never_fails (Upload.cleanupFailedUpload env state).
Proof.
  unfold Upload.cleanupFailedUpload.
  apply never_fails_bind_unit; [intros w; reflexivity|].
  apply never_fails_bind_unit; [|apply file_removals_never_fail].
  destruct (resumeId state) as [id|]; [|apply never_fails_ret].
  destruct (_ && _); [apply never_fails_catch_and_log|apply never_fails_ret].
Qed.

Lemma S_file_removals files :
  steps_in shrinks
    (cleanup_files env files).
Proof.
  induction files as [|[path bucket] files IH];
    [rewrite cleanup_files_nil|rewrite cleanup_files_cons].
  - apply S_ret.
  - apply (steps_in_bind shrinks shrinks_trans);
      [apply S_catch_and_log, S_deleteFile|]. intros _. exact IH.
Qed.

Lemma S_record_removal state :
  steps_in shrinks
    (cleanup_record env state).
Proof.
  unfold cleanup_record.
  destruct (resumeId state) as [id|]; [|apply S_ret].
  destruct (_ && _); [apply S_catch_and_log, S_delete|apply S_ret].
Qed.

Lemma S_cleanupFailedUpload state :
  steps_in shrinks (Upload.cleanupFailedUpload env state).
Proof.
  unfold Upload.cleanupFailedUpload.
  apply (steps_in_bind shrinks shrinks_trans); [apply S_emit|]. intros _.
  apply (steps_in_bind shrinks shrinks_trans); [apply S_record_removal|].
  intros _. apply S_file_removals.
Qed.

Lemma bind_never_fails_run {S} (m : M S unit) (k : unit -> M S unit) s :
  never_fails m -> bind m k s = k tt (m s).2.
Proof.
  intros Hm. unfold bind. specialize (Hm s).
  destruct (m s) as [[[]|e] s']; cbn in Hm; [reflexivity|discriminate].
Qed.

Lemma record_removal_never_fails state :
  never_fails (cleanup_record env state).
Proof.
  unfold cleanup_record.
  destruct (resumeId state) as [id|]; [|apply never_fails_ret].
  destruct (_ && _); [apply never_fails_catch_and_log|apply never_fails_ret].
Qed.

(** The clean-up, as its two stages one after the other. *)
Lemma cleanupFailedUpload_run state w :
  (Upload.cleanupFailedUpload env state w).2
  = (cleanup_files env (filesUploaded state)
       (cleanup_record env state (emit EvCleanup w)).2).2.
Proof.
  unfold Upload.cleanupFailedUpload.
  rewrite bind_never_fails_run by (intros w0; reflexivity). cbn [modify snd].
  change (match resumeId state with Some _ => _ | None => _ end)
    with (cleanup_record env state).
  rewrite bind_never_fails_run by apply record_removal_never_fails.
  reflexivity.
Qed.

Lemma file_removals_delivered files w :
  (forall target, net_remove net target 1%nat = Delivered) ->
  forall path bucket,
    (path, bucket) ∈ files ->
    (bucket, path) ∉ blobs (remote
      (cleanup_files env files w).2).
Proof.
  intros Hnet. revert w.
  induction files as [|[path0 bucket0] files IH]; intros w path bucket Hin.
  - apply elem_of_nil in Hin. contradiction.
  - rewrite cleanup_files_cons. unfold bind at 1.
    pose proof (catch_and_log_deleteFile_delivered net path0 bucket0 15000
                  ("Failed to cleanup file " +:+ path0 +:+ ":") w
                  (Hnet (bucket0, path0))) as [Hout _].
    pose proof (catch_and_log_ok
                  (storageService.deleteFile net path0 bucket0 15000)
                  ("Failed to cleanup file " +:+ path0 +:+ ":") w) as Hok.
    destruct (catch_and_log _ _ w) as [r w1]. cbn in Hok, Hout. subst r.
    apply elem_of_cons in Hin as [[= -> ->]|Hin].
    + intros Hstill. apply Hout.
      apply (proj1 (S_file_removals files w1)), Hstill.
    + apply IH, Hin.
Qed.

Lemma cleanup_removes_files state w :
  (forall target, net_remove net target 1%nat = Delivered) ->
  forall path bucket,
    (path, bucket) ∈ filesUploaded state ->
    (bucket, path) ∉ blobs (remote (Upload.cleanupFailedUpload env state w).2).
Proof.
  intros Hnet path bucket Hin. rewrite cleanupFailedUpload_run.
  apply file_removals_delivered; assumption.
Qed.

Lemma cleanup_removes_row state w id :
  net_select net = Delivered -> net_delete_row net = Delivered ->
  dbRecordCreated state = true -> resumeId state = Some id ->
  id <> EmptyString ->
  rows (remote (Upload.cleanupFailedUpload env state w).2) !! id = None.
Proof.
  intros Hsel Hdel Hcreated Hid Hne. rewrite cleanupFailedUpload_run.
  eapply lookup_weaken_None;
    [|apply (proj2 (S_file_removals (filesUploaded state) _))].
  unfold cleanup_record. rewrite Hid, Hcreated.
  destruct (String.eqb_spec id EmptyString); [contradiction|]. cbn [negb andb].
  apply catch_and_log_delete_delivered; assumption.
Qed.
End CleanupFacts.

(** X12 (the roll-back).  [cleanupFailedUpload] never raises, whatever the
    network does, and it adds nothing to the backend: no blob and no row
    is there afterwards that was not there before.  When the first request
    of every blob removal is delivered, no file recorded in
    [state.filesUploaded] is left in its bucket.  When the state records a
    created row and the read and the deletion of that row are delivered,
    the row is not in the table afterwards. *)
Theorem cleanupFailedUpload_rolls_back :
  forall (env : Upload.Env) (state : TransactionState) (w : World),
    let net := Upload.env_net env in
    let '(r, w') := Upload.cleanupFailedUpload env state w in
    r = Ok tt
    /\ blobs (remote w') ⊆ blobs (remote w)
    /\ rows (remote w') ⊆ rows (remote w)
    /\ ((forall target, net_remove net target 1%nat = Delivered) ->
        forall path bucket,
          (path, bucket) ∈ filesUploaded state ->
          (bucket, path) ∉ blobs (remote w'))
    /\ (forall id,
          net_select net = Delivered -> net_delete_row net = Delivered ->
          dbRecordCreated state = true -> resumeId state = Some id ->
          id <> EmptyString ->
          rows (remote w') !! id = None).
Proof.
  intros env state w net.
  pose proof (cleanupFailedUpload_never_fails env state w) as Hok.
  pose proof (S_cleanupFailedUpload env state w) as [Hblobs Hrows].
  pose proof (cleanup_removes_files env state w) as Hfiles.
  pose proof (fun id => cleanup_removes_row env state w id) as Hrow.
  destruct (Upload.cleanupFailedUpload env state w) as [r w']. cbn in *.
  repeat split; assumption.
Qed.

(** ** The checks before a submission *)

Section FileChecks.
Import UploadForm.

Lemma validatePDF_valid f :
  isValid (validatePDF f) = true
  <-> file_type f = "application/pdf"
      /\ file_size f <= 20 * MB /\ file_size f <> 0.
Proof.
  unfold validatePDF. cbn [isValid].
  destruct (String.eqb_spec (file_type f) "application/pdf") as [Ht|Ht];
    destruct (Z.gtb_spec (file_size f) (20 * MB)) as [Hs|Hs];
    destruct (Z.eqb_spec (file_size f) 0) as [Hz|Hz]; cbn;
    split; try discriminate; try tauto; try lia;
    intros (? & ? & ?); try contradiction; lia.
Qed.

Lemma validatePDF_errors f :
  isValid (validatePDF f) = true <-> errors (validatePDF f) = [].
Proof.
  unfold validatePDF. cbn [isValid errors].
  destruct (_ ++ _)%list; cbn; split; intros H; try discriminate; reflexivity.
Qed.

Lemma isFileSizeValid_spec f maxSizeMB :
  isFileSizeValid f maxSizeMB = true
  <-> 0 < file_size f <= maxSizeMB * 1024 * 1024.
Proof.
  unfold isFileSizeValid. rewrite andb_true_iff.
  destruct (Z.leb_spec (file_size f) (maxSizeMB * 1024 * 1024));
    destruct (Z.gtb_spec (file_size f) 0); split; intros [? ?];
    try discriminate; try lia; split; reflexivity.
Qed.

End FileChecks.

(** X13 (which files the page accepts).  For a file that is selected, the
    page marks it valid exactly when its type is [application/pdf] and its
    size is more than 0 and at most 20 MB: the 50 MB of the page's own
    check and of its message is never the limit that decides.  The file is
    marked valid exactly when no error is listed, and exactly when the
    error banner is left empty.  A file marked valid passes the two checks
    that [storageService.uploadFile] makes before it sends anything. *)
Theorem selected_file_valid_iff_small_pdf :
  forall f : File,
    let s := UploadForm.handleFileSelect (Some f) in
    let v := UploadForm.sel_fileValidation s in
    (UploadForm.fv_isValid v = true
     <-> file_type f = "application/pdf"
         /\ 0 < file_size f <= 20 * 1024 * 1024)
    /\ (UploadForm.fv_isValid v = true <-> UploadForm.fv_errors v = [])
    /\ (UploadForm.fv_isValid v = true <-> UploadForm.sel_error s = EmptyString)
    /\ (UploadForm.fv_isValid v = true ->
        forall (net : Net) (path : string) (o : UploadOptions),
          storageService.uploadFile net (Some f) path o
          = (let* _ :=
               (if skipHealthCheck o then ret tt
                else modify (with_health (fun h =>
                       (healthCheck.testStorageConnection
                          (net_probe_storage net) h).2))) in
             retrying net (storageService.upload_attempt net path o)
               (maxRetries o) 1000 10000 2)).
Proof.
  intros f s v.
  assert (UploadForm.fv_isValid v = true
          <-> file_type f = "application/pdf"
              /\ 0 < file_size f <= 20 * 1024 * 1024) as Hiff.
  { subst v s. cbn [UploadForm.handleFileSelect UploadForm.sel_fileValidation
                    UploadForm.fv_isValid].
    rewrite !andb_true_iff, validatePDF_valid, isFileSizeValid_spec.
    unfold UploadForm.isValidPDF, UploadForm.MB. split.
    - intros [[(Ht & Hs & Hz) [Hpos _]] _]. split; [exact Ht|lia].
    - intros [Ht [Hpos Hs]]. repeat split; try lia; try assumption.
      rewrite Ht. reflexivity. }
  split; [exact Hiff|]. split; [|split].
  - subst v s. cbn [UploadForm.handleFileSelect UploadForm.sel_fileValidation
                    UploadForm.fv_isValid UploadForm.fv_errors].
    split.
    + intros H. apply andb_true_iff in H as [H Ht].
      apply andb_true_iff in H as [Hp Hs].
      apply validatePDF_errors in Hp. rewrite Hp, Hs, Ht. reflexivity.
    + intros H. apply app_eq_nil in H as [Hp H].
      apply app_eq_nil in H as [Hs Ht].
      apply validatePDF_errors in Hp. rewrite Hp.
      destruct (UploadForm.isFileSizeValid f 50); [|discriminate].
      destruct (UploadForm.isValidPDF f); [reflexivity|discriminate].
  - subst v s. cbn [UploadForm.handleFileSelect UploadForm.sel_fileValidation
                    UploadForm.sel_error].
    destruct (UploadForm.fv_isValid _); cbn [negb]; split; intros H;
      try reflexivity; discriminate.
  - intros Hv net path o. apply Hiff in Hv as [_ [Hpos Hs]].
    unfold storageService.uploadFile.
    destruct (Z.eqb_spec (file_size f) 0); [lia|].
    destruct (Z.gtb_spec (file_size f) (50 * 1024 * 1024)); [lia|].
    reflexivity.
Qed.

Section FormChecks.
Import UploadForm.

Lemma js_length_skip s r :
  perplexity.skip_space s = Some r -> (js_length r <= js_length s)%nat.
Proof.
  destruct s as [|c [|d [|e s']]]; cbn [perplexity.skip_space js_length].
  - discriminate.
  - destruct (perplexity.is_space c); [|discriminate]. intros [= <-]. cbn. lia.
  - destruct (perplexity.is_space c); [intros [= <-]; cbn; lia|].
    destruct (perplexity.is_space2 c d); [|discriminate]. intros [= <-]. cbn. lia.
  - destruct (perplexity.is_space c); [intros [= <-]; cbn; lia|].
    destruct (perplexity.is_space2 c d); [intros [= <-]; cbn; lia|].
    destruct (perplexity.is_space3 c d e); [|discriminate].
    intros [= <-]. cbn. lia.
Qed.

Lemma js_length_trimStart s :
  (js_length (perplexity.trimStart s) <= js_length s)%nat.
Proof.
  induction s as [s Hnone|s r Hsome IH] using skip_ind;
    rewrite trimStart_unfold.
  - rewrite Hnone. reflexivity.
  - rewrite Hsome. apply js_length_skip in Hsome. lia.
Qed.

Lemma js_length_trimEnd s :
  (js_length (perplexity.trimEnd s) <= js_length s)%nat.
Proof.
  induction s as [|c s IH]; cbn [perplexity.trimEnd js_length]; [lia|].
  destruct (perplexity.all_space (String c s)); cbn [js_length]; lia.
Qed.

Lemma js_length_trim s : (js_length (perplexity.trim s) <= js_length s)%nat.
Proof.
  unfold perplexity.trim.
  pose proof (js_length_trimEnd (perplexity.trimStart s)).
  pose proof (js_length_trimStart s). lia.
Qed.

(** A required field with both bounds passes when it is not blank and
    its length, untrimmed, is within the bounds. *)
Lemma check_field_passes field value lo hi :
  check_field field value
    {| required := true; minLength := Some (Datatypes.S lo);
       maxLength := Some (Datatypes.S hi) |} = None
  <-> perplexity.trim value <> EmptyString
      /\ (Datatypes.S lo <= js_length value <= Datatypes.S hi)%nat.
Proof.
  unfold check_field, below, above. cbn [required minLength maxLength negb andb].
  rewrite andb_false_r.
  destruct (String.eqb_spec value EmptyString) as [->|Hv]; cbn [orb].
  - split; [discriminate|]. intros [Ht _]. exfalso. apply Ht. reflexivity.
  - destruct (String.eqb_spec (perplexity.trim value) EmptyString) as [Ht|Ht].
    + split; [discriminate|]. intros [Hn _]. contradiction.
    + destruct (Nat.ltb_spec (js_length value) (Datatypes.S lo));
        [split; [discriminate|intros [_ ?]; lia]|].
      destruct (Nat.ltb_spec (Datatypes.S hi) (js_length value));
        [split; [discriminate|intros [_ ?]; lia]|].
      split; [|reflexivity]. intros _. split; [assumption|lia].
Qed.

Lemma validateForm_valid formData :
  form_isValid (validateForm formData) = true
  <-> check_field "companyName" (fd_companyName formData)
        {| required := true; minLength := Some 2%nat; maxLength := Some 100%nat |}
      = None
      /\ check_field "jobTitle" (fd_jobTitle formData)
           {| required := true; minLength := Some 3%nat; maxLength := Some 200%nat |}
         = None
      /\ check_field "jobDescription" (fd_jobDescription formData)
           {| required := true; minLength := Some 50%nat;
              maxLength := Some 5000%nat |}
         = None.
Proof.
  unfold validateForm, validateFormData, rules.
  cbn [flat_map List.find fst snd String.eqb Ascii.eqb Bool.eqb form_isValid app].
  destruct (check_field "companyName" _ _);
    destruct (check_field "jobTitle" _ _);
    destruct (check_field "jobDescription" _ _); cbn;
    split; try discriminate; try reflexivity;
    try (intros (? & ? & ?); discriminate); repeat split.
Qed.
End FormChecks.

(** X14 (what reaches [handleAnalyze]).  [handleSubmit] calls
    [handleAnalyze] only for a signed-in user, with the file that is
    selected and marked valid, and with the three texts of the form
    trimmed.  Each text handed over is then non-empty and no longer than
    the limit of its field (100, 200 and 5000, counted as [.length] counts,
    in UTF-16 code units); the lower limits (2, 3 and 50) were met by the
    texts as typed, before trimming.  The sign-in guard at the head of
    [handleAnalyze] lets such a call through. *)
Theorem handleSubmit_hands_over_checked_input :
  forall (p : UploadForm.Page) (args : Upload.AnalyzeArgs),
    UploadForm.handleSubmit p = UploadForm.Analyze args ->
    let typed := UploadForm.page_formData p in
    (exists c rest,
        UploadForm.page_user p = Some (String c rest)
        /\ Upload.user args = Some (String c rest)
        /\ forall env,
             Upload.handleAnalyze env args
             = (let* _ := modify (Upload.begin env) in
                Upload.run_transaction env args (String c rest)))
    /\ UploadForm.page_file p = Some (Upload.file args)
    /\ UploadForm.fv_isValid (UploadForm.page_fileValidation p) = true
    /\ Upload.resumeMode args = UploadForm.page_resumeMode p
    /\ (Upload.companyName args = perplexity.trim (UploadForm.fd_companyName typed)
        /\ Upload.companyName args <> EmptyString
        /\ (UploadForm.js_length (Upload.companyName args) <= 100)%nat
        /\ (2 <= UploadForm.js_length (UploadForm.fd_companyName typed))%nat)
    /\ (Upload.jobTitle args = perplexity.trim (UploadForm.fd_jobTitle typed)
        /\ Upload.jobTitle args <> EmptyString
        /\ (UploadForm.js_length (Upload.jobTitle args) <= 200)%nat
        /\ (3 <= UploadForm.js_length (UploadForm.fd_jobTitle typed))%nat)
    /\ (Upload.jobDescription args
        = perplexity.trim (UploadForm.fd_jobDescription typed)
        /\ Upload.jobDescription args <> EmptyString
        /\ (UploadForm.js_length (Upload.jobDescription args) <= 5000)%nat
        /\ (50 <= UploadForm.js_length (UploadForm.fd_jobDescription typed))%nat).
Proof.
  intros p args H typed. subst typed. unfold UploadForm.handleSubmit in H.
  destruct (UploadForm.page_user p) as [[|c rest]|] eqn:Hu; try discriminate.
  destruct (UploadForm.page_file p) as [file|] eqn:Hf; [|discriminate].
  destruct (UploadForm.fv_isValid (UploadForm.page_fileValidation p)) eqn:Hv;
    [|discriminate].
  cbn [negb] in H.
  destruct (UploadForm.form_isValid (UploadForm.validateForm
              (UploadForm.page_formData p))) eqn:Hform.
  2:{ cbn [negb] in H.
      destruct (UploadForm.form_errors _) as [|[? ?] ?]; discriminate. }
  cbn [negb] in H. injection H as <-.
  apply validateForm_valid in Hform as (Hc & Ht & Hd).
  apply check_field_passes in Hc as [Hc1 Hc2].
  apply check_field_passes in Ht as [Ht1 Ht2].
  apply check_field_passes in Hd as [Hd1 Hd2].
  pose proof (js_length_trim (UploadForm.fd_companyName (UploadForm.page_formData p))).
  pose proof (js_length_trim (UploadForm.fd_jobTitle (UploadForm.page_formData p))).
  pose proof (js_length_trim (UploadForm.fd_jobDescription (UploadForm.page_formData p))).
  cbn [Upload.user Upload.companyName Upload.jobTitle Upload.jobDescription
       Upload.file Upload.resumeMode].
  split.
  { exists c, rest. split; [reflexivity|]. split; [reflexivity|].
    intros env. unfold Upload.handleAnalyze. cbn [Upload.user]. reflexivity. }
  repeat split; try assumption; try lia.
Qed.

Lemma handleSubmit_hands_over_checked_input_witness :
  let p :=
    {| UploadForm.page_user := Some "u1";
       UploadForm.page_file := Some (Upload.file Scenario.args);
       UploadForm.page_fileValidation :=
         UploadForm.sel_fileValidation
           (UploadForm.handleFileSelect (Some (Upload.file Scenario.args)));
       UploadForm.page_formData :=
         {| UploadForm.fd_companyName := " Acme ";
            UploadForm.fd_jobTitle := "Backend Engineer";
            UploadForm.fd_jobDescription :=
              "Design and run the services behind the public API." |};
       UploadForm.page_resumeMode := "soft" |} in
  UploadForm.page_file p = Some (Upload.file Scenario.args)
  /\ UploadForm.fv_isValid (UploadForm.page_fileValidation p) = true.
Proof.
  intros p.
  assert (UploadForm.handleSubmit p = UploadForm.Analyze Scenario.args) as Hrun
      by (vm_compute; reflexivity).
  pose proof (handleSubmit_hands_over_checked_input p Scenario.args Hrun)
    as (_ & Hfile & Hvalid & _).
  split; assumption.
Defined.

(** ** handleAnalyze: what a failed submission leaves behind *)

Section Hoare.
Context {S : Type}.

Lemma hoare_ret {A} (P : S -> Prop) (a : A) (Q : A -> S -> Prop) E :
  (forall s, P s -> Q a s) -> hoare P (ret a) Q E.
Proof. intros H s Hs. apply H, Hs. Qed.

Lemma hoare_throw {A} (P : S -> Prop) e (Q : A -> S -> Prop) (E : S -> Prop) :
  (forall s, P s -> E s) -> hoare P (throw e) Q E.
Proof. intros H s Hs. apply H, Hs. Qed.

Lemma hoare_modify (P : S -> Prop) f (Q : unit -> S -> Prop) E :
  (forall s, P s -> Q tt (f s)) -> hoare P (modify f) Q E.
Proof. intros H s Hs. apply H, Hs. Qed.

Lemma hoare_gets {A} (P : S -> Prop) (f : S -> A) (Q : A -> S -> Prop) E :
  (forall s, P s -> Q (f s) s) -> hoare P (gets f) Q E.
Proof. intros H s Hs. apply H, Hs. Qed.

Lemma hoare_bind {A B} (P : S -> Prop) (m : M S A) (k : A -> M S B)
    (Q : A -> S -> Prop) (Q' : B -> S -> Prop) E :
  hoare P m Q E -> (forall a, hoare (Q a) (k a) Q' E) ->
  hoare P (bind m k) Q' E.
Proof.
  intros Hm Hk s Hs. unfold bind. specialize (Hm s Hs).
  destruct (m s) as [[a|e] s']; [apply Hk, Hm|exact Hm].
Qed.

Lemma hoare_try_catch {A} (P : S -> Prop) (m : M S A) h
    (Q : A -> S -> Prop) (E1 E : S -> Prop) :
  hoare P m Q E1 -> (forall e, hoare E1 (h e) Q E) ->
  hoare P (try_catch m h) Q E.
Proof.
  intros Hm Hh s Hs. unfold try_catch. specialize (Hm s Hs).
  destruct (m s) as [[a|e] s']; [exact Hm|apply Hh, Hm].
Qed.

Lemma hoare_weaken {A} (P P' : S -> Prop) (m : M S A)
    (Q Q' : A -> S -> Prop) (E E' : S -> Prop) :
  hoare P m Q E ->
  (forall s, P' s -> P s) -> (forall a s, Q a s -> Q' a s) ->
  (forall s, E s -> E' s) ->
  hoare P' m Q' E'.
Proof.
  intros Hm HP HQ HE s Hs. specialize (Hm s (HP s Hs)).
  destruct (m s) as [[a|e] s']; [apply HQ, Hm|apply HE, Hm].
Qed.

(** Each attempt keeps [P] when it fails, and so does the wait. *)
Lemma hoare_retry_loop {A} (P : S -> Prop) sleep jitter (fn : nat -> M S A)
    (Q : A -> S -> Prop) maxRetries baseDelay maxDelay backoffFactor
    remaining attempt lastError :
  (forall a, hoare P (fn a) Q P) ->
  (forall ms s, P s -> P (sleep ms s)) ->
  hoare P (retry_loop sleep jitter fn maxRetries baseDelay maxDelay
             backoffFactor remaining attempt lastError) Q P.
Proof.
  intros Hfn Hsleep. revert attempt lastError.
  induction remaining as [|r IH]; intros attempt lastError s Hs.
  - exact Hs.
  - cbn [retry_loop]. specialize (Hfn attempt s Hs).
    destruct (fn attempt s) as [[v|e] s']; [exact Hfn|].
    destruct (attempt =? maxRetries)%nat; [exact Hfn|].
    apply IH, Hsleep, Hfn.
Qed.
End Hoare.

Lemma core_eq_refl w : core_eq w w.
Proof. split; reflexivity. Qed.

Lemma core_eq_trans w1 w2 w3 : core_eq w1 w2 -> core_eq w2 w3 -> core_eq w1 w3.
Proof. intros [? ?] [? ?]. split; congruence. Qed.

(** A computation that leaves the core alone keeps every property of it. *)
Lemma hoare_frame {A} (P E : World -> Prop) (m : M World A) :
  core_pred P -> (forall w, P w -> E w) -> core_pred E ->
  steps_in core_eq m -> hoare P m (fun _ => P) E.
Proof.
  intros HP HPE HE Hm w Hw. specialize (Hm w).
  destruct (m w) as [[a|e] w']; cbn in Hm.
  - eapply HP; eassumption.
  - eapply HE; [eassumption|]. apply HPE, Hw.
Qed.

Section CoreSteps.
Variable env : Upload.Env.

Let C_bind {A B} := @steps_in_bind World core_eq core_eq_trans A B.
Let C_try_catch {A} := @steps_in_try_catch World core_eq core_eq_trans A.

Lemma C_ret {A} (a : A) : steps_in core_eq (ret a).
Proof. intros w. apply core_eq_refl. Qed.

Lemma C_throw {A} e : steps_in core_eq (throw (A := A) e).
Proof. intros w. apply core_eq_refl. Qed.

Lemma C_gets {A} (f : World -> A) : steps_in core_eq (gets f).
Proof. intros w. apply core_eq_refl. Qed.

Lemma C_modify f : (forall w, core_eq w (f w)) -> steps_in core_eq (modify f).
Proof. intros H w. apply H. Qed.

Lemma C_setter (f : UI -> UI) : steps_in core_eq (modify (with_ui f)).
Proof. apply C_modify. intros w. split; reflexivity. Qed.

Lemma C_emit e : steps_in core_eq (modify (emit e)).
Proof. apply C_modify. intros w. split; reflexivity. Qed.

Lemma page_onProgress_core d w : core_eq w (Upload.page_onProgress d w).
Proof. unfold Upload.page_onProgress. destruct (mounted w); split; reflexivity. Qed.

Lemma C_track (m : M (Z * World) jsval) :
  (forall c w, core_eq w (m (c, w)).2.2) -> steps_in core_eq (Upload.track m).
Proof.
  intros H w. unfold Upload.track. specialize (H (tracker_step w) w).
  destruct (m (tracker_step w, w)) as [r [c w']]. cbn in *.
  destruct H as [? ?]. split; assumption.
Qed.

Lemma C_tracker_update step message :
  steps_in core_eq (Upload.tracker_update env step message).
Proof. apply C_track. intros c w. cbn. apply page_onProgress_core. Qed.

Lemma C_tracker_increment message :
  steps_in core_eq (Upload.tracker_increment env message).
Proof. apply C_track. intros c w. cbn. apply page_onProgress_core. Qed.

Lemma C_tracker_complete message :
  steps_in core_eq (Upload.tracker_complete env message).
Proof. apply C_track. intros c w. cbn. apply page_onProgress_core. Qed.

Lemma C_checkpoint : steps_in core_eq Upload.checkpoint.
Proof.
  unfold Upload.checkpoint. apply C_bind; [apply C_gets|].
  intros [[|]|]; [apply C_throw|apply C_ret|apply C_ret].
Qed.

Lemma C_lift_result {A} (r : Result A) : steps_in core_eq (Upload.lift_result r).
Proof. destruct r; [apply C_ret|apply C_throw]. Qed.

Lemma C_preflight : steps_in core_eq (Upload.preflight env).
Proof. apply C_modify. intros w. split; reflexivity. Qed.

Lemma C_analyze : steps_in core_eq (Upload.analyze env).
Proof.
  intros w. unfold Upload.analyze.
  destruct (perplexity.analyzeResumeWithPerplexity _ _) as [r events]. cbn.
  revert w. induction events as [|e events IH]; intros w; cbn.
  - apply core_eq_refl.
  - eapply core_eq_trans; [|apply IH]. split; reflexivity.
Qed.

Lemma C_completion : steps_in core_eq (Upload.completion env).
Proof.
  unfold Upload.completion.
  apply C_bind; [apply C_tracker_complete|]. intros _.
  apply C_bind; [apply C_emit|]. intros _.
  apply C_bind; [apply C_gets|]. intros [|]; [apply C_emit|apply C_ret].
Qed.

Lemma C_user_may_cancel s :
  Upload.env_cancel env = None ->
  steps_in core_eq (Upload.user_may_cancel env s).
Proof.
  intros no_cancel. rewrite user_may_cancel_none by exact no_cancel.
  apply C_ret.
Qed.
End CoreSteps.

(** The steps of the page that leave the core alone, by their head. *)
Ltac core_step_of no_cancel :=
  lazymatch goal with
  | |- steps_in core_eq (Upload.setIsProcessing _) => apply C_setter
  | |- steps_in core_eq (Upload.setError _) => apply C_setter
  | |- steps_in core_eq (Upload.setProgress _) => apply C_setter
  | |- steps_in core_eq (Upload.setStatusText _) => apply C_setter
  | |- steps_in core_eq (Upload.setCurrentStep _) => apply C_setter
  | |- steps_in core_eq (Upload.setTransactionState _) => apply C_setter
  | |- steps_in core_eq (Upload.tracker_update _ _ _) => apply C_tracker_update
  | |- steps_in core_eq (Upload.tracker_increment _ _) =>
      apply C_tracker_increment
  | |- steps_in core_eq (Upload.tracker_complete _ _) => apply C_tracker_complete
  | |- steps_in core_eq Upload.checkpoint => apply C_checkpoint
  | |- steps_in core_eq (Upload.preflight _) => apply C_preflight
  | |- steps_in core_eq (Upload.user_may_cancel _ _) =>
      apply C_user_may_cancel; exact no_cancel
  | |- steps_in core_eq (gets _) => apply C_gets
  | |- steps_in core_eq (ret _) => apply C_ret
  | |- steps_in core_eq (throw _) => apply C_throw
  | |- steps_in core_eq (modify (emit _)) => apply C_emit
  | |- steps_in core_eq (modify (with_local_imagePath _)) =>
      apply C_modify; intros ?; split; reflexivity
  | |- steps_in core_eq (if _ then throw _ else ret _) =>
      match goal with
      | |- steps_in core_eq (if ?b then _ else _) =>
          destruct b; [apply C_throw|apply C_ret]
      end
  end.

(** The same, with the steps that read what the outside world decided. *)
Ltac core_step_all no_cancel :=
  lazymatch goal with
  | |- steps_in core_eq (Upload.lift_result _) => apply C_lift_result
  | |- steps_in core_eq (Upload.analyze _) => apply C_analyze
  | |- _ => core_step_of no_cancel
  end.

Section Accounting.
Variable net : Net.
Variable uuid : string.
Variable w0 : World.

Lemma accounted_core : core_pred (accounted uuid w0).
Proof.
  intros w w' [Hr Hc] [Hb Hrows Hflag Hid].
  constructor; rewrite ?Hr, ?Hc; assumption.
Qed.

Lemma accounted_but_core target : core_pred (accounted_but target uuid w0).
Proof.
  intros w w' [Hr Hc] [Hb Hrows Hflag Hid].
  constructor; rewrite ?Hr, ?Hc; assumption.
Qed.

Lemma accounted_but_row_core : core_pred (accounted_but_row uuid w0).
Proof.
  intros w w' [Hr Hc] [Hb Hrows Hid].
  constructor; rewrite ?Hr, ?Hc; assumption.
Qed.

Lemma accounted_weaken target w : accounted uuid w0 w -> accounted_but target uuid w0 w.
Proof.
  intros [Hb Hrows Hflag Hid]. constructor; try assumption.
  intros blob Hin. destruct (Hb blob Hin); auto.
Qed.

Lemma notify_core {N} (callback : option (N -> World -> World)) n w :
  keeps_core callback ->
  exists w', notify callback n w = (Ok tt, w') /\ core_eq w w'.
Proof.
  intros Hk. destruct callback as [f|]; cbn.
  - exists (f n w). split; [reflexivity|]. apply (Hk f eq_refl).
  - exists w. split; [reflexivity|apply core_eq_refl].
Qed.

(** One upload attempt: the blob is there when it returns, and nothing
    has changed when it raises. *)
Lemma upload_attempt_accounted path o attempt :
  keeps_core (onProgress o) -> keeps_core (onRetry o) ->
  hoare (accounted uuid w0)
    (storageService.upload_attempt net path o attempt)
    (fun _ => accounted_but (bucket o, path) uuid w0)
    (accounted uuid w0).
Proof.
  intros Hp Hr w Hw.
  assert (forall e w1, core_eq w w1 ->
            match
              (if storageService.no_retry_upload_error e
               then throw (A := string) e
               else
                 let* _ :=
                   (if (attempt <? maxRetries o)%nat
                    then notify (onRetry o)
                           (NoticeRetry attempt (maxRetries o) (exn_message e))
                    else ret tt) in
                 throw e) w1
            with
            | (Ok a, s') => accounted_but (bucket o, path) uuid w0 s'
            | (Err _, s') => accounted uuid w0 s'
            end) as Hhandler.
  { intros e w1 Hcore.
    destruct (storageService.no_retry_upload_error e).
    - cbn. eapply accounted_core; eassumption.
    - unfold bind. destruct (attempt <? maxRetries o)%nat.
      + destruct (notify_core (onRetry o)
                    (NoticeRetry attempt (maxRetries o) (exn_message e)) w1 Hr)
          as (w2 & -> & Hc2).
        cbn. eapply accounted_core; [|exact Hw].
        eapply core_eq_trans; eassumption.
      + cbn. eapply accounted_core; eassumption. }
  unfold storageService.upload_attempt, try_catch.
  destruct (notify_core (onProgress o) (NoticeUploading attempt) w Hp)
    as (w1 & Hn1 & Hc1).
  unfold bind at 1. rewrite Hn1. unfold bind at 1. cbn [modify].
  unfold bind at 1. unfold request.
  assert (core_eq w (emit (EvUpload (bucket o) path attempt) w1)) as Hc1'.
  { destruct Hc1 as [? ?]. split; assumption. }
  destruct (net_upload net (bucket o, path) attempt) as [|message code|message|].
  - unfold backend_upload.
    destruct (bool_decide _ && negb (upsert o)).
    + destruct (includes _ _ && negb (upsert o)); cbn [throw];
        apply Hhandler; exact Hc1'.
    + set (w2 := with_remote _ _).
      destruct (notify_core (onProgress o) (NoticeComplete attempt) w2 Hp)
        as (w3 & Hn3 & Hc3).
      unfold bind. rewrite Hn3. cbn [ret].
      eapply accounted_but_core; [exact Hc3|].
      destruct Hw as [Hb Hrows Hflag Hid]. destruct Hc1 as [Hr1 Hs1].
      subst w2. constructor; cbn; rewrite ?Hr1, ?Hs1; try assumption.
      intros blob Hin. apply elem_of_union in Hin as [Hin|Hin].
      * right. right. apply elem_of_singleton in Hin. exact Hin.
      * destruct (Hb blob Hin); auto.
  - destruct (includes _ _ && negb (upsert o)); cbn [throw];
      apply Hhandler; exact Hc1'.
  - apply Hhandler; exact Hc1'.
  - apply Hhandler; exact Hc1'.
Qed.

Lemma sleep_core ms w : core_eq w (sleep ms w).
Proof. split; reflexivity. Qed.

Lemma uploadFile_accounted f path o :
  keeps_core (onProgress o) -> keeps_core (onRetry o) ->
  hoare (accounted uuid w0)
    (storageService.uploadFile net (Some f) path o)
    (fun _ => accounted_but (bucket o, path) uuid w0)
    (accounted uuid w0).
Proof.
  intros Hp Hr. unfold storageService.uploadFile.
  destruct (file_size f =? 0)%Z; [apply hoare_throw; auto|].
  destruct (file_size f >? 50 * 1024 * 1024)%Z; [apply hoare_throw; auto|].
  eapply hoare_bind.
  - apply (hoare_frame (accounted uuid w0) (accounted uuid w0));
      [apply accounted_core|auto|apply accounted_core|].
    destruct (skipHealthCheck o); [apply C_ret|].
    apply C_modify. intros w. split; reflexivity.
  - intros []. unfold retrying, retryWithBackoff.
    apply hoare_retry_loop.
    + intros a. apply upload_attempt_accounted; assumption.
    + intros ms w Hw. eapply accounted_core; [apply sleep_core|exact Hw].
Qed.

(** One insert attempt of the row of [uuid]. *)
Lemma create_attempt_accounted row attempt :
  row_id row = uuid ->
  hoare (accounted uuid w0)
    (resumeService.create_attempt net row attempt)
    (fun _ => accounted_but_row uuid w0)
    (accounted uuid w0).
Proof.
  intros Hid w Hw.
  assert (core_eq w (emit (EvInsert (row_id row) attempt) w)) as Hc
      by (split; reflexivity).
  pose proof (accounted_core _ _ Hc Hw) as Hw1.
  unfold resumeService.create_attempt, try_catch, bind, modify, request.
  destruct (net_insert net attempt); cbn.
  - unfold backend_insert. cbn.
    destruct (rows (remote w) !! row_id row) eqn:Hrow; cbn.
    + destruct (negb _); exact Hw1.
    + destruct Hw as [Hb Hrows Hflag Hi]. constructor; cbn; try assumption.
      rewrite Hid. rewrite delete_insert_eq. exact Hrows.
  - destruct (negb _); exact Hw1.
  - destruct (negb _); exact Hw1.
  - destruct (negb _); exact Hw1.
Qed.

Lemma create_accounted row :
  row_id row = uuid ->
  hoare (accounted uuid w0) (resumeService.create net row)
    (fun _ => accounted_but_row uuid w0) (accounted uuid w0).
Proof.
  intros Hid. unfold resumeService.create, retrying, retryWithBackoff.
  apply hoare_retry_loop.
  - intros a. apply create_attempt_accounted, Hid.
  - intros ms w Hw. eapply accounted_core; [apply sleep_core|exact Hw].
Qed.

Lemma accounted_with_row_core : core_pred (accounted_with_row uuid w0).
Proof.
  intros w w' Hc [Hw Hflag]. split.
  - eapply accounted_core; eassumption.
  - destruct Hc as [_ Hs]. rewrite Hs. exact Hflag.
Qed.

Lemma update_attempt_accounted fb attempt :
  hoare (accounted_with_row uuid w0)
    (resumeService.update_attempt net uuid fb attempt)
    (fun _ => accounted_with_row uuid w0) (accounted_with_row uuid w0).
Proof.
  intros w Hw.
  assert (core_eq w (emit (EvUpdate uuid fb attempt) w)) as Hc
      by (split; reflexivity).
  pose proof (accounted_with_row_core _ _ Hc Hw) as Hw1.
  unfold resumeService.update_attempt, try_catch, bind, modify, request.
  destruct (net_update net attempt); cbn.
  - unfold backend_update. cbn.
    destruct (rows (remote w) !! uuid) as [before|] eqn:Hrow; cbn.
    + destruct Hw as [[Hb Hrows Hflag Hi] Hcreated].
      split; [|exact Hcreated]. constructor; cbn; try assumption.
      * rewrite delete_insert_eq. exact Hrows.
      * intros Hf. rewrite Hcreated in Hf. discriminate.
    + try destruct (negb _); exact Hw1.
  - destruct (bool_decide _); cbn; try destruct (negb _); exact Hw1.
  - destruct (negb _); exact Hw1.
  - destruct (negb _); exact Hw1.
Qed.

Lemma updateFeedback_accounted fb :
  hoare (accounted_with_row uuid w0) (resumeService.updateFeedback net uuid fb)
    (fun _ => accounted_with_row uuid w0) (accounted_with_row uuid w0).
Proof.
  unfold resumeService.updateFeedback.
  destruct (_ || _); [apply hoare_throw; auto|].
  unfold retrying, retryWithBackoff. apply hoare_retry_loop.
  - intros a. apply update_attempt_accounted.
  - intros ms w Hw. eapply accounted_with_row_core; [apply sleep_core|exact Hw].
Qed.
End Accounting.

Section TransactionAccount.
Variable env : Upload.Env.
Variable args : Upload.AnalyzeArgs.
Variable userId : string.
Variable w0 : World.
Hypothesis no_cancel : Upload.env_cancel env = None.

Let net := Upload.env_net env.
Let uuid := Upload.env_uuid env.
Let Acc := accounted uuid w0.
Let AccRow := accounted_with_row uuid w0.

Lemma frame_acc {A} (m : M World A) :
  steps_in core_eq m -> hoare Acc m (fun _ => Acc) Acc.
Proof.
  apply hoare_frame; [apply accounted_core|auto|apply accounted_core].
Qed.

Lemma frame_acc_row {A} (m : M World A) :
  steps_in core_eq m -> hoare AccRow m (fun _ => AccRow) Acc.
Proof.
  apply hoare_frame;
    [apply accounted_with_row_core|intros w [Hw _]; exact Hw|apply accounted_core].
Qed.

Ltac core_step := core_step_all no_cancel.

Ltac frames lemma :=
  repeat (eapply hoare_bind; [apply lemma; core_step|intros ?]).

Lemma pdf_callbacks_keep_core :
  keeps_core (onProgress Upload.pdf_options)
  /\ keeps_core (onRetry Upload.pdf_options).
Proof.
  split; intros f [= <-] n w.
  - unfold Upload.pdf_onProgress.
    destruct (negb (mounted w)); [apply core_eq_refl|].
    destruct n; split; reflexivity.
  - unfold Upload.pdf_onRetry.
    destruct n; try apply core_eq_refl.
    destruct (mounted w); split; reflexivity.
Qed.

Lemma image_callbacks_keep_core :
  keeps_core (onProgress Upload.image_options)
  /\ keeps_core (onRetry Upload.image_options).
Proof. split; intros f [=]. Qed.

Lemma record_file path bucket (f : TransactionState -> TransactionState) w :
  filesUploaded (f (currentState w)) = filesUploaded (currentState w) ->
  dbRecordCreated (f (currentState w)) = dbRecordCreated (currentState w) ->
  resumeId (f (currentState w)) = resumeId (currentState w) ->
  accounted_but (bucket, path) uuid w0 w ->
  Acc (with_currentState (fun st => push_file path bucket (f st)) w).
Proof.
  intros Hfiles Hflag Hid [Hb Hrows Hf Hi]. constructor; cbn.
  - intros blob Hin. destruct (Hb blob Hin) as [H|[H|H]].
    + left. exact H.
    + right. rewrite Hfiles. apply elem_of_app. left. exact H.
    + right. subst blob. apply elem_of_app. right. cbn.
      apply elem_of_cons. left. reflexivity.
  - exact Hrows.
  - rewrite Hflag. exact Hf.
  - rewrite Hid. exact Hi.
Qed.

Lemma generate_preview_accounted :
  hoare Acc (Upload.generate_preview env userId) (fun _ => Acc) Acc.
Proof using no_cancel.
  unfold Upload.generate_preview.
  eapply hoare_bind; [apply frame_acc; core_step|intros ?].
  eapply hoare_try_catch with (E1 := Acc).
  - frames @frame_acc.
    match goal with |- hoare _ (match ?x with Some _ => _ | None => _ end) _ _ =>
      destruct x as [imageFile|] end; [|apply hoare_ret; auto].
    frames @frame_acc.
    eapply hoare_bind;
      [apply uploadFile_accounted; apply image_callbacks_keep_core|intros ?].
    eapply hoare_bind with (Q := fun _ => Acc).
    + apply hoare_modify. intros w Hw.
      apply (record_file _ "resume-images" (set_imagePath _)); auto.
    + intros ?. apply frame_acc. core_step.
  - intros e. frames @frame_acc. apply frame_acc. core_step.
Qed.

Lemma steps_to_record_accounted :
  hoare Acc (Upload.steps_to_record env args userId) (fun _ => AccRow) Acc.
Proof using no_cancel.
  unfold Upload.steps_to_record.
  frames @frame_acc.
  eapply hoare_bind;
    [apply uploadFile_accounted; apply pdf_callbacks_keep_core|intros ?].
  eapply hoare_bind with (Q := fun _ => Acc).
  { apply hoare_modify. intros w Hw.
    apply (record_file _ "resumes" (set_pdfPath _)); auto. }
  intros ?. frames @frame_acc.
  eapply hoare_bind; [apply generate_preview_accounted|intros ?].
  frames @frame_acc.
  eapply hoare_bind; [apply create_accounted; reflexivity|intros ?].
  eapply hoare_bind with (Q := fun _ => AccRow).
  { apply hoare_modify. intros w [Hb Hrows Hi]. split; [|reflexivity].
    constructor; cbn; try assumption. discriminate. }
  intros ?. frames @frame_acc_row.
  apply hoare_ret. auto.
Qed.

Lemma steps_from_analysis_accounted resumeText :
  hoare AccRow (Upload.steps_from_analysis env resumeText) (fun _ => AccRow) Acc.
Proof using no_cancel.
  unfold Upload.steps_from_analysis.
  frames @frame_acc_row.
  eapply hoare_bind.
  { apply frame_acc_row.
    apply (steps_in_try_catch core_eq core_eq_trans); [apply C_analyze|].
    intros e. apply (steps_in_bind core_eq core_eq_trans); [apply C_emit|].
    intros ?. apply C_ret. }
  intros feedback. frames @frame_acc_row.
  eapply hoare_bind.
  { eapply hoare_weaken;
      [apply (updateFeedback_accounted net uuid w0)
      |intros w Hw; exact Hw|intros r w Hw; exact Hw
      |intros w [Hw _]; exact Hw]. }
  intros ?. frames @frame_acc_row.
  apply frame_acc_row.
  match goal with |- steps_in core_eq (if ?b then _ else _) =>
    destruct b; [apply C_emit|apply C_ret] end.
Qed.

Lemma try_block_accounted :
  hoare Acc (try_block env args userId) (fun _ => AccRow) Acc.
Proof using no_cancel.
  unfold try_block. eapply hoare_bind; [apply steps_to_record_accounted|].
  intros resumeText. apply steps_from_analysis_accounted.
Qed.
End TransactionAccount.

Section RollBack.
Variable env : Upload.Env.
Variable w0 : World.

Let net := Upload.env_net env.
Let uuid := Upload.env_uuid env.

Hypothesis removals_delivered :
  forall target, net_remove net target 1%nat = Delivered.
Hypothesis select_delivered : net_select net = Delivered.
Hypothesis delete_row_delivered : net_delete_row net = Delivered.
Hypothesis uuid_not_empty : uuid <> EmptyString.

Lemma shrinks_core : core_pred (shrinks w0).
Proof.
  intros w w' [Hr _] [Hb Hrows]. unfold shrinks. rewrite Hr. split; assumption.
Qed.

(** The clean-up of an accounted state leaves nothing that was not there
    at the start. *)
Lemma cleanup_accounted w :
  accounted uuid w0 w ->
  shrinks w0 (Upload.cleanupFailedUpload env (currentState w) w).2.
Proof using removals_delivered select_delivered delete_row_delivered
            uuid_not_empty.
  intros [Hb Hrows Hflag Hid].
  pose proof (S_cleanupFailedUpload env (currentState w) w) as [Hsb Hsr].
  pose proof (cleanup_removes_files env (currentState w) w removals_delivered)
    as Hfiles.
  pose proof (cleanup_removes_row env (currentState w) w uuid
                select_delivered delete_row_delivered) as Hrow.
  set (w' := (Upload.cleanupFailedUpload env (currentState w) w).2) in *.
  split.
  - intros blob Hin. pose proof (Hsb blob Hin) as Hin1.
    destruct (Hb blob Hin1) as [H|H]; [exact H|].
    exfalso. destruct blob as [bucket path]. cbn in H.
    exact (Hfiles path bucket H Hin).
  - destruct (dbRecordCreated (currentState w)) eqn:Hcreated.
    + specialize (Hrow eq_refl Hid uuid_not_empty).
      etrans; [|exact Hrows].
      apply map_subseteq_spec. intros id row Hlook.
      destruct (decide (id = uuid)) as [->|Hne]; [congruence|].
      rewrite lookup_delete_ne by congruence.
      eapply lookup_weaken; [exact Hlook|exact Hsr].
    + etrans; [exact Hsr|]. apply Hflag. reflexivity.
Qed.

Lemma on_failure_rolls_back name message code :
  taken_for_cancellation name message = false ->
  hoare (accounted uuid w0)
    (Upload.on_failure env (JsError name message code))
    (fun _ => shrinks w0) (shrinks w0).
Proof using removals_delivered select_delivered delete_row_delivered
            uuid_not_empty.
  intros Hnot. unfold Upload.on_failure.
  unfold taken_for_cancellation in Hnot. rewrite Hnot. clear Hnot.
  eapply hoare_bind with
    (Q := fun state w => accounted uuid w0 w /\ state = currentState w).
  { apply hoare_gets. auto. }
  intros state.
  eapply hoare_bind with (Q := fun _ => shrinks w0).
  { intros w [Hw ->].
    pose proof (cleanupFailedUpload_never_fails env (currentState w) w) as Hok.
    pose proof (cleanup_accounted w Hw) as Hs.
    destruct (Upload.cleanupFailedUpload env (currentState w) w) as [[[]|e] w'];
      cbn in *; [exact Hs|discriminate]. }
  intros ?.
  assert (forall A (m : M World A),
            steps_in core_eq m ->
            hoare (shrinks w0) m (fun _ => shrinks w0) (shrinks w0)) as Hframe.
  { intros A m. apply hoare_frame; [apply shrinks_core|auto|apply shrinks_core]. }
  eapply hoare_bind; [apply Hframe, C_gets|]. intros is_mounted.
  destruct (negb is_mounted); [apply hoare_ret; auto|].
  repeat (eapply hoare_bind; [apply Hframe, C_setter|intros ?]).
  eapply hoare_bind; [|intros ?; apply Hframe, C_setter].
  apply Hframe.
  match goal with |- steps_in core_eq (if ?b then _ else _) =>
    destruct b; [apply C_emit|apply C_ret] end.
Qed.
End RollBack.

(** X15 (a failed submission is rolled back).  The user does not cancel,
    and the [try] block of [handleAnalyze] raises an error that the [catch]
    block does not take for a cancellation.  When the first request of
    every blob removal, the read and the deletion of the row are delivered,
    [handleAnalyze] ends normally and leaves in the backend no blob and no
    row that was not there before the submission: whichever step failed,
    what the steps before it had stored is removed. *)
Theorem failed_submission_is_rolled_back :
  forall (env : Upload.Env) (args : Upload.AnalyzeArgs) (w w1 : World)
         (c : ascii) (rest name message : string) (code : option string),
    let net := Upload.env_net env in
    Upload.user args = Some (String c rest) ->
    Upload.env_cancel env = None ->
    (forall target, net_remove net target 1%nat = Delivered) ->
    net_select net = Delivered ->
    net_delete_row net = Delivered ->
    Upload.env_uuid env <> EmptyString ->
    try_block env args (String c rest) (Upload.begin env w)
    = (Err (JsError name message code), w1) ->
    taken_for_cancellation name message = false ->
    let '(r, w') := Upload.handleAnalyze env args w in
    r = Ok tt
    /\ blobs (remote w') ⊆ blobs (remote w)
    /\ rows (remote w') ⊆ rows (remote w).
Proof.
  intros env args w w1 c rest name message code net
    Huser Hcancel Hrem Hsel Hdel Hid Hbody Hnot.
  assert (accounted (Upload.env_uuid env) w (Upload.begin env w)) as Hstart.
  { constructor; cbn.
    - intros blob Hin. left. exact Hin.
    - apply delete_subseteq.
    - reflexivity.
    - reflexivity. }
  pose proof (try_block_accounted env args (String c rest) w Hcancel
                (Upload.begin env w) Hstart) as Hblock.
  rewrite Hbody in Hblock.
  pose proof (on_failure_rolls_back env w Hrem Hsel Hdel Hid name message code
                Hnot w1 Hblock) as Hcatch.
  assert ((Upload.on_failure env (JsError name message code) w1).1 = Ok tt) as Hok.
  { unfold Upload.on_failure. unfold taken_for_cancellation in Hnot.
    rewrite Hnot. unfold bind at 1. cbn [gets].
    pose proof (cleanupFailedUpload_never_fails env (currentState w1) w1) as Hc.
    unfold bind at 1.
    destruct (Upload.cleanupFailedUpload env (currentState w1) w1) as [[[]|e] w2];
      cbn in Hc; [|discriminate].
    unfold bind at 1. cbn [gets].
    destruct (negb (mounted w2)); [reflexivity|].
    cbn. clear Hnot.
    match goal with |- context [if ?b then _ else _] => destruct b end;
      reflexivity. }
  unfold Upload.handleAnalyze. rewrite Huser.
  unfold bind at 1. cbn [modify]. unfold Upload.run_transaction.
  change (let* resumeText := Upload.steps_to_record env args (String c rest) in
          Upload.steps_from_analysis env resumeText)
    with (try_block env args (String c rest)).
  unfold try_catch at 1. rewrite Hbody.
  destruct (Upload.on_failure env (JsError name message code) w1) as [r w2].
  cbn in Hok. subst r.
  split; [reflexivity|]. destruct Hcatch as [Hb Hrows]. split; assumption.
Qed.

Lemma failed_submission_is_rolled_back_witness :
  let env :=
    Scenario.env_of net_no_insert (Ok (Some Scenario.preview_file))
      Scenario.scored_analysis None in
  let '(r, w') := Upload.handleAnalyze env Scenario.args Upload.fresh_world in
  r = Ok tt
  /\ blobs (remote w') ⊆ blobs (remote Upload.fresh_world)
  /\ rows (remote w') ⊆ rows (remote Upload.fresh_world).
Proof.
  intros env.
  set (w1 := (try_block env Scenario.args "u1"
                (Upload.begin env Upload.fresh_world)).2).
  assert (try_block env Scenario.args "u1" (Upload.begin env Upload.fresh_world)
          = (Err (JsError "Error"
                    "Failed to create resume record: permission denied for table resumes"
                    (Some "DB_CREATE_FAILED")), w1)) as Hbody
      by (vm_compute; reflexivity).
  apply (failed_submission_is_rolled_back env Scenario.args Upload.fresh_world w1
           "u" "1" "Error"
           "Failed to create resume record: permission denied for table resumes"
           (Some "DB_CREATE_FAILED")).
  - reflexivity.
  - reflexivity.
  - intros target. reflexivity.
  - reflexivity.
  - reflexivity.
  - discriminate.
  - exact Hbody.
  - reflexivity.
Defined.

(** ** handleAnalyze: what a completed submission has stored *)

Lemma blobs_kept_refl w : blobs_kept w w.
Proof. unfold blobs_kept. reflexivity. Qed.

Lemma blobs_kept_trans w1 w2 w3 :
  blobs_kept w1 w2 -> blobs_kept w2 w3 -> blobs_kept w1 w3.
Proof. unfold blobs_kept. intros. etrans; eassumption. Qed.

Lemma core_eq_blobs_kept w w' : core_eq w w' -> blobs_kept w w'.
Proof. intros [Hr _]. unfold blobs_kept. rewrite Hr. reflexivity. Qed.

Lemma steps_core_kept {A} (m : M World A) :
  steps_in core_eq m -> steps_in blobs_kept m.
Proof. intros H w. apply core_eq_blobs_kept, H. Qed.

Section BlobsKept.
Variable net : Net.

Lemma upload_attempt_keeps_blobs path o attempt :
  keeps_core (onProgress o) -> keeps_core (onRetry o) ->
  steps_in blobs_kept (storageService.upload_attempt net path o attempt).
Proof.
  intros Hp Hr w.
  assert (forall e w1, blobs_kept w w1 ->
            blobs_kept w
              ((if storageService.no_retry_upload_error e
                then throw (A := string) e
                else
                  let* _ :=
                    (if (attempt <? maxRetries o)%nat
                     then notify (onRetry o)
                            (NoticeRetry attempt (maxRetries o) (exn_message e))
                     else ret tt) in
                  throw e) w1).2) as Hhandler.
  { intros e w1 Hk.
    destruct (storageService.no_retry_upload_error e); [exact Hk|].
    unfold bind. destruct (attempt <? maxRetries o)%nat; [|exact Hk].
    destruct (notify_core (onRetry o)
                (NoticeRetry attempt (maxRetries o) (exn_message e)) w1 Hr)
      as (w2 & -> & Hc2).
    cbn. eapply blobs_kept_trans; [exact Hk|apply core_eq_blobs_kept, Hc2]. }
  unfold storageService.upload_attempt, try_catch.
  destruct (notify_core (onProgress o) (NoticeUploading attempt) w Hp)
    as (w1 & Hn1 & Hc1).
  unfold bind at 1. rewrite Hn1. unfold bind at 1. cbn [modify].
  unfold bind at 1. unfold request.
  assert (blobs_kept w (emit (EvUpload (bucket o) path attempt) w1)) as Hk1.
  { apply core_eq_blobs_kept. destruct Hc1 as [? ?]. split; assumption. }
  destruct (net_upload net (bucket o, path) attempt) as [|message code|message|].
  - unfold backend_upload.
    destruct (bool_decide _ && negb (upsert o)).
    + destruct (includes _ _ && negb (upsert o)); cbn [throw];
        apply Hhandler; exact Hk1.
    + set (w2 := with_remote _ _).
      destruct (notify_core (onProgress o) (NoticeComplete attempt) w2 Hp)
        as (w3 & Hn3 & Hc3).
      unfold bind. rewrite Hn3. cbn [ret snd].
      eapply blobs_kept_trans; [|apply core_eq_blobs_kept, Hc3].
      eapply blobs_kept_trans; [exact Hk1|].
      subst w2. unfold blobs_kept. cbn. apply union_subseteq_r.
  - destruct (includes _ _ && negb (upsert o)); cbn [throw];
      apply Hhandler; exact Hk1.
  - apply Hhandler; exact Hk1.
  - apply Hhandler; exact Hk1.
Qed.

Lemma K_retrying {A} (fn : nat -> M World A) maxRetries b m f :
  (forall a, steps_in blobs_kept (fn a)) ->
  steps_in blobs_kept (retrying net fn maxRetries b m f).
Proof.
  intros Hfn. unfold retrying, retryWithBackoff.
  apply steps_in_retry_loop;
    [apply blobs_kept_refl|apply blobs_kept_trans|exact Hfn|].
  intros ms w. unfold blobs_kept. reflexivity.
Qed.

Lemma K_uploadFile file path o :
  keeps_core (onProgress o) -> keeps_core (onRetry o) ->
  steps_in blobs_kept (storageService.uploadFile net file path o).
Proof.
  intros Hp Hr. unfold storageService.uploadFile.
  destruct file as [f|]; [|intros w; apply blobs_kept_refl].
  destruct (file_size f =? 0)%Z; [intros w; apply blobs_kept_refl|].
  destruct (file_size f >? 50 * 1024 * 1024)%Z;
    [intros w; apply blobs_kept_refl|].
  apply (steps_in_bind blobs_kept blobs_kept_trans).
  - destruct (skipHealthCheck o); intros w; unfold blobs_kept; reflexivity.
  - intros _. apply K_retrying. intros a.
    apply upload_attempt_keeps_blobs; assumption.
Qed.

Lemma create_attempt_keeps_blobs row attempt :
  steps_in blobs_kept (resumeService.create_attempt net row attempt).
Proof.
  intros w. unfold resumeService.create_attempt, try_catch, bind, modify, request.
  destruct (net_insert net attempt); cbn.
  - unfold backend_insert. cbn.
    destruct (rows (remote w) !! row_id row); cbn.
    + destruct (negb _); unfold blobs_kept; reflexivity.
    + unfold blobs_kept; reflexivity.
  - destruct (negb _); unfold blobs_kept; reflexivity.
  - destruct (negb _); unfold blobs_kept; reflexivity.
  - destruct (negb _); unfold blobs_kept; reflexivity.
Qed.

Lemma K_create row : steps_in blobs_kept (resumeService.create net row).
Proof. apply K_retrying. intros a. apply create_attempt_keeps_blobs. Qed.
End BlobsKept.

Lemma keeps_core_remote {N} (callback : option (N -> World -> World)) :
  keeps_core callback -> keeps_remote callback.
Proof. intros H f Hf n w. apply (H f Hf n w). Qed.

Section Completed.
Variable env : Upload.Env.
Variable args : Upload.AnalyzeArgs.
Variable userId : string.
Hypothesis no_cancel : Upload.env_cancel env = None.

Let net := Upload.env_net env.
Let uuid := Upload.env_uuid env.
Let T : World -> Prop := fun _ => True.

Lemma pdf_stored_core pdfPath : core_pred (pdf_stored env args userId pdfPath).
Proof. intros w w' [Hr _] [Hp Hb]. split; [exact Hp|]. rewrite Hr. exact Hb. Qed.

Lemma record_stored_core pdfPath : core_pred (record_stored env args userId pdfPath).
Proof.
  intros w w' Hc [Hp [img Hrow]]. split.
  - eapply pdf_stored_core; eassumption.
  - exists img. destruct Hc as [Hr _]. rewrite Hr. exact Hrow.
Qed.

Lemma feedback_stored_core pdfPath :
  core_pred (feedback_stored env args userId pdfPath).
Proof.
  intros w w' Hc [Hp [img Hrow]]. split.
  - eapply pdf_stored_core; eassumption.
  - exists img. destruct Hc as [Hr _]. rewrite Hr. exact Hrow.
Qed.

Lemma hoare_frame_T {A} (P : World -> Prop) (m : M World A) :
  core_pred P -> steps_in core_eq m -> hoare P m (fun _ => P) T.
Proof.
  intros HP Hm. apply hoare_frame; [exact HP|intros; exact I| |exact Hm].
  intros w w' _ _. exact I.
Qed.

Lemma pdf_stored_kept pdfPath {A} (m : M World A) :
  steps_in blobs_kept m ->
  hoare (pdf_stored env args userId pdfPath) m
    (fun _ => pdf_stored env args userId pdfPath) T.
Proof.
  intros Hm w [Hp Hb]. specialize (Hm w).
  destruct (m w) as [[a|e] w']; [|exact I].
  split; [exact Hp|]. apply Hm, Hb.
Qed.

Lemma K_generate_preview : steps_in blobs_kept (Upload.generate_preview env userId).
Proof using no_cancel.
  unfold Upload.generate_preview.
  apply (steps_in_bind blobs_kept blobs_kept_trans);
    [apply steps_core_kept; core_step_of no_cancel|]. intros _.
  apply (steps_in_try_catch blobs_kept blobs_kept_trans).
  - apply (steps_in_bind blobs_kept blobs_kept_trans);
      [apply steps_core_kept; core_step_of no_cancel|]. intros _.
    apply (steps_in_bind blobs_kept blobs_kept_trans);
      [apply steps_core_kept, C_lift_result|]. intros [imageFile|];
      [|apply steps_core_kept, C_ret].
    apply (steps_in_bind blobs_kept blobs_kept_trans);
      [apply steps_core_kept, C_lift_result|]. intros imagePath.
    apply (steps_in_bind blobs_kept blobs_kept_trans);
      [apply steps_core_kept; core_step_of no_cancel|]. intros _.
    apply (steps_in_bind blobs_kept blobs_kept_trans);
      [apply steps_core_kept; core_step_of no_cancel|]. intros _.
    apply (steps_in_bind blobs_kept blobs_kept_trans);
      [apply K_uploadFile; apply image_callbacks_keep_core|]. intros _.
    apply (steps_in_bind blobs_kept blobs_kept_trans);
      [intros w; unfold blobs_kept; reflexivity|]. intros _.
    apply steps_core_kept. core_step_of no_cancel.
  - intros e.
    apply (steps_in_bind blobs_kept blobs_kept_trans);
      [apply steps_core_kept; core_step_of no_cancel|]. intros _.
    apply steps_core_kept. core_step_of no_cancel.
Qed.

Lemma create_record_stored pdfPath imagePath :
  hoare (pdf_stored env args userId pdfPath)
    (resumeService.create net (resumeData env args userId pdfPath imagePath))
    (fun _ => record_stored env args userId pdfPath) T.
Proof.
  intros w Hw.
  pose proof (pdf_stored_kept pdfPath _
                (K_create net (resumeData env args userId pdfPath imagePath))
                w Hw) as Hk.
  destruct (resumeService.create net _ w) as [[r|e] w'] eqn:Hrun; [|exact I].
  split; [exact Hk|]. exists imagePath.
  apply (create_stores_row _ _ _ _ _ Hrun).
Qed.

Lemma analysis_step (P : World -> Prop) :
  core_pred P ->
  hoare P
    (try_catch (Upload.analyze env)
       (fun aiError =>
          let* _ := modify (emit (EvWarn "AI analysis failed:")) in
          ret Upload.placeholder_feedback))
    (fun fb w => P w /\ fb = analysis_feedback env) T.
Proof.
  intros HP w Hw. pose proof (C_analyze env w) as Hc.
  unfold try_catch, analysis_feedback. unfold Upload.analyze in *.
  destruct (perplexity.analyzeResumeWithPerplexity _ _) as [[v|e] events];
    cbn in *.
  - split; [eapply HP; eassumption|reflexivity].
  - split; [|reflexivity]. eapply HP; [|exact Hw].
    destruct Hc as [Hr Hs]. split; assumption.
Qed.

Lemma update_attempt_stored pdfPath fb attempt :
  hoare (fun w => record_stored env args userId pdfPath w
                  /\ fb = analysis_feedback env)
    (resumeService.update_attempt net uuid fb attempt)
    (fun _ => feedback_stored env args userId pdfPath)
    (fun w => record_stored env args userId pdfPath w
              /\ fb = analysis_feedback env).
Proof.
  intros w [Hw ->].
  assert (core_eq w (emit (EvUpdate uuid (analysis_feedback env) attempt) w))
    as Hc by (split; reflexivity).
  pose proof (record_stored_core pdfPath _ _ Hc Hw) as Hw1.
  unfold resumeService.update_attempt, try_catch, bind, modify, request.
  destruct (net_update net attempt); cbn.
  - unfold backend_update. cbn.
    destruct Hw as [[Hp Hb] [img Hrow]]. subst uuid. rewrite Hrow. cbn.
    split; [split; assumption|]. exists img. apply lookup_insert_eq.
  - destruct (bool_decide _); cbn; try destruct (negb _); split;
      (exact Hw1 || reflexivity).
  - destruct (negb _); split; (exact Hw1 || reflexivity).
  - destruct (negb _); split; (exact Hw1 || reflexivity).
Qed.

Lemma updateFeedback_stored pdfPath fb :
  hoare (fun w => record_stored env args userId pdfPath w
                  /\ fb = analysis_feedback env)
    (resumeService.updateFeedback net uuid fb)
    (fun _ => feedback_stored env args userId pdfPath) T.
Proof.
  unfold resumeService.updateFeedback.
  destruct (_ || _); [apply hoare_throw; intros; exact I|].
  eapply hoare_weaken with (P := fun w => record_stored env args userId pdfPath w
                                         /\ fb = analysis_feedback env);
    [|auto|intros a w Hw; exact Hw|intros; exact I].
  unfold retrying, retryWithBackoff. apply hoare_retry_loop.
  - intros a. apply update_attempt_stored.
  - intros ms w [Hw Hfb]. split; [|exact Hfb].
    eapply record_stored_core; [apply sleep_core|exact Hw].
Qed.
End Completed.

Section CompletedRun.
Variable env : Upload.Env.
Variable args : Upload.AnalyzeArgs.
Variable userId : string.
Hypothesis no_cancel : Upload.env_cancel env = None.

Let net := Upload.env_net env.
Let uuid := Upload.env_uuid env.
Let T : World -> Prop := fun _ => True.

Ltac frames_T HP :=
  repeat (eapply hoare_bind;
          [apply hoare_frame_T; [apply HP|core_step_of no_cancel]|intros ?]).

Lemma T_core : core_pred T.
Proof. intros w w' _ _. exact I. Qed.

Lemma pure_core (P : Prop) : core_pred (fun _ : World => P).
Proof. intros w w' _ H. exact H. Qed.

Lemma steps_to_record_completed :
  hoare T (Upload.steps_to_record env args userId)
    (fun _ w => exists pdfPath, record_stored env args userId pdfPath w) T.
Proof using no_cancel.
  unfold Upload.steps_to_record.
  frames_T T_core.
  eapply hoare_bind; [apply hoare_frame_T; [apply T_core|apply C_lift_result]|].
  intros resumeText. frames_T T_core.
  eapply hoare_bind with
    (Q := fun pdfPath _ =>
            generateFilePath (Upload.env_pdf_stamp env).1
              (Upload.env_pdf_stamp env).2 userId
              (file_name (Upload.file args)) "pdf" = Ok pdfPath).
  { intros w _. destruct (generateFilePath _ _ _ _ _); [reflexivity|exact I]. }
  intros pdfPath. frames_T pure_core.
  eapply hoare_bind with (Q := fun _ => pdf_stored env args userId pdfPath).
  { intros w Hgen.
    destruct (storageService.uploadFile _ _ _ _ w) as [[stored|e] w'] eqn:Hrun;
      [|exact I].
    split; [exact Hgen|].
    apply (uploadFile_stores _ _ _ _ _ _ _
             (keeps_core_remote _ (proj1 (pdf_callbacks_keep_core))) Hrun). }
  intros ?.
  eapply hoare_bind with (Q := fun _ => pdf_stored env args userId pdfPath).
  { apply hoare_modify. intros w Hw. exact Hw. }
  intros ?. frames_T (pdf_stored_core env args userId pdfPath).
  eapply hoare_bind;
    [apply pdf_stored_kept, K_generate_preview, no_cancel|intros ?].
  frames_T (pdf_stored_core env args userId pdfPath).
  eapply hoare_bind; [apply create_record_stored|intros ?].
  eapply hoare_bind with (Q := fun _ => record_stored env args userId pdfPath).
  { apply hoare_modify. intros w Hw. exact Hw. }
  intros ?. frames_T (record_stored_core env args userId pdfPath).
  apply hoare_ret. intros w Hw. exists pdfPath. exact Hw.
Qed.

Lemma steps_from_analysis_completed pdfPath resumeText :
  hoare (record_stored env args userId pdfPath)
    (Upload.steps_from_analysis env resumeText)
    (fun _ w => feedback_stored env args userId pdfPath w
                /\ last (trace w) = Some (last_step env w)) T.
Proof using no_cancel.
  unfold Upload.steps_from_analysis.
  frames_T (record_stored_core env args userId pdfPath).
  eapply hoare_bind;
    [apply analysis_step, record_stored_core|intros feedback].
  assert (core_pred (fun w => record_stored env args userId pdfPath w
                              /\ feedback = analysis_feedback env)) as Hcore.
  { intros w w' Hc [Hw Hf]. split; [|exact Hf].
    eapply record_stored_core; eassumption. }
  frames_T Hcore.
  eapply hoare_bind; [apply updateFeedback_stored|intros ?].
  eapply hoare_bind;
    [apply hoare_frame_T;
     [apply feedback_stored_core|apply C_tracker_complete]|intros ?].
  eapply hoare_bind with
    (Q := fun _ w => feedback_stored env args userId pdfPath w
                     /\ last (trace w)
                        = Some (EvStorageSet "lastSuccessfulUpload" uuid)).
  { apply hoare_modify. intros w Hw. split.
    - eapply feedback_stored_core; [|exact Hw]. split; reflexivity.
    - cbn. apply last_snoc. }
  intros ?.
  eapply hoare_bind with
    (Q := fun is_mounted w =>
            (feedback_stored env args userId pdfPath w
             /\ last (trace w)
                = Some (EvStorageSet "lastSuccessfulUpload" uuid))
            /\ is_mounted = mounted w).
  { apply hoare_gets. auto. }
  intros [|].
  - apply hoare_modify. intros w [[Hw _] Hm]. split.
    + eapply feedback_stored_core; [|exact Hw]. split; reflexivity.
    + cbn. unfold last_step. cbn. rewrite <- Hm. apply last_snoc.
  - apply hoare_ret. intros w [[Hw Hlast] Hm]. split; [exact Hw|].
    unfold last_step. rewrite <- Hm. exact Hlast.
Qed.

Lemma try_block_completed :
  hoare T (try_block env args userId)
    (fun _ w => exists pdfPath,
                  feedback_stored env args userId pdfPath w
                  /\ last (trace w) = Some (last_step env w)) T.
Proof using no_cancel.
  unfold try_block. eapply hoare_bind; [apply steps_to_record_completed|].
  intros resumeText w [pdfPath Hw].
  pose proof (steps_from_analysis_completed pdfPath resumeText w Hw) as H.
  destruct (Upload.steps_from_analysis env resumeText w) as [[[]|e] w'];
    [|exact I].
  exists pdfPath. exact H.
Qed.
End CompletedRun.

Lemma analysis_feedback_has_categories env :
  truthy (prop (analysis_feedback env) "categories") = true.
Proof.
  unfold analysis_feedback. rewrite analyze_unrolled.
  destruct (perplexity.attempt_body _ (Upload.env_analysis env 1%nat))
    as [v1|e1] eqn:H1; cbn [fst].
  - apply attempt_body_ok in H1. apply H1.
  - destruct (String.eqb (exn_name e1) "AbortError"); cbn [fst]; [reflexivity|].
    destruct (perplexity.attempt_body _ (Upload.env_analysis env 2%nat))
      as [v2|e2] eqn:H2; [|reflexivity].
    apply attempt_body_ok in H2. apply H2.
Qed.

(** X16 (a completed submission).  The user does not cancel and the [try]
    block of [handleAnalyze] runs to its end.  Then [handleAnalyze] ends
    normally, and in the backend it leaves the PDF stored in the bucket
    [resumes] under the path generated for it, and in the table, under the
    id of the submission, the record with the user, the three texts of the
    form and that path, holding as feedback what the analysis returned or,
    the analysis having failed, the placeholder, with [overall_score] and
    [ats_score] copied from it.  The feedback saved has [categories].  The
    last thing the page does is the navigation to the record, or, the view
    being gone, the note in local storage. *)
Theorem completed_submission_is_stored :
  forall (env : Upload.Env) (args : Upload.AnalyzeArgs) (w w1 : World)
         (c : ascii) (rest : string),
    let userId := String c rest in
    Upload.user args = Some userId ->
    Upload.env_cancel env = None ->
    try_block env args userId (Upload.begin env w) = (Ok tt, w1) ->
    let '(r, w') := Upload.handleAnalyze env args w in
    r = Ok tt
    /\ exists pdfPath imagePath,
         generateFilePath (Upload.env_pdf_stamp env).1 (Upload.env_pdf_stamp env).2
           userId (file_name (Upload.file args)) "pdf" = Ok pdfPath
         /\ ("resumes", pdfPath) ∈ blobs (remote w')
         /\ rows (remote w') !! Upload.env_uuid env
            = Some (with_feedback (analysis_feedback env)
                      (resumeData env args userId pdfPath imagePath))
         /\ truthy (prop (analysis_feedback env) "categories") = true
         /\ last (trace w') = Some (last_step env w').
Proof.
  intros env args w w1 c rest userId Huser Hcancel Hbody. subst userId.
  pose proof (try_block_completed env args (String c rest) Hcancel
                (Upload.begin env w) I) as Hdone.
  rewrite Hbody in Hdone.
  destruct Hdone as (pdfPath & [[Hgen Hblob] [imagePath Hrow]] & Hlast).
  unfold Upload.handleAnalyze. rewrite Huser.
  unfold bind at 1. cbn [modify]. unfold Upload.run_transaction.
  change (let* resumeText := Upload.steps_to_record env args (String c rest) in
          Upload.steps_from_analysis env resumeText)
    with (try_block env args (String c rest)).
  unfold try_catch at 1. rewrite Hbody.
  split; [reflexivity|]. exists pdfPath, imagePath.
  split; [exact Hgen|]. split; [exact Hblob|]. split; [exact Hrow|].
  split; [apply analysis_feedback_has_categories|exact Hlast].
Qed.

Lemma completed_submission_is_stored_witness :
  let env :=
    Scenario.env_of Scenario.net_ok (Ok (Some Scenario.preview_file))
      Scenario.scored_analysis None in
  let '(r, w') := Upload.handleAnalyze env Scenario.args Upload.fresh_world in
  r = Ok tt
  /\ exists pdfPath imagePath,
       generateFilePath 1700000000000 "abc123" "u1" "Jane Doe.pdf" "pdf"
       = Ok pdfPath
       /\ ("resumes", pdfPath) ∈ blobs (remote w')
       /\ rows (remote w') !! "r-1"
          = Some (with_feedback (analysis_feedback env)
                    (resumeData env Scenario.args "u1" pdfPath imagePath))
       /\ truthy (prop (analysis_feedback env) "categories") = true
       /\ last (trace w') = Some (last_step env w').
Proof.
  intros env.
  set (w1 := (try_block env Scenario.args "u1"
                (Upload.begin env Upload.fresh_world)).2).
  assert (try_block env Scenario.args "u1" (Upload.begin env Upload.fresh_world)
          = (Ok tt, w1)) as Hbody
      by (vm_compute; reflexivity).
  apply (completed_submission_is_stored env Scenario.args Upload.fresh_world w1
           "u" "1").
  - reflexivity.
  - reflexivity.
  - exact Hbody.
Defined.
